(** * Email-driven application-status reconciliation

    A shallow embedding of the status reconciliation engine of the job
    tracker: [modules/tracking/email_scanner.py] (company matcher,
    classification post-processing, record selection, per-message update)
    and [modules/tracking/status_manager.py] (direct status update).

    Conventions of the embedding.
    - Python [str] values are [string]s, read as sequences of 8-bit
      characters.  [lower], the whitespace class and the alphanumeric class
      act on the ASCII range; characters above 127 are left alone.
    - Confidences and similarity scores are exact rationals ([Q]).  Every
      threshold of the source is a short decimal literal and every score is
      a quotient of two string lengths, for which the comparisons of the
      source and the comparisons on [Q] agree.
    - A [None] / null / NaN cell is [None] of an [option].
    - What [pd.read_csv] makes of a written column (missing-value tokens,
      inferred types) is a parameter of the loader, [read_column]; the
      type inferred for the ['Job ID'] column is an argument of the direct
      update.
    - Console output is not modelled, except where it is the only trace of
      a decision; there it is returned as a value (see [Outcome]). *)

From Stdlib Require Import Bool List Arith Lia ZArith QArith Ascii String DecimalString.
Import ListNotations.

Close Scope Q_scope.
Open Scope string_scope.
Open Scope bool_scope.
Open Scope nat_scope.

(** Strict comparison of rationals, as a boolean: [x < y]. *)
Definition Qlt_bool (x y : Q) : bool := negb (Qle_bool y x).

(** ** Python string primitives *)

Module PyStr.

(** [str.isspace] / the regex class [\s] on the ASCII range:
    TAB, LF, VT, FF, CR, FS, GS, RS, US and SPACE. *)
Definition is_space (c : ascii) : bool :=
  let n := nat_of_ascii c in
  ((9 <=? n) && (n <=? 13)) || ((28 <=? n) && (n <=? 32)).

Definition is_upper (c : ascii) : bool :=
  let n := nat_of_ascii c in (65 <=? n) && (n <=? 90).

Definition is_lower (c : ascii) : bool :=
  let n := nat_of_ascii c in (97 <=? n) && (n <=? 122).

Definition is_digit (c : ascii) : bool :=
  let n := nat_of_ascii c in (48 <=? n) && (n <=? 57).

(** The regex class [[a-zA-Z0-9]]. *)
Definition is_alnum (c : ascii) : bool :=
  is_upper c || is_lower c || is_digit c.

Definition lower_char (c : ascii) : ascii :=
  if is_upper c then ascii_of_nat (nat_of_ascii c + 32) else c.

(** [s.lower()] *)
Fixpoint lower (s : string) : string :=
  match s with
  | EmptyString => EmptyString
  | String c r => String (lower_char c) (lower r)
  end.

(** Keep the characters that satisfy [p]. *)
Fixpoint filter_chars (p : ascii -> bool) (s : string) : string :=
  match s with
  | EmptyString => EmptyString
  | String c r => if p c then String c (filter_chars p r) else filter_chars p r
  end.

Fixpoint lstrip (s : string) : string :=
  match s with
  | EmptyString => EmptyString
  | String c r => if is_space c then lstrip r else s
  end.

Fixpoint all_space (s : string) : bool :=
  match s with
  | EmptyString => true
  | String c r => is_space c && all_space r
  end.

Fixpoint rstrip (s : string) : string :=
  match s with
  | EmptyString => EmptyString
  | String c r => if all_space s then EmptyString else String c (rstrip r)
  end.

(** [s.strip()] *)
Definition strip (s : string) : string := rstrip (lstrip s).

(** [needle in hay] *)
Fixpoint contains (needle hay : string) : bool :=
  prefix needle hay ||
  match hay with
  | EmptyString => false
  | String _ r => contains needle r
  end.

(** Truthiness of a [str]: the empty string is falsy. *)
Definition nonempty (s : string) : bool :=
  match s with EmptyString => false | String _ _ => true end.

(** Truthiness of an optional [str]: [None] and [''] are falsy. *)
Definition truthy (o : option string) : bool :=
  match o with None => false | Some s => nonempty s end.

(** [value == 'text'] for a value that may be [None]. *)
Definition is_text (o : option string) (text : string) : bool :=
  match o with Some s => String.eqb s text | None => false end.

(** [s.split()]: maximal runs of non-whitespace characters. *)
Fixpoint split_from (s : string) (cur : option string) : list string :=
  match s with
  | EmptyString => match cur with Some w => [w] | None => [] end
  | String c r =>
      if is_space c
      then match cur with
           | Some w => w :: split_from r None
           | None => split_from r None
           end
      else split_from r (Some (match cur with
                               | Some w => w ++ String c EmptyString
                               | None => String c EmptyString
                               end))
  end.

Definition split (s : string) : list string := split_from s None.

(** [s[:n]] *)
Definition take (n : nat) (s : string) : string := substring 0 n s.

(** [s.replace(' ', '')] *)
Definition remove_blanks (s : string) : string :=
  filter_chars (fun c => negb (Ascii.eqb c " "%char)) s.

(** [s.split(' - ')[-1]]: the text after the last separator found by the
    left-to-right, non-overlapping split.  [skip] counts the characters of
    a separator still to be passed over. *)
Fixpoint last_part (s : string) (skip : nat) (cur : string) : string :=
  match s with
  | EmptyString => cur
  | String c r =>
      match skip with
      | S k => last_part r k cur
      | O => if prefix " - " s then last_part r 2 EmptyString
             else last_part r 0 (cur ++ String c EmptyString)
      end
  end.

(** [s.split('<')[0]] *)
Fixpoint before_lt (s : string) : string :=
  match s with
  | EmptyString => EmptyString
  | String c r => if Ascii.eqb c "<"%char then EmptyString else String c (before_lt r)
  end.

(** [n] characters dropped from the front: [s[n:]]. *)
Fixpoint drop (n : nat) (s : string) : string :=
  match n, s with
  | O, _ => s
  | S k, String _ r => drop k r
  | S _, EmptyString => EmptyString
  end.

(** Decimal rendering of a natural number, as in an f-string. *)
Definition decimal (n : nat) : string :=
  DecimalString.NilZero.string_of_uint (Nat.to_uint n).

Definition quote : string := String (ascii_of_nat 34) EmptyString.
Definition newline : string := String (ascii_of_nat 10) EmptyString.

(** The three bytes of U+2192, the arrow used in audit notes. *)
Definition arrow : string :=
  String (ascii_of_nat 226) (String (ascii_of_nat 134)
    (String (ascii_of_nat 146) EmptyString)).

End PyStr.

(** ** Company matcher: [fuzzy_company_match] *)

Module Matcher.
Import PyStr.

(** [re.sub(r'[\s\-\.]', '', name)] *)
Definition compact (name : string) : string :=
  filter_chars
    (fun c => negb (is_space c || Ascii.eqb c "-"%char || Ascii.eqb c "."%char))
    name.

(** The alternation of the suffix pattern, in the order of the source. *)
Definition legal_suffixes : list string :=
  [ "inc"; "llc"; "corp"; "corporation"; "ltd"; "limited"; "company"; "co";
    "group"; "services"; "solutions"; "technologies"; "technology"; "tech";
    "systems"; "international"; "global" ].

(** Does [t] match [\s*(inc|llc|...)\.?] followed by [tl] and the end of
    the string?  None of the alternatives starts with whitespace, so the
    greedy [\s*] consumes exactly the leading whitespace of [t]. *)
Definition suffix_match_then (tl : string) (t : string) : bool :=
  let u := lstrip t in
  existsb (fun suf => String.eqb u (suf ++ tl) || String.eqb u (suf ++ "." ++ tl))
          legal_suffixes.

(** [re.sub(r'\s*(inc|llc|...)\.?$', '', name)]: the leftmost position
    from which the pattern matches is cut off.  [$] matches at the end of
    the string and just before a final line feed, which is then kept. *)
Fixpoint strip_suffix (name : string) : string :=
  if suffix_match_then EmptyString name then EmptyString
  else if suffix_match_then newline name then newline
  else match name with
       | EmptyString => EmptyString
       | String c r => String c (strip_suffix r)
       end.

(** The inner function [normalize_company]; the 4-tuple is returned as a
    list in the same order. *)
Definition normalize_company (name : string) : list string :=
  let name := strip (lower name) in
  let name_compact := compact name in
  let name_base := strip_suffix name in
  let name_base_compact := compact name_base in
  [name; name_compact; name_base; name_base_compact].

(** [min(len(a), len(b)) / max(len(a), len(b))] for non-empty strings. *)
Definition score (a b : string) : Q :=
  Qmake (Z.of_nat (Nat.min (length a) (length b)))
        (Pos.of_nat (Nat.max (length a) (length b))).

Definition threshold : Q := Qmake 6 10.
Definition exact_score : Q := Qmake 1 1.
Definition acronym_score : Q := Qmake 85 100.
Definition zero_score : Q := Qmake 0 1.

(** State of the matching loops: either the function has returned from
    the exact-match branch, or it is still running with the current
    [best_match] and [best_score]. *)
Inductive ScanState : Type :=
| Found (csv_company : string)
| Running (best_match : option string) (best_score : Q).

(** Body of the innermost loop. *)
Definition check_pair (csv_company : string) (best_match : option string)
           (best_score : Q) (email_variant csv_variant : string) : ScanState :=
  if nonempty email_variant && nonempty csv_variant then
    if String.eqb email_variant csv_variant then Found csv_company
    else if contains email_variant csv_variant || contains csv_variant email_variant then
      let sc := score email_variant csv_variant in
      if Qlt_bool best_score sc && Qlt_bool threshold sc
      then Running (Some csv_company) sc
      else Running best_match best_score
    else Running best_match best_score
  else Running best_match best_score.

(** The two nested loops over the variants, as one pass over the pairs in
    the order the loops visit them. *)
Fixpoint check_pairs (csv_company : string) (pairs : list (string * string))
         (best_match : option string) (best_score : Q) : ScanState :=
  match pairs with
  | [] => Running best_match best_score
  | (ev, cv) :: rest =>
      match check_pair csv_company best_match best_score ev cv with
      | Found c => Found c
      | Running bm bs => check_pairs csv_company rest bm bs
      end
  end.

Definition variant_pairs (email_normalized : list string) (csv_company : string)
  : list (string * string) :=
  list_prod email_normalized (normalize_company csv_company).

(** The loop over [csv_companies]. *)
Fixpoint check_companies (email_normalized : list string) (csv_companies : list string)
         (best_match : option string) (best_score : Q) : ScanState :=
  match csv_companies with
  | [] => Running best_match best_score
  | c :: rest =>
      match check_pairs c (variant_pairs email_normalized c) best_match best_score with
      | Found c' => Found c'
      | Running bm bs => check_companies email_normalized rest bm bs
      end
  end.

(** [re.sub(r'[^a-zA-Z0-9]', '', name.lower())] *)
Definition letters (name : string) : string :=
  filter_chars is_alnum (lower name).

(** The acronym loop: the first company whose letters equal those of the
    candidate, provided there are more than two of them. *)
Fixpoint acronym_match (email_letters : string) (csv_companies : list string)
  : option string :=
  match csv_companies with
  | [] => None
  | c :: rest =>
      if String.eqb email_letters (letters c) && (2 <? length email_letters)
      then Some c
      else acronym_match email_letters rest
  end.

Definition fuzzy_company_match (email_company : string) (csv_companies : list string)
  : option string * Q :=
  if negb (nonempty email_company) then (None, zero_score)
  else
    match check_companies (normalize_company email_company) csv_companies
                          None zero_score with
    | Found c => (Some c, exact_score)
    | Running best_match best_score =>
        if negb (truthy best_match) then
          match acronym_match (letters email_company) csv_companies with
          | Some c => (Some c, acronym_score)
          | None => (best_match, best_score)
          end
        else (best_match, best_score)
    end.

End Matcher.


(** ** Classification Oracle boundary and consistency corrector:
       [ai_analyze_job_email] *)

Module Oracle.
Import PyStr.

(** Value of the key ['status'] of a decoded answer: JSON null, an integer
    (the error code of an error-shaped answer) or text. *)
Inductive StatusField : Type :=
| StatusNull
| StatusCode (code : Z)
| StatusText (s : string).

(** A decoded JSON object.  Every key may be absent ([None] at the outer
    level); a present key holds a value of the type the prompt asks for,
    with JSON null as the inner [None] where the prompt allows it. *)
Record Payload : Type := {
  p_action : option string;
  p_is_job_related : option bool;
  p_company_extracted : option (option string);
  p_company_match : option (option string);
  p_status : option StatusField;
  p_confidence : option Q;
  p_reasoning : option string;
  p_interview_date : option (option string)
}.

(** What [json.loads] makes of a text: it raises [JSONDecodeError], or
    yields an object, or yields some other JSON value. *)
Inductive JsonText : Type :=
| Unparseable
| ParsesToDict (p : Payload)
| ParsesToOther.

(** [result.choices[0].message.content] *)
Inductive MessageContent : Type :=
| ContentStr (j : JsonText)
| ContentDict (p : Payload)
| ContentOther            (* neither [str] nor [dict] *)
| ContentRaises.          (* the attribute chain raises *)

(** The value returned by [ai_completion], by shape. *)
Inductive Completion : Type :=
| ResultNone
| ResultChoices (c : MessageContent)   (* has a non-empty [choices] *)
| ResultDict (p : Payload)
| ResultStr (j : JsonText)
| ResultOther.

(** One call of the Oracle for one email. *)
Inductive OracleCall : Type :=
| AiDisabled              (* [not USE_AI or not AI_AVAILABLE] *)
| NoClient                (* [ai_create_openai_client()] returned nothing *)
| CallRaised              (* building the request or the call raised *)
| Returned (r : Completion).

(** The dictionary returned by [ai_analyze_job_email], all required keys
    filled in. *)
Record Judgement : Type := {
  is_job_related : bool;
  company_extracted : option string;
  company_match : option string;
  status : option string;
  confidence : Q;
  reasoning : string;
  interview_date : option string
}.

Definition set_is_job_related (b : bool) (j : Judgement) : Judgement :=
  {| is_job_related := b;
     company_extracted := company_extracted j;
     company_match := company_match j;
     status := status j;
     confidence := confidence j;
     reasoning := reasoning j;
     interview_date := interview_date j |}.

Definition set_company_extracted (c : option string) (j : Judgement) : Judgement :=
  {| is_job_related := is_job_related j;
     company_extracted := c;
     company_match := company_match j;
     status := status j;
     confidence := confidence j;
     reasoning := reasoning j;
     interview_date := interview_date j |}.

Definition set_status (s : option string) (j : Judgement) : Judgement :=
  {| is_job_related := is_job_related j;
     company_extracted := company_extracted j;
     company_match := company_match j;
     status := s;
     confidence := confidence j;
     reasoning := reasoning j;
     interview_date := interview_date j |}.

Definition set_confidence (q : Q) (j : Judgement) : Judgement :=
  {| is_job_related := is_job_related j;
     company_extracted := company_extracted j;
     company_match := company_match j;
     status := status j;
     confidence := q;
     reasoning := reasoning j;
     interview_date := interview_date j |}.

(** [result.get('action') == 'error' or result.get('status') == 418] *)
Definition error_shaped (p : Payload) : bool :=
  match p_action p with
  | Some a => String.eqb a "error"
  | None => false
  end
  || match p_status p with
     | Some (StatusCode code) => Z.eqb code 418
     | _ => false
     end.

(** The branches on the shape of [result]: [Some parsed_result], or
    [None] where the function returns [None] at once. *)
Definition parse_result (r : Completion) : option Payload :=
  match r with
  | ResultNone => None
  | ResultChoices (ContentStr (ParsesToDict p)) => Some p
  | ResultChoices (ContentStr Unparseable) => None
  | ResultChoices (ContentStr ParsesToOther) => None
  | ResultChoices (ContentDict p) => Some p
  | ResultChoices ContentOther => None
  | ResultChoices ContentRaises => None
  | ResultDict p =>
      if error_shaped p then None
      else match p_is_job_related p with
           | Some _ => Some p
           | None => None
           end
  | ResultStr (ParsesToDict p) =>
      if error_shaped p then None
      else match p_is_job_related p with
           | Some _ => Some p
           | None => None
           end
  | ResultStr ParsesToOther => None
  | ResultStr Unparseable => None
  | ResultOther => None
  end.

(** Validation and filling of missing optional fields. *)
Definition validate (p : Payload) : option Judgement :=
  if is_text (p_reasoning p) "JSON parsing failed" then None
  else
    match p_is_job_related p, p_status p with
    | Some related, Some st =>
        match st with
        | StatusCode _ => None
        | _ =>
            Some {| is_job_related := related;
                    company_extracted :=
                      match p_company_extracted p with
                      | Some v => v
                      | None => None
                      end;
                    company_match :=
                      match p_company_match p with
                      | Some v => v
                      | None => None
                      end;
                    status :=
                      match st with
                      | StatusText s => Some s
                      | _ => None
                      end;
                    confidence :=
                      match p_confidence p with
                      | Some q => q
                      | None => Qmake 5 10
                      end;
                    reasoning :=
                      match p_reasoning p with
                      | Some r => r
                      | None => "No reasoning provided"
                      end;
                    interview_date :=
                      match p_interview_date p with
                      | Some v => v
                      | None => None
                      end |}
        end
    | _, _ => None
    end.

(** The string ['None'] as extracted company is turned into [None]. *)
Definition drop_none_text (j : Judgement) : Judgement :=
  if is_text (company_extracted j) "None" then set_company_extracted None j else j.

(** Company recovered from the subject or the sender when the Oracle gave
    none. *)
Definition recover_company (subject sender_name : string) (j : Judgement) : Judgement :=
  if negb (truthy (company_extracted j)) then
    if contains " - " subject then
      set_company_extracted (Some (strip (last_part subject 0 EmptyString))) j
    else if contains "applytojob.com" (lower sender_name) then
      if contains "<" sender_name then
        let company := strip (before_lt sender_name) in
        if nonempty company
           && negb (existsb (String.eqb (lower company))
                            ["recruiting"; "noreply"; "no-reply"])
        then set_company_extracted (Some company) j
        else j
      else j
    else j
  else j.

(** The patterns handed to [re.search]: plain phrases, and the one
    pattern of the form [a.*b]. *)
Inductive Pattern : Type :=
| Phrase (s : string)
| ThenOnLine (a b : string).

Definition rejection_phrases : list Pattern :=
  [ Phrase "unable to employ";
    Phrase "unable to sponsor";
    Phrase "cannot sponsor";
    Phrase "unable to transfer";
    Phrase "pursuing other candidates";
    Phrase "not moving forward";
    Phrase "decided to move forward with other";
    ThenOnLine "unfortunately" "unable";
    Phrase "regret to inform";
    Phrase "not selected" ].

(** [.*b] from the start of [s]: [b] begins before the first line feed. *)
Fixpoint later_on_line (b s : string) : bool :=
  prefix b s ||
  match s with
  | EmptyString => false
  | String c r => if Ascii.eqb c (ascii_of_nat 10) then false else later_on_line b r
  end.

Fixpoint search_then (a b s : string) : bool :=
  (prefix a s && later_on_line b (drop (length a) s)) ||
  match s with
  | EmptyString => false
  | String _ r => search_then a b r
  end.

(** [re.search(phrase, text)] as a truth value. *)
Definition search (p : Pattern) (text : string) : bool :=
  match p with
  | Phrase s => contains s text
  | ThenOnLine a b => search_then a b text
  end.

Definition is_rejection (reasoning_lower content_lower : string) : bool :=
  existsb (fun phrase => search phrase reasoning_lower || search phrase content_lower)
          rejection_phrases.

(** The block "Fix misclassifications". *)
Definition fix_rejection (j : Judgement) : Judgement :=
  let j := if negb (is_job_related j) then set_is_job_related true j else j in
  let j := if is_text (status j) "Other" then set_status (Some "Rejected") j else j in
  if Qlt_bool (confidence j) (Qmake 7 10) then set_confidence (Qmake 8 10) j else j.

(** [max(confidence, 0.7)] *)
Definition at_least_07 (q : Q) : Q :=
  if Qlt_bool q (Qmake 7 10) then Qmake 7 10 else q.

(** The block on "thank you for your interest". *)
Definition fix_thank_you (subject content_lower : string) (j : Judgement) : Judgement :=
  if contains "thank you for your interest" content_lower
     || contains "thank you for your interest" (lower subject)
  then
    if negb (is_job_related j)
    then set_confidence (at_least_07 (confidence j)) (set_is_job_related true j)
    else j
  else j.

(** The consistency corrector: lines "Fix inconsistent classifications"
    to the return of the parsed result. *)
Definition correct (subject content : string) (j : Judgement) : Judgement :=
  let reasoning_lower := lower (reasoning j) in
  let content_lower := lower content in
  let j := if is_rejection reasoning_lower content_lower then fix_rejection j else j in
  fix_thank_you subject content_lower j.

Definition ai_analyze_job_email (subject content sender_name : string)
           (call : OracleCall) : option Judgement :=
  match call with
  | AiDisabled => None
  | NoClient => None
  | CallRaised => None
  | Returned result =>
      match parse_result result with
      | None => None
      | Some parsed_result =>
          match validate parsed_result with
          | None => None
          | Some j =>
              Some (correct subject content
                      (recover_company subject sender_name (drop_none_text j)))
          end
      end
  end.

End Oracle.

(** ** Tracking store and reconciler: [scan_for_status_updates] *)

Module Tracker.
Import PyStr Oracle.

(** One row of the applications table, with the columns the scanner
    touches.  [Location] is the cell of the column named ['Location'],
    the one the scanner reads; [Work_Location] is the column the
    application writer fills.  [Date_Applied] is the value
    [pd.to_datetime(..., errors='coerce')] gives for the cell, [None] for
    [NaT]. *)
Record Application : Type := {
  Job_ID : string;
  Title : string;
  Company : string;
  Work_Location : string;
  Location : option string;
  Status : string;
  Date_Applied : option Z;
  Interview_Date : option string;
  Notes : option string
}.

(** The loaded [applications_df]: which optional columns exist, and the
    rows under a [RangeIndex] (the index label of a row is its position). *)
Record DataFrame : Type := {
  has_Title : bool;
  has_Location : bool;
  has_Notes : bool;
  rows : list Application
}.

Definition with_rows (df : DataFrame) (rs : list Application) : DataFrame :=
  {| has_Title := has_Title df;
     has_Location := has_Location df;
     has_Notes := has_Notes df;
     rows := rs |}.

Definition set_Status (s : string) (r : Application) : Application :=
  {| Job_ID := Job_ID r; Title := Title r; Company := Company r;
     Work_Location := Work_Location r; Location := Location r;
     Status := s;
     Date_Applied := Date_Applied r; Interview_Date := Interview_Date r;
     Notes := Notes r |}.

Definition set_Notes (n : option string) (r : Application) : Application :=
  {| Job_ID := Job_ID r; Title := Title r; Company := Company r;
     Work_Location := Work_Location r; Location := Location r;
     Status := Status r;
     Date_Applied := Date_Applied r; Interview_Date := Interview_Date r;
     Notes := n |}.

Definition set_Interview_Date (d : option string) (r : Application) : Application :=
  {| Job_ID := Job_ID r; Title := Title r; Company := Company r;
     Work_Location := Work_Location r; Location := Location r;
     Status := Status r;
     Date_Applied := Date_Applied r; Interview_Date := d;
     Notes := Notes r |}.

(** [applications_df.at[idx, col] = v], through a row transformer. *)
Fixpoint update_at (idx : nat) (f : Application -> Application)
         (rs : list Application) : list Application :=
  match rs, idx with
  | [], _ => []
  | r :: rest, O => f r :: rest
  | r :: rest, S k => r :: update_at k f rest
  end.

(** A selection [applications_df[mask]]: index labels with their rows. *)
Definition Slice : Type := list (nat * Application).

Fixpoint where_from (p : Application -> bool) (rs : list Application) (i : nat) : Slice :=
  match rs with
  | [] => []
  | r :: rest => if p r then (i, r) :: where_from p rest (S i)
                 else where_from p rest (S i)
  end.

Definition select_where (p : Application -> bool) (df : DataFrame) : Slice :=
  where_from p (rows df) 0.

(** [applications_df.loc[[idx]]] *)
Definition loc (df : DataFrame) (idx : nat) : Slice :=
  match nth_error (rows df) idx with
  | Some r => [(idx, r)]
  | None => []
  end.

(** [Series.unique()]: first occurrences, in order of appearance. *)
Fixpoint unique_from (seen : list string) (l : list string) : list string :=
  match l with
  | [] => []
  | x :: rest => if existsb (String.eqb x) seen then unique_from seen rest
                 else x :: unique_from (x :: seen) rest
  end.

Definition unique (l : list string) : list string := unique_from [] l.

Definition companies (df : DataFrame) : list string :=
  unique (map Company (rows df)).

(** [max(words, key=len)]: the first word of greatest length. *)
Fixpoint longest (best : string) (words : list string) : string :=
  match words with
  | [] => best
  | w :: rest => if length best <? length w then longest w rest else longest best rest
  end.

Definition bulk_rejection_phrases : list string :=
  [ "all positions"; "any of our openings"; "all current openings";
    "future opportunities"; "all applications" ].

(** [str(cell)] of a cell that may be NaN. *)
Definition str_cell (c : option string) : string :=
  match c with Some s => s | None => "nan" end.

(** [str(value)] of a value that may be [None]. *)
Definition str_opt (c : option string) : string :=
  match c with Some s => s | None => "None" end.

Definition job_title_of (df : DataFrame) (r : Application) : string :=
  if has_Title df then lower (Title r) else EmptyString.

Definition job_location_of (df : DataFrame) (r : Application) : string :=
  if has_Location df then lower (str_cell (Location r)) else EmptyString.

(** The title test of the disambiguation loop. *)
Definition title_mentioned (job_title email_text : string) : bool :=
  nonempty job_title && (3 <? length job_title)
  && (contains job_title email_text
      || forallb (fun word => contains word email_text) (firstn 3 (split job_title))).

(** The location test of the disambiguation loop. *)
Definition location_mentioned (job_location email_text : string) : bool :=
  nonempty job_location && (3 <? length job_location)
  && contains job_location email_text.

(** The loop "Look for job title mentions": [specific_match_idx].  The
    rows of the selection are those of [applications_df] at the same
    labels, nothing having been written in between. *)
Fixpoint specific_match (df : DataFrame) (matching_apps : Slice) (email_text : string)
  : option nat :=
  match matching_apps with
  | [] => None
  | (idx, r) :: rest =>
      if title_mentioned (job_title_of df r) email_text then Some idx
      else if location_mentioned (job_location_of df r) email_text then Some idx
      else specific_match df rest email_text
  end.

(** [dates.idxmax()]: label of the first greatest date, NaT skipped;
    [best] is the greatest date met so far with its label. *)
Fixpoint idxmax (matching_apps : Slice) (best : option (nat * Z)) : option nat :=
  match matching_apps with
  | [] => match best with Some (i, _) => Some i | None => None end
  | (idx, r) :: rest =>
      match Date_Applied r, best with
      | Some d, Some (_, b) => if Z.ltb b d then idxmax rest (Some (idx, d))
                               else idxmax rest best
      | Some d, None => idxmax rest (Some (idx, d))
      | None, _ => idxmax rest best
      end
  end.

(** The block "Handle multiple applications to same company". *)
Definition select_records (df : DataFrame) (matching_apps : Slice)
           (subject content : string) : Slice :=
  if 1 <? List.length matching_apps then
    let email_text := lower (subject ++ " " ++ content) in
    match specific_match df matching_apps email_text with
    | Some idx => loc df idx
    | None =>
        if existsb (fun phrase => contains phrase email_text) bulk_rejection_phrases
        then matching_apps
        else match idxmax matching_apps None with
             | Some most_recent_idx => loc df most_recent_idx
             | None => match matching_apps with
                       | (first, _) :: _ => loc df first
                       | [] => []
                       end
             end
    end
  else matching_apps.

(** Per-account counters of the scan. *)
Record Counters : Type := {
  processed : nat;
  job_related_count : nat;
  ai_successes : nat;
  ai_failures : nat;
  account_updates : nat
}.

Definition zero_counters : Counters :=
  {| processed := 0; job_related_count := 0; ai_successes := 0;
     ai_failures := 0; account_updates := 0 |}.

Definition incr_processed (c : Counters) : Counters :=
  {| processed := S (processed c); job_related_count := job_related_count c;
     ai_successes := ai_successes c; ai_failures := ai_failures c;
     account_updates := account_updates c |}.

Definition incr_job_related (c : Counters) : Counters :=
  {| processed := processed c; job_related_count := S (job_related_count c);
     ai_successes := ai_successes c; ai_failures := ai_failures c;
     account_updates := account_updates c |}.

Definition incr_successes (c : Counters) : Counters :=
  {| processed := processed c; job_related_count := job_related_count c;
     ai_successes := S (ai_successes c); ai_failures := ai_failures c;
     account_updates := account_updates c |}.

Definition incr_failures (c : Counters) : Counters :=
  {| processed := processed c; job_related_count := job_related_count c;
     ai_successes := ai_successes c; ai_failures := S (ai_failures c);
     account_updates := account_updates c |}.

Definition add_updates (n : nat) (c : Counters) : Counters :=
  {| processed := processed c; job_related_count := job_related_count c;
     ai_successes := ai_successes c; ai_failures := ai_failures c;
     account_updates := n + account_updates c |}.

(** What the scanner decided for one message; this is what it prints. *)
Inductive Outcome : Type :=
| AiNoResult                                (* "AI returned no result" *)
| NotJobRelated                             (* skipped silently *)
| ReasoningContradicts                      (* job-related, reasoning says otherwise *)
| NoUpdate (reasons : list string)          (* "No update: ..." *)
| NoApplications                            (* "No applications found for company" *)
| Handled (selected : list nat) (updated : nat)
| Raised.                                   (* an exception reached the handler *)

(** One extracted message: the values of [get_sender_info],
    [get_email_subject], [get_email_content], and the Oracle's reaction to
    the request built from them. *)
Record Email : Type := {
  sender_name : string;
  sender_email : string;
  subject : string;
  content : string;
  oracle : OracleCall
}.

Section Scan.

(** [re.compile(pat, re.IGNORECASE).search], as used by
    [Series.str.contains(pat, case=False, na=False)]: [None] when the
    pattern does not compile. *)
Variable regex_ci : string -> option (string -> bool).

(** The rendering [f"{x:.2f}"]. *)
Variable fmt2 : Q -> string.

(** The company lookup in front of the update: exact, then
    case-insensitive, then by the longest word of the name.  [None]
    when the pattern of the last step does not compile. *)
Definition find_applications (df : DataFrame) (company_match : string)
  : option Slice :=
  let exact := select_where (fun r => String.eqb (Company r) company_match) df in
  if negb (Nat.eqb (List.length exact) 0) then Some exact
  else
    let nocase :=
      select_where (fun r => String.eqb (lower (Company r)) (lower company_match)) df in
    if negb (Nat.eqb (List.length nocase) 0) then Some nocase
    else
      let company_words := split (lower company_match) in
      let main_word :=
        match company_words with
        | [] => lower company_match
        | w :: rest => longest w rest
        end in
      match regex_ci main_word with
      | None => None
      | Some found =>
          let similar := select_where (fun r => found (Company r)) df in
          if negb (Nat.eqb (List.length similar) 0) then
            let found_companies := unique (map (fun ir => Company (snd ir)) similar) in
            match find (fun found_company =>
                          String.eqb (remove_blanks (lower found_company))
                                     (remove_blanks (lower company_match)))
                       found_companies with
            | Some found_company =>
                Some (select_where (fun r => String.eqb (Company r) found_company) df)
            | None => Some similar
            end
          else Some similar
      end.

(** The "similar companies" hint of the branch without applications;
    only whether it raises matters. *)
Definition no_applications (company_match : string) : Outcome :=
  match split company_match with
  | [] => Raised
  | w :: _ => match regex_ci w with
              | None => Raised
              | Some _ => NoApplications
              end
  end.

(** The company the gate sees: the Oracle's match or, when it gave none
    but extracted a name, the normalized and then the fuzzy match. *)
Definition resolve_company (df : DataFrame) (j : Judgement) : option string :=
  let company_match := company_match j in
  match company_extracted j with
  | Some extracted_company =>
      if negb (truthy company_match) && nonempty extracted_company then
        let extracted_normalized := Matcher.compact (lower extracted_company) in
        let company_match :=
          match find (fun csv_company =>
                        String.eqb extracted_normalized
                                   (Matcher.compact (lower csv_company)))
                     (companies df) with
          | Some csv_company => Some csv_company
          | None => company_match
          end in
        if negb (truthy company_match) then
          match Matcher.fuzzy_company_match extracted_company (companies df) with
          | (fuzzy_match, fuzzy_score) =>
              if truthy fuzzy_match && Qlt_bool Matcher.threshold fuzzy_score
              then fuzzy_match
              else company_match
          end
        else company_match
      else company_match
  | None => company_match
  end.

(** The condition in front of the update. *)
Definition gate (company_match new_status : option string) (status_confidence : Q)
  : bool :=
  truthy company_match && truthy new_status && negb (is_text new_status "Other")
  && Qle_bool Matcher.threshold status_confidence.

(** The list [reasons] of the branch that explains why nothing is
    updated. *)
Definition reasons_for (company_match extracted_company new_status : option string)
           (status_confidence : Q) : list string :=
  (if negb (truthy company_match)
   then ["no company match for '" ++ str_opt extracted_company ++ "'"] else [])
  ++ (if negb (truthy new_status) || is_text new_status "Other"
      then ["unclear status ('" ++ str_opt new_status ++ "')"] else [])
  ++ (if Qlt_bool status_confidence Matcher.threshold
      then ["low confidence (" ++ fmt2 status_confidence ++ ")"] else []).

(** The audit line written to ['Notes']. *)
Definition new_note (now subject current_status new_status : string)
           (status_confidence : Q) (multi_app_note : string) : string :=
  let email_snippet :=
    take 50 subject ++ (if 50 <? length subject then "..." else EmptyString) in
  "[" ++ now ++ "] AI updated: '" ++ current_status ++ "' " ++ arrow ++ " '"
      ++ new_status ++ "' | Email: " ++ quote ++ email_snippet ++ quote
      ++ " | Confidence: " ++ fmt2 status_confidence ++ multi_app_note.

(** Body of the loop "Now process the selected applications" for the
    row labelled [app_idx]; the boolean tells whether the row was
    updated.  [selected] is [len(matching_apps.index)]. *)
Definition apply_one (now subject company_match new_status : string)
           (status_confidence : Q) (interview : option string) (selected : nat)
           (df : DataFrame) (app_idx : nat) : DataFrame * bool :=
  match nth_error (rows df) app_idx with
  | None => (df, false)
  | Some r =>
      let current_status := Status r in
      if negb (String.eqb new_status current_status) then
        let rs := update_at app_idx (set_Status new_status) (rows df) in
        (* the ['Notes'] column is created, empty, when it is missing *)
        let rs := if has_Notes df then rs
                  else map (set_Notes (Some EmptyString)) rs in
        let total :=
          List.length (select_where (fun a => String.eqb (Company a) company_match) df) in
        let multi_app_note :=
          if selected <? total
          then " | Note: " ++ decimal total
               ++ " total applications to this company, updated only this one"
          else EmptyString in
        let note := new_note now subject current_status new_status
                             status_confidence multi_app_note in
        let current_notes := if has_Notes df then Notes r else Some EmptyString in
        let notes' :=
          match current_notes with
          | None => note
          | Some EmptyString => note
          | Some old => old ++ newline ++ note
          end in
        let rs := update_at app_idx (set_Notes (Some notes')) rs in
        let rs := if truthy interview
                  then update_at app_idx (set_Interview_Date interview) rs
                  else rs in
        ({| has_Title := has_Title df; has_Location := has_Location df;
            has_Notes := true; rows := rs |}, true)
      else (df, false)
  end.

(** The loop over [matching_apps.index]; returns the number of rows
    updated. *)
Fixpoint apply_all (now subject company_match new_status : string)
         (status_confidence : Q) (interview : option string) (selected : nat)
         (df : DataFrame) (idxs : list nat) : DataFrame * nat :=
  match idxs with
  | [] => (df, 0)
  | app_idx :: rest =>
      let '(df1, changed) :=
        apply_one now subject company_match new_status status_confidence
                  interview selected df app_idx in
      let '(df2, n) :=
        apply_all now subject company_match new_status status_confidence
                  interview selected df1 rest in
      (df2, (if changed then 1 else 0) + n)
  end.

(** The part of the loop body that follows the classification of a
    job-related message: resolve the company, pass the gate, find and
    select the records, update them. *)
Definition reconcile (now : string) (df : DataFrame) (e : Email) (j : Judgement)
  : DataFrame * nat * Outcome :=
  let company_match := resolve_company df j in
  let extracted_company := company_extracted j in
  let new_status := status j in
  let status_confidence := confidence j in
  let no_update :=
    (df, 0, NoUpdate (reasons_for company_match extracted_company
                                  new_status status_confidence)) in
  match company_match, new_status with
  | Some cm, Some ns =>
      if gate company_match new_status status_confidence then
        match find_applications df cm with
        | None => (df, 0, Raised)
        | Some matching_apps =>
            if negb (Nat.eqb (List.length matching_apps) 0) then
              let selected :=
                select_records df matching_apps (subject e) (content e) in
              let idxs := map fst selected in
              let '(df', n) :=
                apply_all now (subject e) cm ns status_confidence
                          (interview_date j) (List.length idxs) df idxs in
              (df', n, Handled idxs n)
            else (df, 0, no_applications cm)
        end
      else no_update
  | _, _ => no_update          (* the gate is closed by a [None] *)
  end.

(** The body of the message loop from "Increment processed counter"
    on, for a message that was fetched and decoded. *)
Definition process_message (now : string) (df : DataFrame) (c : Counters) (e : Email)
  : DataFrame * Counters * Outcome :=
  let c := incr_processed c in
  match ai_analyze_job_email (subject e) (content e) (sender_name e) (oracle e) with
  | None => (df, incr_failures c, AiNoResult)
  | Some ai_result =>
      let c := incr_successes c in
      if negb (is_job_related ai_result) then (df, c, NotJobRelated)
      else if contains "unrelated to any job application" (lower (reasoning ai_result))
              && is_job_related ai_result
      then (df, c, ReasoningContradicts)
      else
        let c := incr_job_related c in
        let '(df', n, out) := reconcile now df e ai_result in
        (df', add_updates n c, out)
  end.

(** What one fetch of the message loop brings. *)
Inductive Fetch : Type :=
| FetchNotOK                                  (* [status != 'OK'] *)
| FetchAborted (connection_lost reconnected : bool)   (* [imaplib.IMAP4.abort] *)
| FetchRaised                                 (* another exception *)
| Fetched (now : string) (e : Email).         (* decoded, with the clock reading *)

(** The message loop of one account, over the fetches in the order the
    loop makes them. *)
Fixpoint scan_messages (df : DataFrame) (c : Counters) (inbox : list Fetch)
  : DataFrame * Counters :=
  match inbox with
  | [] => (df, c)
  | FetchNotOK :: rest => scan_messages df (incr_processed c) rest
  | FetchAborted connection_lost reconnected :: rest =>
      if connection_lost && reconnected
      then scan_messages df (incr_processed c) rest
      else (df, incr_processed c)
  | FetchRaised :: rest => scan_messages df (incr_processed c) rest
  | Fetched now e :: rest =>
      match process_message now df c e with
      | (df', c', Raised) => scan_messages df' (incr_processed c') rest
      | (df', c', _) => scan_messages df' c' rest
      end
  end.

(** One configured mail account. *)
Inductive Account : Type :=
| ConnectRaises                   (* connecting or logging in raised *)
| SearchNotOK                     (* [status != 'OK'] after the search *)
| Inbox (messages : list Fetch).

(** State of the loop over the accounts: the frame in memory, the
    contents last written to the CSV file, and the running totals. *)
Record Run : Type := {
  applications_df : DataFrame;
  csv_file : DataFrame;
  total_updates : nat;
  accounts_scanned : nat
}.

Definition scan_account (run : Run) (a : Account) : Run :=
  match a with
  | ConnectRaises => run
  | SearchNotOK => run
  | Inbox messages =>
      let '(df, c) := scan_messages (applications_df run) zero_counters messages in
      if 0 <? account_updates c then
        {| applications_df := df; csv_file := df;
           total_updates := total_updates run + account_updates c;
           accounts_scanned := S (accounts_scanned run) |}
      else
        {| applications_df := df; csv_file := csv_file run;
           total_updates := total_updates run;
           accounts_scanned := S (accounts_scanned run) |}
  end.

(** [scan_for_status_updates], from the frame loaded from the CSV file. *)
Definition scan_for_status_updates (loaded : DataFrame) (accounts : list Account)
  : Run :=
  fold_left scan_account accounts
            {| applications_df := loaded; csv_file := loaded;
               total_updates := 0; accounts_scanned := 0 |}.

End Scan.

(** ** The head of [scan_for_status_updates]: loading the table *)

Section Load.

(** [pd.read_csv] on one column of the file, from the cells as [to_csv]
    wrote them: for every cell [None] when it is read as missing (NaN),
    otherwise the text of the value read.  What a cell is read as depends
    on the whole column, whose type pandas infers. *)
Variable read_column : list string -> list (option string).

(** What [to_csv] writes for a cell: nothing for a missing one. *)
Definition written (c : option string) : string :=
  match c with Some s => s | None => EmptyString end.

(** [.fillna('').astype(str)] *)
Definition fillna_str (c : option string) : string :=
  match c with Some s => s | None => EmptyString end.

(** The cell of row [i] in a column that was read. *)
Definition cell_at (column : list (option string)) (i : nat) : option string :=
  nth i column None.

(** [applications_df = pd.read_csv(APPLIED_JOBS_CSV)] on the file the
    scan wrote, followed by [fillna('').astype(str)] on the columns
    ['Company'], ['Title'], ['Work Location'] and ['Status'].  The other
    columns stay as they are read: a missing job id prints as "nan";
    [Date_Applied] holds the date as [pd.to_datetime] parses the cell,
    which the scan never writes.  A file written by the scan has a
    ['Status'] column; ['Interview Date'] is created empty when it is
    missing, which is how an empty column is read. *)
Definition load_applications (file : DataFrame) : DataFrame :=
  let rs := rows file in
  let job_id := read_column (map Job_ID rs) in
  let title := read_column (map Title rs) in
  let company := read_column (map Company rs) in
  let work_location := read_column (map Work_Location rs) in
  let location := read_column (map (fun r => written (Location r)) rs) in
  let status := read_column (map Status rs) in
  let interview_date := read_column (map (fun r => written (Interview_Date r)) rs) in
  let notes := read_column (map (fun r => written (Notes r)) rs) in
  {| has_Title := has_Title file;
     has_Location := has_Location file;
     has_Notes := has_Notes file;
     rows :=
       map (fun ir =>
              let i := fst ir in
              let r := snd ir in
              {| Job_ID := match cell_at job_id i with Some s => s | None => "nan" end;
                 Title := if has_Title file then fillna_str (cell_at title i)
                          else Title r;
                 Company := fillna_str (cell_at company i);
                 Work_Location := fillna_str (cell_at work_location i);
                 Location := if has_Location file then cell_at location i
                             else Location r;
                 Status := fillna_str (cell_at status i);
                 Date_Applied := Date_Applied r;
                 Interview_Date := cell_at interview_date i;
                 Notes := if has_Notes file then cell_at notes i else Notes r |})
           (combine (seq 0 (List.length rs)) rs) |}.

End Load.

End Tracker.

(** ** Direct status update: [status_manager.update_application_status] *)

Module StatusManager.
Import PyStr Tracker.

(** "Valid application statuses" *)
Definition APPLICATION_STATUSES : list string :=
  [ "Applied"; "Assessment"; "Follow-up Required"; "Interview Scheduled";
    "Interviewed"; "Rejected"; "Offered"; "Accepted"; "Declined" ].

Definition valid_status (s : string) : bool :=
  existsb (String.eqb s) APPLICATION_STATUSES.

(** [update_application_status(job_id, new_status, notes)] on the frame
    read from the CSV file; returns the frame written back and the
    boolean result. *)
Definition update_application_status (now : string) (df : DataFrame)
           (job_id new_status : string) (notes : option string) : DataFrame * bool :=
  if negb (valid_status new_status) then (df, false)
  else
    match select_where (fun r => String.eqb (Job_ID r) job_id) df with
    | [] => (df, false)
    | (job_idx, r) :: _ =>
        let rs := update_at job_idx (set_Status new_status) (rows df) in
        let rs :=
          if truthy notes && has_Notes df then
            let new_note := "[" ++ now ++ "] Status changed to '" ++ new_status
                                ++ "': " ++ str_opt notes in
            match Notes r with
            | None => update_at job_idx (set_Notes (Some new_note)) rs
            | Some current_notes =>
                update_at job_idx
                          (set_Notes (Some (current_notes ++ newline ++ new_note))) rs
            end
          else rs in
        (with_rows df rs, true)
    end.

(** The type [pd.read_csv] infers for the ['Job ID'] column: [int64]
    when every cell is an integer, [object] (text) otherwise.  The cells
    of an integer column are held as their decimal text. *)
Inductive Dtype : Type := Int64 | Object.

(** The value passed as [job_id]. *)
Inductive JobId : Type :=
| IdText (s : string)
| IdInt (n : Z).

(** [str(n)] *)
Definition int_text (n : Z) : string := NilZero.string_of_int (Z.to_int n).

(** One cell of [df['Job ID'] == job_id]: text equals text, an integer
    equals an integer, and values of the two kinds are never equal. *)
Definition job_id_equals (dt : Dtype) (cell : string) (job_id : JobId) : bool :=
  match dt, job_id with
  | Object, IdText s => String.eqb cell s
  | Int64, IdInt n => String.eqb cell (int_text n)
  | _, _ => false
  end.

(** [update_application_status(job_id, new_status, notes)] with the
    types as they are at run time: where the two kinds meet, no row
    compares equal and the update is refused ("Job ID not found"). *)
Definition update_application_status_typed (now : string) (dt : Dtype) (df : DataFrame)
           (job_id : JobId) (new_status : string) (notes : option string)
  : DataFrame * bool :=
  match dt, job_id with
  | Object, IdText s => update_application_status now df s new_status notes
  | Int64, IdInt n => update_application_status now df (int_text n) new_status notes
  | _, _ => (df, false)
  end.

(** [app_tracker.update_application(args)]: [argparse] hands the job id
    over as text; the result is the boolean that decides the message
    printed. *)
Definition update_application (now : string) (dt : Dtype) (df : DataFrame)
           (job_id status : string) (notes : option string) : DataFrame * bool :=
  update_application_status_typed now dt df (IdText job_id) status notes.

End StatusManager.

(** ** Sample instances of the two external functions *)

Module Samples.
Import PyStr.

(** A case-insensitive search for patterns without regex
    metacharacters, where searching the pattern is searching the text. *)
Definition literal_ci (pat : string) : option (string -> bool) :=
  Some (fun s => contains (lower pat) (lower s)).

(** Two decimals of a rational between 0 and 1, rounded to nearest. *)
Definition two_decimals (q : Q) : string :=
  let h := Z.to_nat ((2 * 100 * Qnum q + Zpos (Qden q)) / (2 * Zpos (Qden q))) in
  decimal (h / 100) ++ "." ++ decimal ((h mod 100) / 10) ++ decimal (h mod 10).

(** A judgement that calls the email an unrelated newsletter. *)
Definition newsletter : Oracle.Judgement :=
  {| Oracle.is_job_related := false;
     Oracle.company_extracted := None;
     Oracle.company_match := None;
     Oracle.status := Some "Other";
     Oracle.confidence := Qmake 3 10;
     Oracle.reasoning := "general newsletter";
     Oracle.interview_date := None |}.

Definition application (job_id title company work_location status : string)
           (date_applied : option Z) : Tracker.Application :=
  {| Tracker.Job_ID := job_id; Tracker.Title := title; Tracker.Company := company;
     Tracker.Work_Location := work_location; Tracker.Location := None;
     Tracker.Status := status; Tracker.Date_Applied := date_applied;
     Tracker.Interview_Date := None; Tracker.Notes := None |}.

(** A frame as the application writer produces it: with the columns
    ['Title'] and ['Notes'], without a column named ['Location']. *)
Definition frame (rs : list Tracker.Application) : Tracker.DataFrame :=
  {| Tracker.has_Title := true; Tracker.has_Location := false;
     Tracker.has_Notes := true; Tracker.rows := rs |}.

(** The Oracle's answer as a JSON text with the given fields. *)
Definition answer (related : bool) (company : option string) (status : string)
           (confidence : Q) : Oracle.OracleCall :=
  Oracle.Returned
    (Oracle.ResultChoices
       (Oracle.ContentStr
          (Oracle.ParsesToDict
             {| Oracle.p_action := None;
                Oracle.p_is_job_related := Some related;
                Oracle.p_company_extracted := Some company;
                Oracle.p_company_match := Some company;
                Oracle.p_status := Some (Oracle.StatusText status);
                Oracle.p_confidence := Some confidence;
                Oracle.p_reasoning := Some "the employer answers an application";
                Oracle.p_interview_date := None |}))).

(** An error-shaped answer of the provider. *)
Definition error_reply : Oracle.OracleCall :=
  Oracle.Returned
    (Oracle.ResultDict
       {| Oracle.p_action := Some "error";
          Oracle.p_is_job_related := None;
          Oracle.p_company_extracted := None;
          Oracle.p_company_match := None;
          Oracle.p_status := Some (Oracle.StatusCode 418);
          Oracle.p_confidence := None;
          Oracle.p_reasoning := None;
          Oracle.p_interview_date := None |}).

Definition email (subject content : string) (call : Oracle.OracleCall) : Tracker.Email :=
  {| Tracker.sender_name := "Acme Careers";
     Tracker.sender_email := "careers@acme.example";
     Tracker.subject := subject;
     Tracker.content := content;
     Tracker.oracle := call |}.

(** One application to Acme, and two of them. *)
Definition one_application : Tracker.DataFrame :=
  frame [application "101" "Data Engineer" "Acme" "Austin, TX" "Applied" (Some 20240301%Z)].

Definition two_applications : Tracker.DataFrame :=
  frame [application "100" "QA" "Acme" "Austin, TX" "Applied" (Some 20240105%Z);
         application "101" "Data Engineer" "Acme" "Denver, CO" "Applied" (Some 20240301%Z)].


Definition clock : string := "2025-06-01 09:30".
Definition later : string := "2025-06-02 18:00".

(** A mailbox with a rejection and an invitation from the same company. *)
Definition two_verdicts : list Tracker.Fetch :=
  [ Tracker.Fetched clock
      (email "application update" "unfortunately we chose another candidate"
             (answer true (Some "Acme") "Rejected" (Qmake 9 10)));
    Tracker.Fetched clock
      (email "interview" "we would like to meet you"
             (answer true (Some "Acme") "Interview Scheduled" (Qmake 9 10))) ].

(** The tokens [read_csv] takes for a missing value by default. *)
Definition na_values : list string :=
  [ EmptyString; "#N/A"; "#N/A N/A"; "#NA"; "-1.#IND"; "-1.#QNAN"; "-NaN"; "-nan";
    "1.#IND"; "1.#QNAN"; "<NA>"; "N/A"; "NA"; "NULL"; "NaN"; "None"; "n/a"; "nan";
    "null" ].

(** A column read as text, or as integers written in plain decimal: every
    cell comes back as written, the missing-value tokens apart. *)
Definition read_text_column (cells : list string) : list (option string) :=
  map (fun s => if existsb (String.eqb s) na_values then None else Some s) cells.

(** A mailbox with one message whose status passes the gate and is a
    missing-value token. *)
Definition not_available : list Tracker.Fetch :=
  [ Tracker.Fetched clock
      (email "application update" "your application is being reviewed"
             (answer true (Some "Acme") "N/A" (Qmake 9 10))) ].

End Samples.

(** ** Vocabulary of the statements on the matcher *)

Module MatcherSpec.
Import PyStr Matcher.

(** The candidate and the known company have a non-empty variant in
    common. *)
Definition shares_variant (email_company csv_company : string) : Prop :=
  exists v, v <> EmptyString
            /\ In v (normalize_company email_company)
            /\ In v (normalize_company csv_company).

(** Two non-empty strings one of which is a substring of the other. *)
Definition linked (a b : string) : Prop :=
  a <> EmptyString /\ b <> EmptyString
  /\ (contains a b = true \/ contains b a = true).

(** [ev] and [cv] are variants of the candidate and of the known company
    [c], one inside the other. *)
Definition linked_variants (email_company c ev cv : string) : Prop :=
  In ev (normalize_company email_company) /\ In cv (normalize_company c)
  /\ linked ev cv.

(** The two names are equal once everything but letters and digits is
    removed, and more than two characters remain. *)
Definition same_letters (email_company c : string) : Prop :=
  letters email_company = letters c /\ 2 < length (letters email_company).

Definition exact_pair (p : string * string) : bool :=
  nonempty (fst p) && nonempty (snd p) && String.eqb (fst p) (snd p).

(** The pairs visited by the loops over the companies, each with its
    company. *)
Definition all_pairs (email_normalized : list string) (cs : list string)
  : list (string * (string * string)) :=
  flat_map (fun c => map (pair c) (variant_pairs email_normalized c)) cs.

(** What the running state of the loops records about the pairs seen so
    far. *)
Definition best_so_far (seen : list (string * (string * string)))
           (best_match : option string) (best_score : Q) : Prop :=
  match best_match with
  | None =>
      best_score = zero_score
      /\ forall c ev cv, In (c, (ev, cv)) seen -> linked ev cv ->
                         ~ (threshold < score ev cv)%Q
  | Some c =>
      exists ev cv,
        In (c, (ev, cv)) seen /\ linked ev cv /\ best_score = score ev cv
        /\ (threshold < best_score)%Q
        /\ forall c' ev' cv', In (c', (ev', cv')) seen -> linked ev' cv' ->
                              (score ev' cv' <= best_score)%Q
  end.

End MatcherSpec.

(** ** Vocabulary of the statements on the Oracle boundary *)

Module OracleSpec.
Import PyStr Oracle.

(** The nine plain phrases among the rejection patterns. *)
Definition strong_rejection_phrases : list string :=
  [ "unable to employ"; "unable to sponsor"; "cannot sponsor";
    "unable to transfer"; "pursuing other candidates"; "not moving forward";
    "decided to move forward with other"; "regret to inform"; "not selected" ].

(** The results of a call that [ai_analyze_job_email] takes for a
    failure: no response at all, a response that is not a JSON object with
    the expected keys, or an error-shaped response.  The answers that the
    free-mode transport makes up on an outage are not among them. *)
Inductive recognized_failure : OracleCall -> Prop :=
(* no response *)
| fails_disabled : recognized_failure AiDisabled
| fails_no_client : recognized_failure NoClient
| fails_call_raised : recognized_failure CallRaised
| fails_none : recognized_failure (Returned ResultNone)
(* malformed or unparseable response *)
| fails_other_type : recognized_failure (Returned ResultOther)
| fails_text_unparseable : recognized_failure (Returned (ResultStr Unparseable))
| fails_text_not_object : recognized_failure (Returned (ResultStr ParsesToOther))
| fails_content_unparseable :
    recognized_failure (Returned (ResultChoices (ContentStr Unparseable)))
| fails_content_not_object :
    recognized_failure (Returned (ResultChoices (ContentStr ParsesToOther)))
| fails_content_other : recognized_failure (Returned (ResultChoices ContentOther))
| fails_content_raises : recognized_failure (Returned (ResultChoices ContentRaises))
| fails_dict_incomplete p :
    p_is_job_related p = None \/ p_status p = None ->
    recognized_failure (Returned (ResultDict p))
| fails_text_incomplete p :
    p_is_job_related p = None \/ p_status p = None ->
    recognized_failure (Returned (ResultStr (ParsesToDict p)))
| fails_content_incomplete p :
    p_is_job_related p = None \/ p_status p = None ->
    recognized_failure (Returned (ResultChoices (ContentStr (ParsesToDict p))))
| fails_content_dict_incomplete p :
    p_is_job_related p = None \/ p_status p = None ->
    recognized_failure (Returned (ResultChoices (ContentDict p)))
(* error-shaped response *)
| fails_dict_error p :
    error_shaped p = true -> recognized_failure (Returned (ResultDict p))
| fails_text_error p :
    error_shaped p = true -> recognized_failure (Returned (ResultStr (ParsesToDict p)))
| fails_content_error_code p code :
    p_status p = Some (StatusCode code) ->
    recognized_failure (Returned (ResultChoices (ContentStr (ParsesToDict p))))
| fails_content_dict_error_code p code :
    p_status p = Some (StatusCode code) ->
    recognized_failure (Returned (ResultChoices (ContentDict p))).

End OracleSpec.

(** ** Vocabulary of the statements on the reconciler *)

Module TrackerSpec.
Import PyStr Oracle Tracker.

(** A value that is neither null nor the empty string. *)
Definition present (o : option string) : Prop :=
  exists s, o = Some s /\ s <> EmptyString.

(** A status that is present and is not "Other". *)
Definition real_status (o : option string) : Prop :=
  exists s, o = Some s /\ s <> EmptyString /\ s <> "Other".

(** The scanner takes the email for job-related, with judgement [j]: the
    Oracle answered, the corrected answer says job-related, and its
    reasoning does not say the contrary. *)
Definition job_related (e : Email) (j : Judgement) : Prop :=
  ai_analyze_job_email (subject e) (content e) (sender_name e) (oracle e) = Some j
  /\ is_job_related j = true
  /\ contains "unrelated to any job application" (lower (reasoning j)) = false.

(** Counters after the classification of a job-related email. *)
Definition counted_job_related (c : Counters) : Counters :=
  incr_job_related (incr_successes (incr_processed c)).

(** Every entry of the selection is the row of the frame under its label. *)
Definition slice_of (df : DataFrame) (s : Slice) : Prop :=
  forall i r, In (i, r) s -> nth_error (rows df) i = Some r.




(** The text the selector searches. *)
Definition email_text (subject content : string) : string :=
  lower (subject ++ " " ++ content).






(** What an email makes the scanner attempt, before any cell is written:
    [None] when the message does not reach the update loop, else the
    judgement, the matched company, the new status and the labels of the
    selected records. *)
Definition decision (regex_ci : string -> option (string -> bool))
           (df : DataFrame) (e : Email)
  : option (Judgement * string * string * list nat) :=
  match ai_analyze_job_email (subject e) (content e) (sender_name e) (oracle e) with
  | None => None
  | Some j =>
      if is_job_related j
         && negb (contains "unrelated to any job application" (lower (reasoning j)))
      then
        match resolve_company df j, status j with
        | Some cm, Some ns =>
            if gate (Some cm) (Some ns) (confidence j) then
              match find_applications regex_ci df cm with
              | Some matching_apps =>
                  if negb (Nat.eqb (List.length matching_apps) 0)
                  then Some (j, cm, ns,
                             map fst (select_records df matching_apps
                                                     (subject e) (content e)))
                  else None
              | None => None
              end
            else None
        | _, _ => None
        end
      else None
  end.

(** The records an email is aimed at, with the status it gives them. *)
Definition Target : Type := (list nat * string)%type.

Definition target (regex_ci : string -> option (string -> bool))
           (df : DataFrame) (e : Email) : option Target :=
  match decision regex_ci df e with
  | Some (_, _, ns, idxs) => Some (idxs, ns)
  | None => None
  end.

(** The targets of the messages the loop of one account gets to, in
    order; the loop stops at an abort it cannot recover from. *)
Fixpoint handled_targets (regex_ci : string -> option (string -> bool))
         (df : DataFrame) (inbox : list Fetch) : list Target :=
  match inbox with
  | [] => []
  | FetchNotOK :: rest => handled_targets regex_ci df rest
  | FetchAborted connection_lost reconnected :: rest =>
      if connection_lost && reconnected then handled_targets regex_ci df rest else []
  | FetchRaised :: rest => handled_targets regex_ci df rest
  | Fetched _ e :: rest =>
      match target regex_ci df e with
      | Some t => t :: handled_targets regex_ci df rest
      | None => handled_targets regex_ci df rest
      end
  end.

(** The targets of a whole run over the accounts. *)
Definition run_targets (regex_ci : string -> option (string -> bool))
           (df : DataFrame) (accounts : list Account) : list Target :=
  flat_map (fun a => match a with
                     | Inbox messages => handled_targets regex_ci df messages
                     | _ => []
                     end) accounts.

(** Two targets never give one record two different statuses. *)
Definition agree (t1 t2 : Target) : Prop :=
  forall i, In i (fst t1) -> In i (fst t2) -> snd t1 = snd t2.

Definition consistent (ts : list Target) : Prop :=
  forall t1 t2, In t1 ts -> In t2 ts -> agree t1 t2.

(** The same fetch, the clock reading apart. *)
Definition same_fetch (f1 f2 : Fetch) : Prop :=
  match f1, f2 with
  | Fetched _ e1, Fetched _ e2 => e1 = e2
  | Fetched _ _, _ => False
  | _, Fetched _ _ => False
  | _, _ => f1 = f2
  end.

(** The same mailboxes, read at another time. *)
Definition same_account (a1 a2 : Account) : Prop :=
  match a1, a2 with
  | Inbox m1, Inbox m2 => Forall2 same_fetch m1 m2
  | Inbox _, _ => False
  | _, Inbox _ => False
  | _, _ => a1 = a2
  end.

(** The status of the record labelled [i], if there is one. *)
Definition status_at (df : DataFrame) (i : nat) : option string :=
  match nth_error (rows df) i with
  | Some r => Some (Status r)
  | None => None
  end.

(** Every record of the target has the target's status. *)
Definition settled (df : DataFrame) (t : Target) : Prop :=
  forall i s, In i (fst t) -> status_at df i = Some s -> s = snd t.

(** A row without the three cells the scanner writes. *)
Definition erase (r : Application) : Application :=
  set_Status EmptyString (set_Notes None (set_Interview_Date None r)).

Definition erase_entry (ir : nat * Application) : nat * Application :=
  (fst ir, erase (snd ir)).

(** A frame without the three columns the scanner writes. *)
Definition erase_df (df : DataFrame) : DataFrame :=
  {| has_Title := has_Title df; has_Location := has_Location df;
     has_Notes := false; rows := map erase (rows df) |}.

(** The two frames differ at most in status, notes and interview date. *)
Definition same_view (df1 df2 : DataFrame) : Prop := erase_df df1 = erase_df df2.

(** What holds of the run after each account of a first pass: the frame
    still selects as the loaded one, the file holds the frame, and the
    targets dealt with are settled. *)
Definition run_invariant (df0 : DataFrame) (done : list Target) (run : Run) : Prop :=
  same_view (applications_df run) df0
  /\ csv_file run = applications_df run
  /\ Forall (settled (applications_df run)) done.

(** Every record holds one of the nine statuses. *)
Definition all_valid (df : DataFrame) : Prop :=
  Forall (fun r => StatusManager.valid_status (Status r) = true) (rows df).

(** The file [f] is read back as it was written, the notes and the
    interview dates apart: the loader finds the statuses and every cell
    the scan reads as they are in [f]. *)
Definition reads_back (read_column : list string -> list (option string))
           (f : DataFrame) : Prop :=
  same_view (load_applications read_column f) f
  /\ map Status (rows (load_applications read_column f)) = map Status (rows f).

End TrackerSpec.

(** ** Text normalizer: [clean_text] *)

Module Normalizer.
Import PyStr.

(** [re.sub(r'\s+', ' ', text)]: every maximal run of whitespace becomes
    one space; [in_run] tells that the previous character was whitespace. *)
Fixpoint collapse (in_run : bool) (text : string) : string :=
  match text with
  | EmptyString => EmptyString
  | String c r =>
      if is_space c
      then if in_run then collapse true r else String " "%char (collapse true r)
      else String c (collapse false r)
  end.

Fixpoint has_gt (text : string) : bool :=
  match text with
  | EmptyString => false
  | String c r => Ascii.eqb c ">"%char || has_gt r
  end.

(** [re.sub(r'<[^>]+>', ' ', text)]: a ['<'] followed by at least one
    character other than ['>'] and, later, by a ['>'] starts a tag, which
    runs to the first ['>'] and is replaced by one space; [inside] tells
    that a tag is being passed over. *)
Fixpoint remove_tags (inside : bool) (text : string) : string :=
  match text with
  | EmptyString => EmptyString
  | String c r =>
      if inside then
        if Ascii.eqb c ">"%char then remove_tags false r else remove_tags true r
      else if Ascii.eqb c "<"%char then
        match r with
        | String d r' =>
            if negb (Ascii.eqb d ">"%char) && has_gt r'
            then String " "%char (remove_tags true r)
            else String c (remove_tags false r)
        | EmptyString => String c EmptyString
        end
      else String c (remove_tags false r)
  end.

(** [clean_text(text)] for a [str]. *)
Definition clean_text (text : string) : string :=
  remove_tags false (collapse false (strip (lower text))).

(** Every character of [text] satisfies [p]. *)
Fixpoint all_chars (p : ascii -> bool) (text : string) : bool :=
  match text with
  | EmptyString => true
  | String c r => p c && all_chars p r
  end.

(** A character [clean_text] can leave behind: no capital letter, and no
    whitespace other than the plain space. *)
Definition clean_char (c : ascii) : bool :=
  negb (is_upper c) && (negb (is_space c) || Ascii.eqb c " "%char).

End Normalizer.

(** ** Free-mode transport of the Oracle: [ai_completion] and
       [free_ai_completion] of [modules/ai/openaiConnections.py], as called
       by the scanner with [response_format={"type": "json_object"}] *)

Module Transport.
Import PyStr Oracle.

(** The dictionary the transport returns in place of an answer, with its
    [reasoning]; it has no key ['company_extracted']. *)
Definition fallback (reasoning : string) : Payload :=
  {| p_action := None;
     p_is_job_related := Some false;
     p_company_extracted := None;
     p_company_match := Some None;
     p_status := Some (StatusText "Other");
     p_confidence := Some (Qmake 0 1);
     p_reasoning := Some reasoning;
     p_interview_date := None |}.

(** What [extract_json_from_text] makes of the text of a model: a JSON
    object, a JSON string (with what [json.loads] would make of that
    string in turn), another JSON value, or nothing parsable. *)
Inductive Extracted : Type :=
| GotDict (p : Payload)
| GotText (j : JsonText)
| GotOther
| NotJson.

(** How the attempts of [free_ai_completion] end: some model answered, or
    every attempt failed or timed out. *)
Inductive Attempts : Type :=
| Answered (x : Extracted)
| AllFailed.

(** The value [free_ai_completion] returns. *)
Inductive FreeResult : Type :=
| FreeDict (p : Payload)
| FreeText (j : JsonText)
| FreeOther.

Definition extract_json_from_text (x : Extracted) : FreeResult :=
  match x with
  | GotDict p => FreeDict p
  | GotText j => FreeText j
  | GotOther => FreeOther
  | NotJson => FreeDict (fallback "JSON parsing failed")
  end.

Definition free_ai_completion (a : Attempts) : FreeResult :=
  match a with
  | Answered x => extract_json_from_text x
  | AllFailed => FreeDict (fallback "All AI services unavailable or timed out")
  end.

(** [MockChatCompletion(json.dumps(result) if isinstance(result, dict)
    else result)]; a dictionary of null, booleans, numbers and strings is
    read back by [json.loads] as it was written. *)
Definition mock_completion (r : FreeResult) : Completion :=
  match r with
  | FreeDict p => ResultChoices (ContentStr (ParsesToDict p))
  | FreeText j => ResultChoices (ContentStr j)
  | FreeOther => ResultChoices ContentOther
  end.

(** [ai_completion] in free mode: the result of [free_ai_completion]
    wrapped, or the timeout fallback when a [TimeoutError] reaches it. *)
Definition ai_completion_free (timed_out : bool) (a : Attempts) : Completion :=
  if timed_out then mock_completion (FreeDict (fallback "Request timed out"))
  else mock_completion (free_ai_completion a).

End Transport.

(** ** Queries of the status manager: [get_applications_by_status] and
       [generate_application_stats], on a table whose ['Status'] column
       has been filled by [ensure_status_column] *)

Module Statistics.
Import PyStr Tracker StatusManager.

(** [df[df['Status'] == status]], the empty frame for a status outside
    [APPLICATION_STATUSES]. *)
Definition get_applications_by_status (df : DataFrame) (status : string) : Slice :=
  if negb (valid_status status) then []
  else select_where (fun r => String.eqb (Status r) status) df.

(** [stats['statuses'].get(status, 0)] of [value_counts().to_dict()]. *)
Definition status_count (df : DataFrame) (status : string) : nat :=
  List.length (filter (fun r => String.eqb (Status r) status) (rows df)).

(** The sum called [interviews]. *)
Definition interviews (df : DataFrame) : nat :=
  status_count df "Interview Scheduled" + status_count df "Interviewed"
  + status_count df "Offered" + status_count df "Accepted"
  + status_count df "Declined".

(** [stats['response_rate']]: [(interviews / total) * 100], and 0 for an
    empty table. *)
Definition response_rate (df : DataFrame) : Q :=
  let total := List.length (rows df) in
  if 0 <? total
  then Qmult (Qmake (Z.of_nat (interviews df)) (Pos.of_nat total)) (Qmake 100 1)
  else Qmake 0 1.

(** 1 for [True], 0 for [False], as Python counts booleans. *)
Definition b2n (b : bool) : nat := if b then 1 else 0.

End Statistics.

(** ** Set-up of the status manager: [ensure_status_column], run when
       the module is imported *)

Module Setup.
Import PyStr.

(** A row of the CSV file as [read_csv] gives it, before the status
    column is known to exist: the cells of ['Status'] and ['Applied']
    ([None] for NaN or a missing column) and the other cells. *)
Record RawRow : Type := {
  raw_status : option string;
  raw_applied : option string;
  raw_other : list (option string)
}.

Record RawTable : Type := {
  has_Status : bool;
  has_Applied : bool;
  raw_rows : list RawRow
}.

Definition check_mark : string := "✓".

(** [df['Status'] = 'Applied'] without the column,
    [df['Status'].fillna('Applied')] with it. *)
Definition fill_status (has_status : bool) (r : RawRow) : option string :=
  if has_status
  then match raw_status r with None => Some "Applied" | Some s => Some s end
  else Some "Applied".

(** [fillna] with the check mark, then every cell that is not the empty
    string becomes the check mark; nothing without the column. *)
Definition fill_applied (has_applied : bool) (r : RawRow) : option string :=
  if has_applied then
    let filled := match raw_applied r with None => check_mark | Some a => a end in
    if nonempty filled then Some check_mark else Some filled
  else raw_applied r.

(** [ensure_status_column()] on the file ([None]: it does not exist
    yet); returns the file afterwards and the boolean result. *)
Definition ensure_status_column (file : option RawTable) : option RawTable * bool :=
  match file with
  | None => (None, false)
  | Some df =>
      (Some {| has_Status := true;
               has_Applied := has_Applied df;
               raw_rows :=
                 map (fun r => {| raw_status := fill_status (has_Status df) r;
                                  raw_applied := fill_applied (has_Applied df) r;
                                  raw_other := raw_other r |})
                     (raw_rows df) |},
       true)
  end.

End Setup.

(** ** Vocabulary of the further statements *)

Module ScanSpec.
Import PyStr Oracle Tracker TrackerSpec.

(** The notes of a record as text: empty without the column or the cell. *)
Definition notes_text (df : DataFrame) (r : Application) : string :=
  if has_Notes df then match Notes r with Some s => s | None => EmptyString end
  else EmptyString.

(** The record labelled [k] keeps its place and its notes only grow. *)
Definition notes_grow (df df' : DataFrame) : Prop :=
  forall k r, nth_error (rows df) k = Some r ->
              exists r', nth_error (rows df') k = Some r'
                         /\ prefix (notes_text df r) (notes_text df' r') = true.

(** A status the scanner may write: not empty, not "Other". *)
Definition writable (s : string) : Prop := s <> EmptyString /\ s <> "Other".

(** Every record has the status it had or a writable one. *)
Definition statuses_kept_or_written (df df' : DataFrame) : Prop :=
  forall k s, status_at df k = Some s ->
              exists s', status_at df' k = Some s' /\ (s' = s \/ writable s').

(** The cells the scanner never writes are the same in the two records. *)
Definition same_identity (r r' : Application) : Prop :=
  Job_ID r' = Job_ID r /\ Title r' = Title r /\ Company r' = Company r
  /\ Work_Location r' = Work_Location r /\ Location r' = Location r
  /\ Date_Applied r' = Date_Applied r.

(** The number of fetches that bring a message. *)
Definition fetched (inbox : list Fetch) : nat :=
  List.length (filter (fun f => match f with Fetched _ _ => true | _ => false end) inbox).

(** The summary counters fit together. *)
Definition counters_fit (c : Counters) : Prop :=
  job_related_count c <= ai_successes c
  /\ ai_successes c + ai_failures c <= processed c.

(** The result of the matcher is justified by one of its three tiers. *)
Definition justified (email_company c : string) (s : Q) : Prop :=
  (s = Matcher.exact_score /\ MatcherSpec.shares_variant email_company c)
  \/ (exists ev cv, MatcherSpec.linked_variants email_company c ev cv
                    /\ s = Matcher.score ev cv
                    /\ (Matcher.threshold < s)%Q /\ (s <= 1)%Q)
  \/ (s = Matcher.acronym_score /\ MatcherSpec.same_letters email_company c).

End ScanSpec.

(** * Properties *)

(** ** Facts on the string primitives *)

Module PyStrFacts.
Import PyStr.

Lemma nonempty_true (s : string) : nonempty s = true <-> s <> EmptyString.
Proof.
  destruct s; simpl; split; intro H; try discriminate; try congruence; auto.
Qed.

Lemma nonempty_false (s : string) : nonempty s = false <-> s = EmptyString.
Proof.
  destruct s; simpl; split; intro H; try discriminate; auto.
Qed.

Lemma prefix_app (a b : string) : prefix a (a ++ b) = true.
Proof.
  induction a as [|c a IH]; simpl.
  - destruct b; reflexivity.
  - destruct (ascii_dec c c) as [_|n]; [exact IH | congruence].
Qed.

Lemma prefix_split (a b : string) :
  prefix a b = true -> exists post, b = a ++ post.
Proof.
  revert b; induction a as [|c a IH]; intros b H.
  - exists b; reflexivity.
  - destruct b as [|d b]; simpl in H; [discriminate|].
    destruct (ascii_dec c d) as [->|_]; [|discriminate].
    destruct (IH b H) as [post ->]. exists post; reflexivity.
Qed.

Lemma contains_prefix (a b : string) : prefix a b = true -> contains a b = true.
Proof.
  intro H. destruct b; cbn [contains]; rewrite H; reflexivity.
Qed.

(** [contains] is the substring relation of Python's [in]. *)
Lemma contains_spec (needle hay : string) :
  contains needle hay = true <-> exists pre post, hay = pre ++ needle ++ post.
Proof.
  split.
  - induction hay as [|c hay IH]; simpl; intro H.
    + apply orb_true_iff in H. destruct H as [H|H]; [|discriminate].
      destruct needle; [|discriminate].
      exists EmptyString, EmptyString; reflexivity.
    + apply orb_true_iff in H. destruct H as [H|H].
      * destruct (prefix_split needle (String c hay) H) as [post E].
        exists EmptyString, post; exact E.
      * destruct (IH H) as [pre [post ->]].
        exists (String c pre), post; reflexivity.
  - intros [pre [post ->]].
    induction pre as [|c pre IH]; simpl.
    + apply contains_prefix, prefix_app.
    + apply orb_true_iff; right; exact IH.
Qed.

Lemma Qlt_bool_iff (x y : Q) : Qlt_bool x y = true <-> (x < y)%Q.
Proof.
  unfold Qlt_bool. rewrite negb_true_iff. split; intro H.
  - apply Qnot_le_lt. intro L. apply Qle_bool_iff in L. congruence.
  - destruct (Qle_bool y x) eqn:E; [|reflexivity].
    apply Qle_bool_iff in E. exfalso. exact (Qlt_not_le _ _ H E).
Qed.

Lemma Qlt_bool_false (x y : Q) : Qlt_bool x y = false <-> (y <= x)%Q.
Proof.
  unfold Qlt_bool. rewrite negb_false_iff. apply Qle_bool_iff.
Qed.

End PyStrFacts.

(** ** Worked examples of the normalization *)

Module MatcherExamples.
Import PyStr Matcher.

Example normalize_acme :
  normalize_company "Acme Inc." = ["acme inc."; "acmeinc"; "acme"; "acme"].
Proof. reflexivity. Qed.

Example normalize_m3 :
  normalize_company "M3 USA Corporation"
  = ["m3 usa corporation"; "m3usacorporation"; "m3 usa"; "m3usa"].
Proof. reflexivity. Qed.

(** The suffix pattern has no word boundary: a name that merely ends in
    the letters of a suffix loses them. *)
Example normalize_cisco :
  normalize_company "Cisco" = ["cisco"; "cisco"; "cis"; "cis"].
Proof. reflexivity. Qed.

Example normalize_suffix_only :
  normalize_company "Inc" = ["inc"; "inc"; EmptyString; EmptyString].
Proof. reflexivity. Qed.

Example match_google :
  fuzzy_company_match "Google LLC USA" ["Google LLC"]
  = (Some "Google LLC", Qmake 9 12).
Proof. reflexivity. Qed.

Example subject_company :
  strip (last_part "your application - acme robotics" 0 EmptyString) = "acme robotics".
Proof. reflexivity. Qed.

End MatcherExamples.

(** ** The company matcher *)

Module MatcherFacts.
Import PyStr PyStrFacts Matcher MatcherSpec.

Lemma exact_pair_true (ev cv : string) :
  exact_pair (ev, cv) = true <-> ev <> EmptyString /\ ev = cv.
Proof.
  unfold exact_pair; simpl.
  rewrite !andb_true_iff, String.eqb_eq, !nonempty_true.
  split; [intros [[A _] C]; auto | intros [A C]; subst; auto].
Qed.

Lemma shares_variant_hit (email_company c : string) :
  existsb exact_pair (variant_pairs (normalize_company email_company) c) = true
  <-> shares_variant email_company c.
Proof.
  unfold shares_variant, variant_pairs. rewrite existsb_exists. split.
  - intros [[ev cv] [Hin Hex]]. apply in_prod_iff in Hin.
    apply exact_pair_true in Hex. destruct Hex as [Hne ->].
    exists cv; tauto.
  - intros [v [Hne [H1 H2]]]. exists (v, v). split.
    + apply in_prod_iff; auto.
    + apply exact_pair_true; auto.
Qed.

Lemma check_pair_found (c : string) (bm : option string) (bs : Q) (ev cv : string) :
  exact_pair (ev, cv) = true -> check_pair c bm bs ev cv = Found c.
Proof.
  unfold exact_pair, check_pair; simpl. intro H.
  apply andb_true_iff in H. destruct H as [H1 H2].
  rewrite H1, H2. reflexivity.
Qed.

Lemma linked_true (ev cv : string) :
  nonempty ev && nonempty cv = true ->
  (contains ev cv || contains cv ev = true <-> linked ev cv).
Proof.
  intro H. apply andb_true_iff in H. destruct H as [H1 H2].
  apply nonempty_true in H1. apply nonempty_true in H2.
  unfold linked. rewrite orb_true_iff. tauto.
Qed.

Lemma threshold_positive : (zero_score < threshold)%Q.
Proof. unfold Qlt; simpl; lia. Qed.

Lemma best_so_far_keep (c : string) (seen : list (string * (string * string)))
      (bm : option string) (bs : Q) (ev cv : string) :
  best_so_far seen bm bs ->
  (linked ev cv -> (score ev cv <= bs)%Q \/ ~ (threshold < score ev cv)%Q) ->
  best_so_far (seen ++ [(c, (ev, cv))]) bm bs.
Proof.
  intros Inv Hnew. destruct bm as [c0|]; simpl in *.
  - destruct Inv as [e0 [v0 [I1 [I2 [I3 [I4 I5]]]]]].
    exists e0, v0.
    split; [apply in_or_app; left; exact I1|].
    split; [exact I2|]. split; [exact I3|]. split; [exact I4|].
    intros c' ev' cv' Hin L'. apply in_app_or in Hin. destruct Hin as [Hin|Hin].
    + eauto.
    + destruct Hin as [E|[]]. inversion E; subst c' ev' cv'.
      destruct (Hnew L') as [A|B]; [exact A|].
      apply Qnot_lt_le in B.
      apply Qle_trans with threshold; [exact B | apply Qlt_le_weak; exact I4].
  - destruct Inv as [I1 I2]. split; [exact I1|].
    intros c' ev' cv' Hin L'. apply in_app_or in Hin. destruct Hin as [Hin|Hin].
    + eauto.
    + destruct Hin as [E|[]]. inversion E; subst c' ev' cv'.
      destruct (Hnew L') as [A|B]; [|exact B].
      intro Hlt. apply (Qlt_not_le _ _ Hlt).
      apply Qle_trans with bs; [exact A|]. rewrite I1.
      apply Qlt_le_weak, threshold_positive.
Qed.

Lemma best_so_far_update (c : string) (seen : list (string * (string * string)))
      (bm : option string) (bs : Q) (ev cv : string) :
  best_so_far seen bm bs ->
  linked ev cv -> (bs < score ev cv)%Q -> (threshold < score ev cv)%Q ->
  best_so_far (seen ++ [(c, (ev, cv))]) (Some c) (score ev cv).
Proof.
  intros Inv L U1 U2. simpl. exists ev, cv.
  split; [apply in_or_app; right; left; reflexivity|].
  split; [exact L|]. split; [reflexivity|]. split; [exact U2|].
  intros c' ev' cv' Hin L'. apply in_app_or in Hin. destruct Hin as [Hin|Hin].
  - destruct bm as [c0|]; simpl in Inv.
    + destruct Inv as [e0 [v0 [_ [_ [_ [_ Hmax]]]]]].
      apply Qle_trans with bs; [eauto | apply Qlt_le_weak; exact U1].
    + destruct Inv as [_ Hno].
      pose proof (Qnot_lt_le _ _ (Hno c' ev' cv' Hin L')) as Hle.
      apply Qle_trans with threshold; [exact Hle | apply Qlt_le_weak; exact U2].
  - destruct Hin as [E|[]]. inversion E; subst c' ev' cv'. apply Qle_refl.
Qed.

(** One pair that is not an exact hit keeps the loop running and keeps
    the record of the best pair. *)
Lemma check_pair_step (c : string) (seen : list (string * (string * string)))
      (bm : option string) (bs : Q) (ev cv : string) :
  best_so_far seen bm bs ->
  exact_pair (ev, cv) = false ->
  exists bm' bs', check_pair c bm bs ev cv = Running bm' bs'
                  /\ best_so_far (seen ++ [(c, (ev, cv))]) bm' bs'.
Proof.
  intros Inv Hex. unfold check_pair. unfold exact_pair in Hex; simpl in Hex.
  destruct (nonempty ev && nonempty cv) eqn:Hne.
  - simpl in Hex. rewrite Hex.
    pose proof (linked_true ev cv Hne) as Hl.
    destruct (contains ev cv || contains cv ev) eqn:Hc.
    + assert (L : linked ev cv) by (apply Hl; reflexivity).
      destruct (Qlt_bool bs (score ev cv) && Qlt_bool threshold (score ev cv)) eqn:Hup.
      * apply andb_true_iff in Hup. destruct Hup as [U1 U2].
        apply Qlt_bool_iff in U1. apply Qlt_bool_iff in U2.
        exists (Some c), (score ev cv). split; [reflexivity|].
        apply best_so_far_update with bm bs; assumption.
      * exists bm, bs. split; [reflexivity|].
        apply best_so_far_keep; [exact Inv|]. intros _.
        apply andb_false_iff in Hup.
        destruct Hup as [U|U]; apply Qlt_bool_false in U; [left; exact U|].
        right. apply Qle_not_lt. exact U.
    + exists bm, bs. split; [reflexivity|].
      apply best_so_far_keep; [exact Inv|].
      intro L. apply Hl in L. discriminate.
  - exists bm, bs. split; [reflexivity|].
    apply best_so_far_keep; [exact Inv|].
    intros [A [B _]]. apply nonempty_true in A. apply nonempty_true in B.
    rewrite A, B in Hne. discriminate.
Qed.

Lemma check_pairs_step (c : string) (pairs : list (string * string)) :
  forall (seen : list (string * (string * string))) (bm : option string) (bs : Q),
    best_so_far seen bm bs ->
    existsb exact_pair pairs = false ->
    exists bm' bs', check_pairs c pairs bm bs = Running bm' bs'
                    /\ best_so_far (seen ++ map (pair c) pairs) bm' bs'.
Proof.
  induction pairs as [|[ev cv] rest IH]; intros seen bm bs Inv Hex; simpl in *.
  - exists bm, bs. rewrite app_nil_r. auto.
  - apply orb_false_iff in Hex. destruct Hex as [H1 H2].
    destruct (check_pair_step c seen bm bs ev cv Inv H1) as [bm1 [bs1 [E1 Inv1]]].
    rewrite E1.
    destruct (IH _ _ _ Inv1 H2) as [bm2 [bs2 [E2 Inv2]]].
    exists bm2, bs2. split; [exact E2|].
    rewrite <- app_assoc in Inv2. exact Inv2.
Qed.

Lemma check_pair_running (c : string) (bm : option string) (bs : Q) (ev cv : string) :
  exact_pair (ev, cv) = false ->
  exists bm' bs', check_pair c bm bs ev cv = Running bm' bs'.
Proof.
  unfold exact_pair, check_pair; simpl. intro H.
  destruct (nonempty ev && nonempty cv); simpl in H.
  - rewrite H.
    destruct (contains ev cv || contains cv ev); [|eauto].
    destruct (Qlt_bool bs (score ev cv) && Qlt_bool threshold (score ev cv)); eauto.
  - eauto.
Qed.

Lemma check_pairs_running (c : string) (pairs : list (string * string)) :
  forall (bm : option string) (bs : Q),
    existsb exact_pair pairs = false ->
    exists bm' bs', check_pairs c pairs bm bs = Running bm' bs'.
Proof.
  induction pairs as [|[ev cv] rest IH]; intros bm bs Hex; simpl in *.
  - eauto.
  - apply orb_false_iff in Hex. destruct Hex as [H1 H2].
    destruct (check_pair_running c bm bs ev cv H1) as [x [y E]].
    rewrite E. apply IH. exact H2.
Qed.

Lemma check_pairs_found (c : string) (pairs : list (string * string)) :
  forall (bm : option string) (bs : Q),
    existsb exact_pair pairs = true ->
    check_pairs c pairs bm bs = Found c.
Proof.
  induction pairs as [|[ev cv] rest IH]; intros bm bs Hex; simpl in *.
  - discriminate.
  - destruct (exact_pair (ev, cv)) eqn:E.
    + rewrite (check_pair_found c bm bs ev cv E). reflexivity.
    + simpl in Hex.
      destruct (check_pair_running c bm bs ev cv E) as [bm1 [bs1 E1]].
      rewrite E1. apply IH. exact Hex.
Qed.

Lemma check_companies_step (evs : list string) (cs : list string) :
  forall (seen : list (string * (string * string))) (bm : option string) (bs : Q),
    best_so_far seen bm bs ->
    (forall c, In c cs -> existsb exact_pair (variant_pairs evs c) = false) ->
    exists bm' bs', check_companies evs cs bm bs = Running bm' bs'
                    /\ best_so_far (seen ++ all_pairs evs cs) bm' bs'.
Proof.
  induction cs as [|c rest IH]; intros seen bm bs Inv Hex; simpl in *.
  - exists bm, bs. rewrite app_nil_r. auto.
  - destruct (check_pairs_step c (variant_pairs evs c) seen bm bs Inv)
      as [bm1 [bs1 [E1 Inv1]]]; [apply Hex; left; reflexivity|].
    rewrite E1.
    destruct (IH _ _ _ Inv1) as [bm2 [bs2 [E2 Inv2]]];
      [intros c' Hc'; apply Hex; right; exact Hc'|].
    exists bm2, bs2. split; [exact E2|].
    unfold all_pairs; simpl. fold (all_pairs evs rest).
    rewrite <- app_assoc in Inv2. exact Inv2.
Qed.

Lemma check_companies_found (evs : list string) (l1 : list string) (c : string)
      (l2 : list string) :
  forall (bm : option string) (bs : Q),
    (forall c', In c' l1 -> existsb exact_pair (variant_pairs evs c') = false) ->
    existsb exact_pair (variant_pairs evs c) = true ->
    check_companies evs (l1 ++ c :: l2) bm bs = Found c.
Proof.
  induction l1 as [|c0 l1 IH]; intros bm bs Hno Hyes; simpl.
  - rewrite (check_pairs_found c _ bm bs Hyes). reflexivity.
  - destruct (check_pairs_running c0 (variant_pairs evs c0) bm bs) as [bm1 [bs1 E1]];
      [apply Hno; left; reflexivity|].
    rewrite E1.
    apply IH; [intros c' Hc'; apply Hno; right; exact Hc' | exact Hyes].
Qed.

Lemma in_all_pairs (evs cs : list string) (c ev cv : string) :
  In (c, (ev, cv)) (all_pairs evs cs)
  <-> In c cs /\ In ev evs /\ In cv (normalize_company c).
Proof.
  unfold all_pairs, variant_pairs. rewrite in_flat_map. split.
  - intros [c0 [Hc Hin]]. apply in_map_iff in Hin.
    destruct Hin as [[e v] [E Hp]]. inversion E; subst.
    apply in_prod_iff in Hp. tauto.
  - intros [Hc [He Hv]]. exists c. split; [exact Hc|].
    apply in_map_iff. exists (ev, cv). split; [reflexivity|].
    apply in_prod_iff; auto.
Qed.

(** A company with a non-empty variant is not the empty name. *)
Lemma variant_of_nonempty (c v : string) :
  In v (normalize_company c) -> v <> EmptyString -> nonempty c = true.
Proof.
  destruct c; [|reflexivity].
  intros H Hne. vm_compute in H.
  destruct H as [H|[H|[H|[H|[]]]]]; congruence.
Qed.

Lemma no_hit (email_company c : string) :
  ~ shares_variant email_company c ->
  existsb exact_pair (variant_pairs (normalize_company email_company) c) = false.
Proof.
  intro H. destruct (existsb exact_pair _) eqn:E; [|reflexivity].
  exfalso. apply H. apply shares_variant_hit. exact E.
Qed.

(** Without an exact hit the loops end in a running state that records
    the best substring pair among all variant pairs. *)
Lemma substring_scan (email_company : string) (cs : list string) :
  (forall c, In c cs -> ~ shares_variant email_company c) ->
  exists bm bs,
    check_companies (normalize_company email_company) cs None zero_score = Running bm bs
    /\ best_so_far (all_pairs (normalize_company email_company) cs) bm bs.
Proof.
  intro Hno.
  destruct (check_companies_step (normalize_company email_company) cs [] None zero_score)
    as [bm [bs [E Inv]]].
  - simpl. split; [reflexivity|]. intros ? ? ? [].
  - intros c Hc. apply no_hit. apply Hno. exact Hc.
  - exists bm, bs. split; [exact E | exact Inv].
Qed.

Lemma acronym_match_first (email_letters : string) (l1 : list string) (c : string)
      (l2 : list string) :
  email_letters = letters c -> 2 < length email_letters ->
  (forall c', In c' l1 -> ~ (email_letters = letters c' /\ 2 < length email_letters)) ->
  acronym_match email_letters (l1 ++ c :: l2) = Some c.
Proof.
  intros E L. induction l1 as [|c0 l1 IH]; intro Hno; simpl.
  - rewrite E at 1. rewrite String.eqb_refl.
    apply Nat.ltb_lt in L. rewrite L. reflexivity.
  - destruct (String.eqb email_letters (letters c0) && (2 <? length email_letters)) eqn:H.
    + exfalso. apply andb_true_iff in H. destruct H as [H1 H2].
      apply String.eqb_eq in H1. apply Nat.ltb_lt in H2.
      apply (Hno c0); [left; reflexivity | split; assumption].
    + apply IH. intros c' Hc'. apply Hno. right. exact Hc'.
Qed.

Lemma acronym_match_none (email_letters : string) (cs : list string) :
  (forall c, In c cs -> ~ (email_letters = letters c /\ 2 < length email_letters)) ->
  acronym_match email_letters cs = None.
Proof.
  induction cs as [|c0 cs IH]; intro Hno; simpl; [reflexivity|].
  destruct (String.eqb email_letters (letters c0) && (2 <? length email_letters)) eqn:H.
  - exfalso. apply andb_true_iff in H. destruct H as [H1 H2].
    apply String.eqb_eq in H1. apply Nat.ltb_lt in H2.
    apply (Hno c0); [left; reflexivity | split; assumption].
  - apply IH. intros c' Hc'. apply Hno. right. exact Hc'.
Qed.

(** C6, as the source has it: when some known company shares a non-empty
    normalized variant (lowercased name; separators removed; legal suffix
    removed; suffix and separators removed) with a non-empty candidate
    name, [fuzzy_company_match] returns the first such company of the
    list, with score exactly 1.0.  In particular "Acme Inc." against
    "Acme" and "Other Co" gives ("Acme", 1.0). *)
Theorem exact_match_first_company :
  (forall (email_company : string) (l1 : list string) (c : string) (l2 : list string),
      email_company <> EmptyString ->
      shares_variant email_company c ->
      (forall c', In c' l1 -> ~ shares_variant email_company c') ->
      fuzzy_company_match email_company (l1 ++ c :: l2) = (Some c, exact_score))
  /\ fuzzy_company_match "Acme Inc." ["Acme"; "Other Co"] = (Some "Acme", exact_score).
Proof.
  split; [|reflexivity].
  intros email_company l1 c l2 Hne Hc Hl1. unfold fuzzy_company_match.
  apply nonempty_true in Hne. rewrite Hne. simpl.
  rewrite check_companies_found; [reflexivity | |].
  - intros c' Hc'. apply no_hit. apply Hl1. exact Hc'.
  - apply shares_variant_hit. exact Hc.
Qed.

Lemma exact_match_first_company_witness :
  fuzzy_company_match "Acme" (["Other Co"] ++ "Acme Inc" :: ["Acme LLC"])
  = (Some "Acme Inc", exact_score).
Proof.
  apply (proj1 exact_match_first_company "Acme" ["Other Co"] "Acme Inc" ["Acme LLC"]).
  - discriminate.
  - apply shares_variant_hit. vm_compute. reflexivity.
  - intros c' [<-|[]] H. apply shares_variant_hit in H. vm_compute in H. discriminate.
Defined.

(** C6 as stated fails where the only equal variants are empty: the
    suffix-stripped variants of "Inc" and of "LLC" are both empty, and
    nothing is returned. *)
Lemma exact_match_ignores_empty_variants :
  "Inc" <> EmptyString
  /\ (exists v, In v (normalize_company "Inc") /\ In v (normalize_company "LLC"))
  /\ fuzzy_company_match "Inc" ["LLC"] = (None, zero_score)
  /\ fuzzy_company_match "Inc" ["LLC"] <> (Some "LLC", exact_score).
Proof.
  split; [discriminate|]. split.
  - exists EmptyString. split; vm_compute; tauto.
  - split; [reflexivity | vm_compute; discriminate].
Qed.

(** C7, as the source has it: when no known company shares a non-empty
    variant with the candidate and no substring pair of variants scores
    above 0.6, the first known company whose letters and digits
    (case-insensitively) equal those of the candidate, more than two of
    them, is returned with score 0.85; so "AT&T" against "ATT" gives
    ("ATT", 0.85).  "M3USA" against "M3 USA Corporation" is settled
    earlier, by the exact tier, with score 1.0. *)
Theorem acronym_match_first_company :
  (forall (email_company : string) (l1 : list string) (c : string) (l2 : list string),
      email_company <> EmptyString ->
      (forall c', In c' (l1 ++ c :: l2) -> ~ shares_variant email_company c') ->
      (forall c' ev cv, In c' (l1 ++ c :: l2) ->
                        linked_variants email_company c' ev cv ->
                        ~ (threshold < score ev cv)%Q) ->
      same_letters email_company c ->
      (forall c', In c' l1 -> ~ same_letters email_company c') ->
      fuzzy_company_match email_company (l1 ++ c :: l2) = (Some c, acronym_score))
  /\ fuzzy_company_match "AT&T" ["ATT"] = (Some "ATT", acronym_score)
  /\ fuzzy_company_match "M3USA" ["M3 USA Corporation"]
     = (Some "M3 USA Corporation", exact_score).
Proof.
  split; [|split; reflexivity].
  intros email_company l1 c l2 Hne Hno Hsub [Hsame Hlen] Hfirst.
  unfold fuzzy_company_match.
  apply nonempty_true in Hne. rewrite Hne. simpl.
  destruct (substring_scan email_company (l1 ++ c :: l2) Hno) as [bm [bs [E Inv]]].
  rewrite E. destruct bm as [c0|].
  - exfalso. simpl in Inv. destruct Inv as [ev [cv [Hin [L [Hbs [Hth _]]]]]].
    apply in_all_pairs in Hin. destruct Hin as [Hc0 [Hev Hcv]].
    rewrite Hbs in Hth.
    exact (Hsub c0 ev cv Hc0 (conj Hev (conj Hcv L)) Hth).
  - simpl. rewrite acronym_match_first; auto.
Qed.

Lemma acronym_match_first_company_witness :
  fuzzy_company_match "AT&T" (["Globex"] ++ "ATT" :: ["A T T"])
  = (Some "ATT", acronym_score).
Proof.
  apply (proj1 acronym_match_first_company "AT&T" ["Globex"] "ATT" ["A T T"]).
  - discriminate.
  - intros c' Hc' H. apply shares_variant_hit in H.
    destruct Hc' as [<-|[<-|[<-|[]]]]; vm_compute in H; discriminate.
  - intros c' ev cv Hc' [Hev [Hcv [_ [_ L]]]] Hlt.
    vm_compute in Hev.
    destruct Hc' as [<-|[<-|[<-|[]]]]; vm_compute in Hcv;
      destruct Hev as [<-|[<-|[<-|[<-|[]]]]]; destruct Hcv as [<-|[<-|[<-|[<-|[]]]]];
      vm_compute in L; destruct L; discriminate.
  - split; [reflexivity | vm_compute; lia].
  - intros c' [<-|[]] [H _]. vm_compute in H. discriminate.
Defined.

(** C7 as stated fails on its own example: the suffix- and
    separator-stripped variant of "M3 USA Corporation" is "m3usa", an
    exact hit, so the score is 1.0 and not 0.85. *)
Lemma m3usa_is_an_exact_match :
  In "m3usa" (normalize_company "M3USA")
  /\ In "m3usa" (normalize_company "M3 USA Corporation")
  /\ fuzzy_company_match "M3USA" ["M3 USA Corporation"]
     <> (Some "M3 USA Corporation", acronym_score).
Proof.
  split; [vm_compute; tauto|]. split; [vm_compute; tauto|].
  vm_compute. discriminate.
Qed.

(** C8: with no variant pair exactly equal, if some variant pair with one
    string inside the other scores above 0.6, where the score is
    min(len)/max(len), the result is a known company and the score of one
    of its pairs, that score is above 0.6 and no such pair of any known
    company scores higher; if no pair scores above 0.6 and the acronym
    tier finds nothing either, the result is (None, 0.0), as for
    "Totally Unrelated Co" against "Acme" and "Globex". *)
Theorem substring_match_highest_score :
  (forall (email_company : string) (cs : list string),
      email_company <> EmptyString ->
      (forall c, In c cs -> ~ shares_variant email_company c) ->
      ((exists c ev cv, In c cs /\ linked_variants email_company c ev cv
                        /\ (threshold < score ev cv)%Q) ->
       exists c ev cv,
         fuzzy_company_match email_company cs = (Some c, score ev cv)
         /\ score ev cv = Qmake (Z.of_nat (Nat.min (length ev) (length cv)))
                                (Pos.of_nat (Nat.max (length ev) (length cv)))
         /\ In c cs /\ linked_variants email_company c ev cv
         /\ (threshold < score ev cv)%Q
         /\ forall c' ev' cv', In c' cs -> linked_variants email_company c' ev' cv' ->
                               (score ev' cv' <= score ev cv)%Q)
      /\ ((forall c ev cv, In c cs -> linked_variants email_company c ev cv ->
                           ~ (threshold < score ev cv)%Q) ->
          (forall c, In c cs -> ~ same_letters email_company c) ->
          fuzzy_company_match email_company cs = (None, zero_score)))
  /\ fuzzy_company_match "Totally Unrelated Co" ["Acme"; "Globex"] = (None, zero_score).
Proof.
  split; [|reflexivity].
  intros email_company cs Hne Hno.
  unfold fuzzy_company_match.
  apply nonempty_true in Hne. rewrite Hne. simpl.
  destruct (substring_scan email_company cs Hno) as [bm [bs [E Inv]]].
  rewrite E. split.
  - intros [c1 [ev1 [cv1 [Hc1 [[Hev1 [Hcv1 L1]] Hth1]]]]].
    destruct bm as [c0|]; simpl in Inv.
    + destruct Inv as [ev [cv [Hin [L [Hbs [Hth Hmax]]]]]].
      apply in_all_pairs in Hin. destruct Hin as [Hc0 [Hev Hcv]].
      assert (Hc0ne : nonempty c0 = true).
      { destruct L as [_ [Hcvne _]]. exact (variant_of_nonempty c0 cv Hcv Hcvne). }
      simpl. rewrite Hc0ne. simpl.
      exists c0, ev, cv. rewrite Hbs.
      split; [reflexivity|]. split; [reflexivity|]. split; [exact Hc0|].
      split; [exact (conj Hev (conj Hcv L))|].
      split; [rewrite <- Hbs; exact Hth|].
      intros c' ev' cv' Hc' [Hev' [Hcv' L']]. rewrite <- Hbs.
      apply (Hmax c' ev' cv'); [|exact L'].
      apply in_all_pairs. auto.
    + exfalso. destruct Inv as [_ Hnone].
      apply (Hnone c1 ev1 cv1); [apply in_all_pairs; auto | exact L1 | exact Hth1].
  - intros Hsub Hacr.
    destruct bm as [c0|]; simpl in Inv.
    + exfalso. destruct Inv as [ev [cv [Hin [L [Hbs [Hth _]]]]]].
      apply in_all_pairs in Hin. destruct Hin as [Hc0 [Hev Hcv]].
      rewrite Hbs in Hth.
      exact (Hsub c0 ev cv Hc0 (conj Hev (conj Hcv L)) Hth).
    + destruct Inv as [Hbs _]. simpl.
      rewrite acronym_match_none; [rewrite Hbs; reflexivity|].
      intros c Hc [A B]. apply (Hacr c Hc). split; assumption.
Qed.

Lemma substring_match_highest_score_witness :
  exists c ev cv,
    fuzzy_company_match "Google LLC USA" ["Google LLC"] = (Some c, score ev cv)
    /\ score ev cv = Qmake (Z.of_nat (Nat.min (length ev) (length cv)))
                           (Pos.of_nat (Nat.max (length ev) (length cv)))
    /\ In c ["Google LLC"] /\ linked_variants "Google LLC USA" c ev cv
    /\ (threshold < score ev cv)%Q
    /\ forall c' ev' cv', In c' ["Google LLC"] ->
                          linked_variants "Google LLC USA" c' ev' cv' ->
                          (score ev' cv' <= score ev cv)%Q.
Proof.
  refine (proj1 (proj1 substring_match_highest_score "Google LLC USA" ["Google LLC"]
                       _ _) _).
  - discriminate.
  - intros c [<-|[]] H. apply shares_variant_hit in H. vm_compute in H. discriminate.
  - exists "Google LLC", "googlellcusa", "googlellc".
    split; [left; reflexivity|]. split.
    + split; [vm_compute; tauto|]. split; [vm_compute; tauto|].
      split; [discriminate|]. split; [discriminate|]. right. reflexivity.
    + vm_compute. reflexivity.
Defined.

End MatcherFacts.

(** ** The Oracle boundary and the consistency corrector *)

Module OracleFacts.
Import PyStr PyStrFacts Oracle OracleSpec.

Lemma validate_incomplete (p : Payload) :
  p_is_job_related p = None \/ p_status p = None -> validate p = None.
Proof.
  intros [H|H]; unfold validate; rewrite H;
    destruct (is_text (p_reasoning p) "JSON parsing failed"); try reflexivity.
  destruct (p_is_job_related p); reflexivity.
Qed.

Lemma validate_error_code (p : Payload) (code : Z) :
  p_status p = Some (StatusCode code) -> validate p = None.
Proof.
  intro H. unfold validate. rewrite H.
  destruct (is_text (p_reasoning p) "JSON parsing failed"); [reflexivity|].
  destruct (p_is_job_related p); reflexivity.
Qed.

(** Whatever the email, a failed call gives no judgement. *)
Lemma failure_gives_none (subject content sender_name : string) (call : OracleCall) :
  recognized_failure call ->
  ai_analyze_job_email subject content sender_name call = None.
Proof.
  intro F. destruct F; simpl; try reflexivity.
  - destruct (error_shaped p); [reflexivity|].
    destruct (p_is_job_related p) eqn:E; [|reflexivity].
    rewrite validate_incomplete; [reflexivity|].
    destruct H as [H|H]; [congruence | right; exact H].
  - destruct (error_shaped p); [reflexivity|].
    destruct (p_is_job_related p) eqn:E; [|reflexivity].
    rewrite validate_incomplete; [reflexivity|].
    destruct H as [H|H]; [congruence | right; exact H].
  - rewrite validate_incomplete; [reflexivity | exact H].
  - rewrite validate_incomplete; [reflexivity | exact H].
  - rewrite H. reflexivity.
  - rewrite H. reflexivity.
  - rewrite (validate_error_code p code H). reflexivity.
  - rewrite (validate_error_code p code H). reflexivity.
Qed.

Lemma strong_phrase_is_pattern (phrase : string) :
  In phrase strong_rejection_phrases -> In (Phrase phrase) rejection_phrases.
Proof.
  unfold strong_rejection_phrases, rejection_phrases. simpl.
  intros H. repeat (destruct H as [<-|H]; [tauto|]). destruct H.
Qed.

Lemma rejection_detected (phrase reasoning_lower content_lower : string) :
  In phrase strong_rejection_phrases ->
  contains phrase content_lower = true \/ contains phrase reasoning_lower = true ->
  is_rejection reasoning_lower content_lower = true.
Proof.
  intros Hin Hc. unfold is_rejection. apply existsb_exists.
  exists (Phrase phrase). split; [apply strong_phrase_is_pattern; exact Hin|].
  simpl. apply orb_true_iff. tauto.
Qed.

Lemma fix_rejection_related (j : Judgement) : is_job_related (fix_rejection j) = true.
Proof.
  unfold fix_rejection.
  destruct (is_job_related j) eqn:R; simpl;
    repeat match goal with
           | |- context [if ?b then _ else _] => destruct b; simpl
           end; auto.
Qed.

Lemma fix_thank_you_after_rejection (subject content_lower : string) (j : Judgement) :
  is_job_related j = true -> fix_thank_you subject content_lower j = j.
Proof.
  intro R. unfold fix_thank_you. rewrite R. simpl.
  match goal with |- context [if ?b then _ else _] => destruct b end; reflexivity.
Qed.

(** C4, as the source has it: when the lowercased body of the email or
    the Oracle's own reasoning contains one of the nine strong rejection
    phrases, the corrected judgement is job-related, its status is
    "Rejected" if the Oracle said "Other" and the Oracle's status
    otherwise, and its confidence is 0.8 if it was below 0.7 and the
    Oracle's confidence otherwise.  So {false, "Other", 0.3} with the
    body "we are unable to sponsor work visas at this time" becomes
    {true, "Rejected", 0.8}.  The subject is not searched for these
    phrases. *)
Theorem rejection_phrases_override :
  (forall (subject content phrase : string) (j : Judgement),
      In phrase strong_rejection_phrases ->
      contains phrase (lower content) = true
      \/ contains phrase (lower (reasoning j)) = true ->
      let j' := correct subject content j in
      is_job_related j' = true
      /\ (status j = Some "Other" -> status j' = Some "Rejected")
      /\ (status j <> Some "Other" -> status j' = status j)
      /\ ((confidence j < Qmake 7 10)%Q -> confidence j' = Qmake 8 10)
      /\ (~ (confidence j < Qmake 7 10)%Q -> confidence j' = confidence j))
  /\ (forall (subject : string) (j : Judgement),
         is_job_related j = false -> status j = Some "Other" ->
         confidence j = Qmake 3 10 ->
         let j' := correct subject "we are unable to sponsor work visas at this time" j in
         is_job_related j' = true /\ status j' = Some "Rejected"
         /\ (Qmake 8 10 <= confidence j')%Q).
Proof.
  assert (General : forall (subject content phrase : string) (j : Judgement),
      In phrase strong_rejection_phrases ->
      contains phrase (lower content) = true
      \/ contains phrase (lower (reasoning j)) = true ->
      let j' := correct subject content j in
      is_job_related j' = true
      /\ (status j = Some "Other" -> status j' = Some "Rejected")
      /\ (status j <> Some "Other" -> status j' = status j)
      /\ ((confidence j < Qmake 7 10)%Q -> confidence j' = Qmake 8 10)
      /\ (~ (confidence j < Qmake 7 10)%Q -> confidence j' = confidence j)).
  { intros subject content phrase j Hin Hc j'. subst j'. unfold correct.
    rewrite (rejection_detected phrase _ _ Hin Hc).
    rewrite fix_thank_you_after_rejection by apply fix_rejection_related.
    split; [apply fix_rejection_related|].
    unfold fix_rejection.
    assert (St : forall b : bool, status (if b then set_is_job_related true j else j) = status j)
      by (intros []; reflexivity).
    assert (Cf : forall b : bool, confidence (if b then set_is_job_related true j else j)
                           = confidence j)
      by (intros []; reflexivity).
    set (j1 := if negb (is_job_related j) then set_is_job_related true j else j).
    assert (S1 : status j1 = status j) by apply St.
    assert (C1 : confidence j1 = confidence j) by apply Cf.
    set (j2 := if is_text (status j1) "Other" then set_status (Some "Rejected") j1 else j1).
    assert (C2 : confidence j2 = confidence j).
    { unfold j2. destruct (is_text (status j1) "Other"); simpl; exact C1. }
    assert (S3 : status (if Qlt_bool (confidence j2) (Qmake 7 10)
                         then set_confidence (Qmake 8 10) j2 else j2) = status j2).
    { destruct (Qlt_bool (confidence j2) (Qmake 7 10)); reflexivity. }
    rewrite S3. rewrite C2.
    split; [|split; [|split]].
    - intro H. unfold j2. rewrite S1, H. reflexivity.
    - intro H. unfold j2. rewrite S1.
      destruct (is_text (status j) "Other") eqn:E; [|exact S1].
      exfalso. apply H. unfold is_text in E.
      destruct (status j) as [s0|]; [|discriminate].
      apply String.eqb_eq in E. subst s0. reflexivity.
    - intro H. apply Qlt_bool_iff in H. rewrite H. reflexivity.
    - intro H. destruct (Qlt_bool (confidence j) (Qmake 7 10)) eqn:E.
      + exfalso. apply H. apply Qlt_bool_iff. exact E.
      + exact C2. }
  split; [exact General|].
  intros subject j R S C j'.
  destruct (General subject "we are unable to sponsor work visas at this time"
                    "unable to sponsor" j) as [A [B [_ [D _]]]].
  - simpl. tauto.
  - left. reflexivity.
  - split; [exact A|]. split; [apply B; exact S|].
    fold j' in D. rewrite D; [apply Qle_refl|].
    rewrite C. unfold Qlt; simpl; lia.
Qed.

Lemma rejection_phrases_override_witness :
  Oracle.is_job_related
    (correct "an update" "We REGRET to inform you that the role is filled"
             Samples.newsletter) = true.
Proof.
  apply (proj1 rejection_phrases_override "an update"
               "We REGRET to inform you that the role is filled"
               "regret to inform" Samples.newsletter).
  - simpl. tauto.
  - left. vm_compute. reflexivity.
Defined.

(** C4 as stated fails for the subject: a strong rejection phrase that
    occurs in the subject only leaves the judgement as the Oracle gave
    it. *)
Lemma rejection_phrase_in_subject_only :
  In "regret to inform" strong_rejection_phrases
  /\ contains "regret to inform" "we regret to inform you" = true
  /\ Oracle.is_job_related Samples.newsletter = false
  /\ correct "we regret to inform you" "please see the attached letter"
             Samples.newsletter = Samples.newsletter.
Proof.
  split; [simpl; tauto|]. split; [reflexivity|]. split; reflexivity.
Qed.

End OracleFacts.

(** ** The reconciler: gate, failure handling and equal-status updates *)

Module TrackerFacts.
Import PyStr PyStrFacts Oracle OracleSpec Tracker TrackerSpec.

Lemma nth_error_update_at (f : Application -> Application) (idx k : nat)
      (rs : list Application) :
  nth_error (update_at idx f rs) k
  = if Nat.eqb k idx then option_map f (nth_error rs k) else nth_error rs k.
Proof.
  revert idx k. induction rs as [|r rest IH]; intros idx k.
  - destruct idx, k; simpl; try reflexivity; destruct (Nat.eqb k idx); reflexivity.
  - destruct idx as [|i], k as [|k]; simpl; try reflexivity. apply IH.
Qed.

Section WithExternals.

Variable regex_ci : string -> option (string -> bool).
Variable fmt2 : Q -> string.

Lemma truthy_present (o : option string) : truthy o = true <-> present o.
Proof.
  unfold present. destruct o as [s|]; simpl.
  - rewrite nonempty_true. split.
    + intro H. exists s. auto.
    + intros [s' [E H]]. inversion E. subst. exact H.
  - split; [discriminate | intros [s [E _]]; discriminate].
Qed.

Lemma is_text_true (o : option string) (text : string) :
  is_text o text = true <-> o = Some text.
Proof.
  destruct o as [s|]; simpl.
  - rewrite String.eqb_eq. split; congruence.
  - split; discriminate.
Qed.

Lemma real_status_gate (o : option string) :
  truthy o && negb (is_text o "Other") = true <-> real_status o.
Proof.
  unfold real_status. rewrite andb_true_iff, negb_true_iff. split.
  - intros [T N]. apply truthy_present in T. destruct T as [s [-> Hs]].
    exists s. split; [reflexivity|]. split; [exact Hs|].
    simpl in N. apply String.eqb_neq in N. exact N.
  - intros [s [-> [Hs Ho]]]. split.
    + apply truthy_present. exists s. auto.
    + simpl. apply String.eqb_neq. exact Ho.
Qed.

(** The gate is the conjunction of its three conditions. *)
Lemma gate_true (company_match new_status : option string) (q : Q) :
  gate company_match new_status q = true
  <-> present company_match /\ real_status new_status /\ (Matcher.threshold <= q)%Q.
Proof.
  unfold gate. rewrite <- real_status_gate, <- truthy_present, <- Qle_bool_iff.
  rewrite !andb_true_iff. tauto.
Qed.

(** The equal-status branch of the per-record step. *)
Lemma apply_one_equal (now subject cm ns : string) (q : Q) (interview : option string)
      (selected : nat) (df : DataFrame) (idx : nat) (r : Application) :
  nth_error (rows df) idx = Some r -> Status r = ns ->
  apply_one fmt2 now subject cm ns q interview selected df idx = (df, false).
Proof.
  intros Hr Hs. unfold apply_one. rewrite Hr, Hs, String.eqb_refl. reflexivity.
Qed.

Lemma apply_one_changed (now subject cm ns : string) (q : Q) (interview : option string)
      (selected : nat) (df : DataFrame) (idx : nat) (df' : DataFrame) (changed : bool) :
  apply_one fmt2 now subject cm ns q interview selected df idx = (df', changed) ->
  (changed = false -> df' = df)
  /\ (changed = true ->
      exists r, nth_error (rows df) idx = Some r /\ Status r <> ns).
Proof.
  unfold apply_one. destruct (nth_error (rows df) idx) as [r|] eqn:Hr.
  - destruct (String.eqb ns (Status r)) eqn:E; simpl; intro H; inversion H; subst.
    + split; [reflexivity | discriminate].
    + split; [discriminate|]. intros _. exists r. split; [reflexivity|].
      apply String.eqb_neq in E. congruence.
  - intro H. inversion H. split; [reflexivity | discriminate].
Qed.

(** When every selected row already has the new status, the whole loop
    writes nothing and counts nothing. *)
Lemma apply_all_equal (now subject cm ns : string) (q : Q) (interview : option string)
      (selected : nat) (df : DataFrame) (idxs : list nat) :
  (forall i r, In i idxs -> nth_error (rows df) i = Some r -> Status r = ns) ->
  apply_all fmt2 now subject cm ns q interview selected df idxs = (df, 0).
Proof.
  induction idxs as [|i rest IH]; intro H; simpl; [reflexivity|].
  assert (E : apply_one fmt2 now subject cm ns q interview selected df i = (df, false)).
  { destruct (nth_error (rows df) i) as [r|] eqn:Hr.
    - apply apply_one_equal with r; [exact Hr|].
      apply (H i r); [left; reflexivity | exact Hr].
    - unfold apply_one. rewrite Hr. reflexivity. }
  rewrite E. rewrite IH; [reflexivity|].
  intros j r Hj. apply H. right. exact Hj.
Qed.

(** A step of the loop on another record leaves a record as it is, the
    creation of a missing ['Notes'] column apart. *)
Lemma apply_one_other_row (now subject cm ns : string) (q : Q) (interview : option string)
      (selected : nat) (df : DataFrame) (idx k : nat) (r : Application) :
  nth_error (rows df) k = Some r -> k <> idx -> has_Notes df = true ->
  nth_error (rows (fst (apply_one fmt2 now subject cm ns q interview selected df idx))) k
  = Some r
  /\ has_Notes (fst (apply_one fmt2 now subject cm ns q interview selected df idx)) = true.
Proof.
  intros Hr Hk Hn. unfold apply_one.
  destruct (nth_error (rows df) idx) as [r0|]; [|simpl; auto].
  destruct (negb (String.eqb ns (Status r0))); [|simpl; auto].
  simpl. split; [|reflexivity]. rewrite Hn.
  apply Nat.eqb_neq in Hk.
  destruct (truthy interview); repeat rewrite nth_error_update_at; rewrite Hk; exact Hr.
Qed.

(** Through the whole loop, a record that already has the new status
    keeps every cell, whichever records the loop updates. *)
Lemma apply_all_keeps_equal_row (now subject cm ns : string) (q : Q)
      (interview : option string) (selected : nat) (idxs : list nat) (k : nat)
      (r : Application) :
  forall df,
    nth_error (rows df) k = Some r -> Status r = ns -> has_Notes df = true ->
    nth_error (rows (fst (apply_all fmt2 now subject cm ns q interview selected df idxs))) k
    = Some r.
Proof.
  induction idxs as [|i rest IH]; intros df Hr Hs Hn; simpl; [exact Hr|].
  destruct (Nat.eq_dec k i) as [->|Hk].
  - rewrite (apply_one_equal now subject cm ns q interview selected df i r Hr Hs).
    pose proof (IH df Hr Hs Hn) as H.
    destruct (apply_all fmt2 now subject cm ns q interview selected df rest). exact H.
  - destruct (apply_one_other_row now subject cm ns q interview selected df i k r Hr Hk Hn)
      as [H1 H2].
    destruct (apply_one fmt2 now subject cm ns q interview selected df i) as [df1 ch].
    simpl in H1, H2. pose proof (IH df1 H1 Hs H2) as H.
    destruct (apply_all fmt2 now subject cm ns q interview selected df1 rest). exact H.
Qed.

(** For a job-related email the loop body is the reconciliation step. *)
Lemma process_job_related (now : string) (df : DataFrame) (c : Counters) (e : Email)
      (j : Judgement) :
  job_related e j ->
  process_message regex_ci fmt2 now df c e
  = let '(df', n, out) := reconcile regex_ci fmt2 now df e j in
    (df', add_updates n (counted_job_related c), out).
Proof.
  intros [A [R U]]. unfold process_message. rewrite A, R, U. reflexivity.
Qed.

Lemma reconcile_gate_closed (now : string) (df : DataFrame) (e : Email) (j : Judgement) :
  gate (resolve_company df j) (status j) (confidence j) = false ->
  reconcile regex_ci fmt2 now df e j
  = (df, 0, NoUpdate (reasons_for fmt2 (resolve_company df j) (company_extracted j)
                                  (status j) (confidence j))).
Proof.
  intro G. unfold reconcile. rewrite G.
  destruct (resolve_company df j); [|reflexivity].
  destruct (status j); reflexivity.
Qed.

Lemma reconcile_gate_open (now : string) (df : DataFrame) (e : Email) (j : Judgement)
      (df' : DataFrame) (n : nat) (out : Outcome) :
  reconcile regex_ci fmt2 now df e j = (df', n, out) ->
  df' <> df \/ n <> 0 ->
  gate (resolve_company df j) (status j) (confidence j) = true.
Proof.
  intros H Hchg.
  destruct (gate (resolve_company df j) (status j) (confidence j)) eqn:G; [reflexivity|].
  rewrite (reconcile_gate_closed now df e j G) in H. inversion H. subst.
  destruct Hchg as [X|X]; exfalso; apply X; reflexivity.
Qed.

Lemma in_optional (x y : string) (b : bool) :
  In x (if b then [y] else []) <-> b = true /\ y = x.
Proof.
  destruct b; simpl; split; intro H.
  - destruct H as [H|[]]. auto.
  - left. tauto.
  - destruct H.
  - destruct H. discriminate.
Qed.

Lemma reasons_company (cm ex st : option string) (q : Q) :
  In ("no company match for '" ++ str_opt ex ++ "'") (reasons_for fmt2 cm ex st q)
  <-> truthy cm = false.
Proof.
  unfold reasons_for. rewrite !in_app_iff, !in_optional, negb_true_iff.
  split; [|intro H; left; split; [exact H | reflexivity]].
  intros [[H _]|[[_ H]|[_ H]]]; [exact H | simpl in H; discriminate
                                 | simpl in H; discriminate].
Qed.

Lemma reasons_status (cm ex st : option string) (q : Q) :
  In ("unclear status ('" ++ str_opt st ++ "')") (reasons_for fmt2 cm ex st q)
  <-> truthy st = false \/ is_text st "Other" = true.
Proof.
  unfold reasons_for. rewrite !in_app_iff, !in_optional, orb_true_iff, !negb_true_iff.
  split; [|intro H; right; left; split; [exact H | reflexivity]].
  intros [[_ H]|[[H _]|[_ H]]]; [simpl in H; discriminate | exact H
                                 | simpl in H; discriminate].
Qed.

Lemma reasons_confidence (cm ex st : option string) (q : Q) :
  In ("low confidence (" ++ fmt2 q ++ ")") (reasons_for fmt2 cm ex st q)
  <-> Qlt_bool q Matcher.threshold = true.
Proof.
  unfold reasons_for. rewrite !in_app_iff, !in_optional.
  split; [|intro H; right; right; split; [exact H | reflexivity]].
  intros [[_ H]|[[_ H]|[H _]]]; [simpl in H; discriminate | simpl in H; discriminate
                                 | exact H].
Qed.

Lemma reasons_nonempty (cm ex st : option string) (q : Q) :
  gate cm st q = false -> reasons_for fmt2 cm ex st q <> [].
Proof.
  unfold gate, reasons_for. intro G.
  destruct (truthy cm); simpl in *; [|discriminate].
  destruct (truthy st); simpl in *; [|discriminate].
  destruct (is_text st "Other"); simpl in *; [discriminate|].
  unfold Qlt_bool. unfold Matcher.threshold in *.
  destruct (Qle_bool (Qmake 6 10) q); simpl in *; discriminate.
Qed.

(** C3: for every job-related email, the store is changed or an update is
    counted only if the resolved company match is present, the status is
    present and not "Other", and the confidence is at least 0.6; when one
    of the three fails, nothing is changed and the outcome is a no-update
    that lists "no company match", "unclear status" and "low confidence"
    for exactly the conditions that failed; with confidence 0.5, a present
    company match and a real status, the outcome is the single reason "low
    confidence (...)". *)
Theorem gate_guards_every_update :
  (forall (now : string) (df : DataFrame) (c : Counters) (e : Email) (j : Judgement)
          (df' : DataFrame) (c' : Counters) (out : Outcome),
      job_related e j ->
      process_message regex_ci fmt2 now df c e = (df', c', out) ->
      df' <> df \/ account_updates c' <> account_updates c ->
      present (resolve_company df j) /\ real_status (status j)
      /\ (Matcher.threshold <= confidence j)%Q)
  /\ (forall (now : string) (df : DataFrame) (c : Counters) (e : Email) (j : Judgement),
         job_related e j ->
         ~ (present (resolve_company df j) /\ real_status (status j)
            /\ (Matcher.threshold <= confidence j)%Q) ->
         exists reasons,
           process_message regex_ci fmt2 now df c e
           = (df, counted_job_related c, NoUpdate reasons)
           /\ reasons <> []
           /\ (In ("no company match for '" ++ str_opt (company_extracted j) ++ "'") reasons
               <-> ~ present (resolve_company df j))
           /\ (In ("unclear status ('" ++ str_opt (status j) ++ "')") reasons
               <-> ~ real_status (status j))
           /\ (In ("low confidence (" ++ fmt2 (confidence j) ++ ")") reasons
               <-> ~ (Matcher.threshold <= confidence j)%Q))
  /\ (forall (now : string) (df : DataFrame) (c : Counters) (e : Email) (j : Judgement),
         job_related e j ->
         present (resolve_company df j) -> real_status (status j) ->
         confidence j = Qmake 5 10 ->
         process_message regex_ci fmt2 now df c e
         = (df, counted_job_related c,
            NoUpdate ["low confidence (" ++ fmt2 (confidence j) ++ ")"])
         /\ prefix "low confidence" ("low confidence (" ++ fmt2 (confidence j) ++ ")")
            = true).
Proof.
  split; [|split].
  - intros now df c e j df' c' out J P Hchg.
    rewrite (process_job_related now df c e j J) in P.
    destruct (reconcile regex_ci fmt2 now df e j) as [[df1 n] out1] eqn:R.
    inversion P; subst. apply gate_true.
    apply (reconcile_gate_open now df e j df' n out R).
    destruct Hchg as [X|X]; [left; exact X|].
    right. intro Z. apply X. rewrite Z. reflexivity.
  - intros now df c e j J NG.
    assert (G : gate (resolve_company df j) (status j) (confidence j) = false).
    { destruct (gate _ _ _) eqn:G; [|reflexivity].
      exfalso. apply NG. apply gate_true. exact G. }
    exists (reasons_for fmt2 (resolve_company df j) (company_extracted j)
                        (status j) (confidence j)).
    split.
    { rewrite (process_job_related now df c e j J).
      rewrite (reconcile_gate_closed now df e j G). reflexivity. }
    split; [apply reasons_nonempty; exact G|].
    split; [|split].
    + rewrite reasons_company, <- truthy_present.
      destruct (truthy (resolve_company df j)); split; congruence.
    + rewrite reasons_status, <- real_status_gate.
      destruct (truthy (status j)); destruct (is_text (status j) "Other"); simpl;
        split; intro X; try discriminate; try tauto;
        try (destruct X; discriminate); try (exfalso; apply X; reflexivity).
    + rewrite reasons_confidence, Qlt_bool_iff. split.
      * intros X Y. exact (Qlt_not_le _ _ X Y).
      * intro X. apply Qnot_le_lt. exact X.
  - intros now df c e j J P S C.
    split; [|reflexivity].
    assert (G : gate (resolve_company df j) (status j) (confidence j) = false).
    { unfold gate. rewrite C. rewrite andb_false_iff. right. reflexivity. }
    rewrite (process_job_related now df c e j J).
    rewrite (reconcile_gate_closed now df e j G).
    unfold reasons_for.
    apply truthy_present in P. rewrite P.
    apply real_status_gate in S. apply andb_true_iff in S. destruct S as [S1 S2].
    rewrite S1. apply negb_true_iff in S2. rewrite S2. rewrite C. reflexivity.
Qed.

(** The failures the scanner recognizes (no response, a response that is
    not a JSON object with the expected keys, an error-shaped response)
    are handled as the specification asks: no judgement is produced, the
    message leaves the frame exactly as it was, the failure counter goes
    up by one while the update, success and job-related counters stay,
    and the loop goes on with the rest of the inbox. *)
Theorem recognized_failure_changes_nothing :
  forall (now : string) (df : DataFrame) (c : Counters) (e : Email) (rest : list Fetch),
    recognized_failure (oracle e) ->
    ai_analyze_job_email (subject e) (content e) (sender_name e) (oracle e) = None
    /\ (exists c',
          process_message regex_ci fmt2 now df c e = (df, c', AiNoResult)
          /\ ai_failures c' = S (ai_failures c)
          /\ account_updates c' = account_updates c
          /\ ai_successes c' = ai_successes c
          /\ job_related_count c' = job_related_count c
          /\ scan_messages regex_ci fmt2 df c (Fetched now e :: rest)
             = scan_messages regex_ci fmt2 df c' rest).
Proof.
  intros now df c e rest F.
  pose proof (OracleFacts.failure_gives_none (subject e) (content e) (sender_name e)
                                            (oracle e) F) as N.
  split; [exact N|].
  exists (incr_failures (incr_processed c)).
  assert (P : process_message regex_ci fmt2 now df c e
              = (df, incr_failures (incr_processed c), AiNoResult)).
  { unfold process_message. rewrite N. reflexivity. }
  split; [exact P|].
  repeat (split; [reflexivity|]).
  simpl. rewrite P. reflexivity.
Qed.

(** C10: a selected record whose status equals the new status is left as
    it is by its step of the loop, with the whole frame: no status write,
    no note, no interview date, and the step reports no update; a step
    that changes anything is a step on a record whose status differs from
    the new one; when all selected records already have the new status the
    loop returns the frame it was given and an update count of 0; and in a
    frame with a ['Notes'] column a record that has the new status keeps
    every cell through the whole loop, whatever is written to the other
    selected records. *)
Theorem equal_status_is_left_alone :
  forall (now subject cm ns : string) (q : Q) (interview : option string)
         (selected : nat) (df : DataFrame),
    (forall idx r,
        nth_error (rows df) idx = Some r -> Status r = ns ->
        apply_one fmt2 now subject cm ns q interview selected df idx = (df, false))
    /\ (forall idx df' changed,
           apply_one fmt2 now subject cm ns q interview selected df idx = (df', changed) ->
           df' <> df \/ changed = true ->
           exists r, nth_error (rows df) idx = Some r /\ Status r <> ns)
    /\ (forall idxs,
           (forall i r, In i idxs -> nth_error (rows df) i = Some r -> Status r = ns) ->
           apply_all fmt2 now subject cm ns q interview selected df idxs = (df, 0))
    /\ (forall idxs k r,
           nth_error (rows df) k = Some r -> Status r = ns -> has_Notes df = true ->
           nth_error
             (rows (fst (apply_all fmt2 now subject cm ns q interview selected df idxs))) k
           = Some r).
Proof.
  intros now subject cm ns q interview selected df. split; [|split; [|split]].
  4: { intros idxs k r Hr Hs Hn.
       exact (apply_all_keeps_equal_row now subject cm ns q interview selected idxs k r
                                        df Hr Hs Hn). }
  - intros idx r Hr Hs. exact (apply_one_equal now subject cm ns q interview selected
                                               df idx r Hr Hs).
  - intros idx df' changed H Hchg.
    destruct (apply_one_changed now subject cm ns q interview selected df idx df' changed H)
      as [A B].
    destruct changed; [apply B; reflexivity|].
    destruct Hchg as [X|X]; [|discriminate].
    exfalso. apply X. apply A. reflexivity.
  - intros idxs H. apply apply_all_equal. exact H.
Qed.

End WithExternals.

Import Samples.

Lemma recognized_failure_changes_nothing_witness :
  let e := email "your application" "we regret to inform you" error_reply in
  ai_analyze_job_email (subject e) (content e) (sender_name e) (oracle e) = None
  /\ (exists c',
        process_message literal_ci two_decimals clock one_application zero_counters e
        = (one_application, c', AiNoResult)
        /\ ai_failures c' = 1
        /\ account_updates c' = 0
        /\ ai_successes c' = 0
        /\ job_related_count c' = 0
        /\ scan_messages literal_ci two_decimals one_application zero_counters
                         (Fetched clock e :: [])
           = scan_messages literal_ci two_decimals one_application c' []).
Proof.
  apply (recognized_failure_changes_nothing literal_ci two_decimals clock one_application
           zero_counters (email "your application" "we regret to inform you" error_reply)
           []).
  simpl. apply fails_dict_error. reflexivity.
Defined.

Lemma gate_guards_every_update_witness :
  let e := email "application update" "thank you for applying"
                 (answer true (Some "Acme") "Rejected" (Qmake 5 10)) in
  process_message literal_ci two_decimals clock one_application zero_counters e
  = (one_application, counted_job_related zero_counters,
     NoUpdate ["low confidence (0.50)"]).
Proof.
  refine (proj1 (proj2 (proj2 (gate_guards_every_update literal_ci two_decimals))
                  clock one_application zero_counters
                  (email "application update" "thank you for applying"
                         (answer true (Some "Acme") "Rejected" (Qmake 5 10)))
                  {| is_job_related := true;
                     company_extracted := Some "Acme";
                     company_match := Some "Acme";
                     status := Some "Rejected";
                     confidence := Qmake 5 10;
                     reasoning := "the employer answers an application";
                     interview_date := None |} _ _ _ _)).
  - split; [vm_compute; reflexivity|]. split; vm_compute; reflexivity.
  - exists "Acme". split; [vm_compute; reflexivity | discriminate].
  - exists "Rejected". split; [reflexivity|]. split; discriminate.
  - reflexivity.
Defined.

Lemma equal_status_is_left_alone_witness :
  let df := frame [application "101" "Data Engineer" "Acme" "Austin, TX" "Rejected"
                               (Some 20240301%Z)] in
  apply_one two_decimals clock "application update" "Acme" "Rejected" (Qmake 9 10)
            (Some "2025-06-10") 1 df 0
  = (df, false).
Proof.
  refine (proj1 (equal_status_is_left_alone two_decimals clock "application update" "Acme"
                   "Rejected" (Qmake 9 10) (Some "2025-06-10") 1
                   (frame [application "101" "Data Engineer" "Acme" "Austin, TX" "Rejected"
                                       (Some 20240301%Z)]))
                0 (application "101" "Data Engineer" "Acme" "Austin, TX" "Rejected"
                               (Some 20240301%Z)) _ _).
  - reflexivity.
  - reflexivity.
Defined.

(** C9 at a failing input: the Oracle names a status outside the nine
    values, with a matching company and confidence 0.9; the reconciler
    writes it into the record. *)
Lemma reconciler_writes_unlisted_status :
  let e := email "application update" "we would like to schedule a phone screen"
                 (answer true (Some "Acme") "Phone Screen" (Qmake 9 10)) in
  forallb StatusManager.valid_status (map Status (rows one_application)) = true
  /\ (exists df' c',
        process_message literal_ci two_decimals clock one_application zero_counters e
        = (df', c', Handled [0] 1)
        /\ map Status (rows df') = ["Phone Screen"]
        /\ account_updates c' = 1)
  /\ StatusManager.valid_status "Phone Screen" = false.
Proof.
  split; [reflexivity|]. split; [|reflexivity].
  eexists. eexists. split; [vm_compute; reflexivity|].
  split; reflexivity.
Qed.

End TrackerFacts.

(** ** The direct status update *)

Module StatusManagerFacts.
Import PyStr Tracker TrackerSpec StatusManager.

Lemma update_at_Forall (P : Application -> Prop) (f : Application -> Application)
      (idx : nat) (rs : list Application) :
  Forall P rs -> (forall r, nth_error rs idx = Some r -> P (f r)) ->
  Forall P (update_at idx f rs).
Proof.
  revert idx. induction rs as [|r rest IH]; intros idx H Hf.
  - destruct idx; constructor.
  - inversion H; subst. destruct idx as [|k]; simpl.
    + constructor; [apply Hf; reflexivity | assumption].
    + constructor; [assumption|]. apply IH; [assumption|].
      intros r' Hr'. apply Hf. exact Hr'.
Qed.

(** The direct update keeps every status within the nine values: it
    refuses any other new status and touches one record only. *)
Lemma update_application_status_valid (now : string) (df : DataFrame)
      (job_id new_status : string) (notes : option string) :
  all_valid df ->
  all_valid (fst (update_application_status now df job_id new_status notes)).
Proof.
  intro H. unfold update_application_status.
  destruct (valid_status new_status) eqn:V; simpl; [|exact H].
  destruct (select_where _ df) as [|[job_idx r] rest]; simpl; [exact H|].
  unfold all_valid in *. simpl.
  assert (S1 : Forall (fun r => valid_status (Status r) = true)
                      (update_at job_idx (set_Status new_status) (rows df))).
  { apply update_at_Forall; [exact H|]. intros r0 _. simpl. exact V. }
  destruct (truthy notes && has_Notes df); [|exact S1].
  destruct (Notes r).
  - apply update_at_Forall; [exact S1|]. intros r0 Hr0. simpl.
    apply (proj1 (Forall_forall _ _) S1 r0). eapply nth_error_In. exact Hr0.
  - apply update_at_Forall; [exact S1|]. intros r0 Hr0. simpl.
    apply (proj1 (Forall_forall _ _) S1 r0). eapply nth_error_In. exact Hr0.
Qed.

End StatusManagerFacts.

(** ** The record selector *)

Module SelectorFacts.
Import PyStr PyStrFacts Tracker TrackerSpec.















Import Samples.



End SelectorFacts.

(** ** Re-running the scan *)

Module RescanFacts.
Import PyStr PyStrFacts Oracle Tracker TrackerSpec.
Local Open Scope list_scope.

(** *** What the scanner writes does not change what it selects *)

Lemma map_erase_update_at (f : Application -> Application) (idx : nat)
      (rs : list Application) :
  (forall r, erase (f r) = erase r) ->
  map erase (update_at idx f rs) = map erase rs.
Proof.
  intro Hf. revert idx. induction rs as [|r rest IH]; intro idx.
  - destruct idx; reflexivity.
  - destruct idx as [|k]; simpl.
    + rewrite Hf. reflexivity.
    + rewrite IH. reflexivity.
Qed.

Lemma map_erase_set_Notes (n : option string) (rs : list Application) :
  map erase (map (set_Notes n) rs) = map erase rs.
Proof.
  rewrite map_map. apply map_ext. intro r. reflexivity.
Qed.

Lemma status_at_rows (df : DataFrame) (k : nat) :
  status_at df k = option_map Status (nth_error (rows df) k).
Proof. unfold status_at. destruct (nth_error (rows df) k); reflexivity. Qed.

Section WithExternals.

Variable regex_ci : string -> option (string -> bool).
Variable fmt2 : Q -> string.

Lemma apply_one_view (now subject cm ns : string) (q : Q) (interview : option string)
      (selected : nat) (df : DataFrame) (idx : nat) :
  erase_df (fst (apply_one fmt2 now subject cm ns q interview selected df idx))
  = erase_df df.
Proof.
  unfold apply_one. destruct (nth_error (rows df) idx) as [r|]; [|reflexivity].
  destruct (negb (String.eqb ns (Status r))); [|reflexivity].
  unfold erase_df; simpl. f_equal.
  destruct (truthy interview); destruct (has_Notes df);
    repeat (rewrite map_erase_update_at by (intro; reflexivity));
    try rewrite map_erase_set_Notes;
    repeat (rewrite map_erase_update_at by (intro; reflexivity));
    reflexivity.
Qed.

Lemma apply_all_view (now subject cm ns : string) (q : Q) (interview : option string)
      (selected : nat) (idxs : list nat) :
  forall df,
    erase_df (fst (apply_all fmt2 now subject cm ns q interview selected df idxs))
    = erase_df df.
Proof.
  induction idxs as [|i rest IH]; intro df; simpl; [reflexivity|].
  pose proof (apply_one_view now subject cm ns q interview selected df i) as H1.
  destruct (apply_one fmt2 now subject cm ns q interview selected df i) as [df1 ch].
  pose proof (IH df1) as H2.
  destruct (apply_all fmt2 now subject cm ns q interview selected df1 rest) as [df2 n].
  simpl in *. congruence.
Qed.

(** The status column after one step of the update loop. *)
Lemma apply_one_status (now subject cm ns : string) (q : Q) (interview : option string)
      (selected : nat) (df : DataFrame) (idx k : nat) :
  status_at (fst (apply_one fmt2 now subject cm ns q interview selected df idx)) k
  = if Nat.eqb k idx
    then match status_at df k with Some _ => Some ns | None => None end
    else status_at df k.
Proof.
  unfold apply_one. destruct (nth_error (rows df) idx) as [r|] eqn:Hr.
  - destruct (String.eqb ns (Status r)) eqn:E; simpl.
    + destruct (Nat.eqb k idx) eqn:K; [|reflexivity].
      apply Nat.eqb_eq in K. subst k. unfold status_at. rewrite Hr.
      apply String.eqb_eq in E. congruence.
    + rewrite !status_at_rows. simpl.
      destruct (truthy interview); destruct (has_Notes df);
        repeat (rewrite TrackerFacts.nth_error_update_at);
        try rewrite nth_error_map;
        repeat (rewrite TrackerFacts.nth_error_update_at);
        destruct (Nat.eqb k idx); destruct (nth_error (rows df) k); reflexivity.
  - simpl. destruct (Nat.eqb k idx) eqn:K; [|reflexivity].
    apply Nat.eqb_eq in K. subst k. unfold status_at. rewrite Hr. reflexivity.
Qed.

Lemma apply_all_status (now subject cm ns : string) (q : Q) (interview : option string)
      (selected : nat) (idxs : list nat) (k : nat) :
  forall df,
    status_at (fst (apply_all fmt2 now subject cm ns q interview selected df idxs)) k
    = if existsb (Nat.eqb k) idxs
      then match status_at df k with Some _ => Some ns | None => None end
      else status_at df k.
Proof.
  induction idxs as [|i rest IH]; intro df; simpl; [reflexivity|].
  pose proof (apply_one_status now subject cm ns q interview selected df i k) as H1.
  destruct (apply_one fmt2 now subject cm ns q interview selected df i) as [df1 ch].
  pose proof (IH df1) as H2.
  destruct (apply_all fmt2 now subject cm ns q interview selected df1 rest) as [df2 n].
  simpl in *. rewrite H2, H1.
  destruct (Nat.eqb k i); destruct (existsb (Nat.eqb k) rest);
    destruct (status_at df k); reflexivity.
Qed.

Lemma in_existsb (k : nat) (idxs : list nat) :
  existsb (Nat.eqb k) idxs = true <-> In k idxs.
Proof.
  rewrite existsb_exists. split.
  - intros [x [H E]]. apply Nat.eqb_eq in E. subst. exact H.
  - intro H. exists k. split; [exact H | apply Nat.eqb_refl].
Qed.

(** After the update loop every selected record has the new status. *)
Lemma apply_all_settles (now subject cm ns : string) (q : Q) (interview : option string)
      (selected : nat) (df : DataFrame) (idxs : list nat) :
  settled (fst (apply_all fmt2 now subject cm ns q interview selected df idxs)) (idxs, ns).
Proof.
  intros i s Hi Hs. simpl in *.
  rewrite apply_all_status in Hs.
  apply in_existsb in Hi. rewrite Hi in Hs.
  destruct (status_at df i); congruence.
Qed.

(** A settled target stays settled under an update that agrees with it. *)
Lemma apply_all_keeps_settled (now subject cm ns : string) (q : Q)
      (interview : option string) (selected : nat) (df : DataFrame) (idxs : list nat)
      (t : Target) :
  settled df t -> agree t (idxs, ns) ->
  settled (fst (apply_all fmt2 now subject cm ns q interview selected df idxs)) t.
Proof.
  intros St Ag i s Hi Hs.
  rewrite apply_all_status in Hs.
  destruct (existsb (Nat.eqb i) idxs) eqn:E.
  - apply in_existsb in E.
    destruct (status_at df i); [|discriminate].
    inversion Hs. subst s. symmetry. apply (Ag i Hi E).
  - apply (St i s Hi Hs).
Qed.

Lemma apply_all_settled (now subject cm ns : string) (q : Q) (interview : option string)
      (selected : nat) (df : DataFrame) (idxs : list nat) :
  settled df (idxs, ns) ->
  apply_all fmt2 now subject cm ns q interview selected df idxs = (df, 0).
Proof.
  intro St. apply TrackerFacts.apply_all_equal.
  intros i r Hi Hr. apply (St i (Status r) Hi).
  unfold status_at. rewrite Hr. reflexivity.
Qed.

Lemma companies_erase (df : DataFrame) : companies (erase_df df) = companies df.
Proof.
  unfold companies, erase_df; simpl. rewrite map_map. reflexivity.
Qed.

Lemma resolve_company_erase (df : DataFrame) (j : Judgement) :
  resolve_company (erase_df df) j = resolve_company df j.
Proof.
  unfold resolve_company. rewrite companies_erase. reflexivity.
Qed.

Lemma where_from_erase (p : Application -> bool) (rs : list Application) :
  (forall r, p (erase r) = p r) ->
  forall i, where_from p (map erase rs) i = map erase_entry (where_from p rs i).
Proof.
  intro Hp. induction rs as [|r rest IH]; intro i; simpl; [reflexivity|].
  rewrite Hp. destruct (p r); simpl; rewrite IH; reflexivity.
Qed.

Lemma select_where_erase (p : Application -> bool) (df : DataFrame) :
  (forall r, p (erase r) = p r) ->
  select_where p (erase_df df) = map erase_entry (select_where p df).
Proof.
  intro Hp. unfold select_where, erase_df; simpl. apply where_from_erase. exact Hp.
Qed.

Lemma find_applications_erase (df : DataFrame) (cm : string) :
  find_applications regex_ci (erase_df df) cm
  = option_map (map erase_entry) (find_applications regex_ci df cm).
Proof.
  unfold find_applications.
  rewrite !select_where_erase by (intro; reflexivity).
  rewrite !length_map.
  destruct (negb (Nat.eqb (List.length (select_where _ df)) 0)); [reflexivity|].
  destruct (negb (Nat.eqb (List.length
              (select_where (fun r => String.eqb (lower (Company r)) (lower cm)) df)) 0));
    [reflexivity|].
  destruct (regex_ci _) as [found|]; [|reflexivity].
  rewrite select_where_erase by (intro; reflexivity).
  rewrite length_map.
  destruct (negb (Nat.eqb (List.length (select_where (fun r => found (Company r)) df)) 0));
    [|reflexivity].
  rewrite map_map. simpl.
  destruct (find _ _); [|reflexivity].
  rewrite select_where_erase by (intro; reflexivity). reflexivity.
Qed.

Lemma specific_match_erase (df : DataFrame) (text : string) (s : Slice) :
  specific_match (erase_df df) (map erase_entry s) text = specific_match df s text.
Proof.
  induction s as [|[i r] rest IH]; simpl; [reflexivity|].
  unfold job_title_of, job_location_of in *. simpl.
  rewrite IH. reflexivity.
Qed.

Lemma idxmax_erase (s : Slice) :
  forall best, idxmax (map erase_entry s) best = idxmax s best.
Proof.
  induction s as [|[i r] rest IH]; intro best; simpl; [reflexivity|].
  destruct (Date_Applied r); destruct best as [[i0 b]|]; try (destruct (Z.ltb b z));
    apply IH.
Qed.

Lemma loc_erase (df : DataFrame) (idx : nat) :
  loc (erase_df df) idx = map erase_entry (loc df idx).
Proof.
  unfold loc, erase_df; simpl. rewrite nth_error_map.
  destruct (nth_error (rows df) idx); reflexivity.
Qed.

Lemma select_records_erase (df : DataFrame) (s : Slice) (subject content : string) :
  select_records (erase_df df) (map erase_entry s) subject content
  = map erase_entry (select_records df s subject content).
Proof.
  unfold select_records. rewrite length_map.
  destruct (1 <? List.length s); [|reflexivity].
  rewrite specific_match_erase.
  destruct (specific_match df s _); [apply loc_erase|].
  destruct (existsb _ bulk_rejection_phrases); [reflexivity|].
  rewrite idxmax_erase.
  destruct (idxmax s None); [apply loc_erase|].
  destruct s as [|[first r] rest]; [reflexivity|]. simpl. apply loc_erase.
Qed.

Lemma map_fst_erase (s : Slice) : map fst (map erase_entry s) = map fst s.
Proof. rewrite map_map. reflexivity. Qed.

(** The decision on an email does not depend on the cells the scanner
    writes. *)
Lemma decision_erase (df : DataFrame) (e : Email) :
  decision regex_ci (erase_df df) e = decision regex_ci df e.
Proof.
  unfold decision.
  destruct (ai_analyze_job_email _ _ _ _) as [j|]; [|reflexivity].
  destruct (is_job_related j && _); [|reflexivity].
  rewrite resolve_company_erase.
  destruct (resolve_company df j) as [cm|]; [|reflexivity].
  destruct (status j) as [ns|]; [|reflexivity].
  destruct (gate _ _ _); [|reflexivity].
  rewrite find_applications_erase.
  destruct (find_applications regex_ci df cm) as [matching|]; [|reflexivity].
  simpl. rewrite length_map.
  destruct (negb (Nat.eqb (List.length matching) 0)); [|reflexivity].
  rewrite select_records_erase, map_fst_erase. reflexivity.
Qed.

Lemma decision_same_view (df1 df2 : DataFrame) (e : Email) :
  same_view df1 df2 -> decision regex_ci df1 e = decision regex_ci df2 e.
Proof.
  intro V. rewrite <- (decision_erase df1), <- (decision_erase df2).
  unfold same_view in V. rewrite V. reflexivity.
Qed.

Lemma target_same_view (df1 df2 : DataFrame) (e : Email) :
  same_view df1 df2 -> target regex_ci df1 e = target regex_ci df2 e.
Proof.
  intro V. unfold target. rewrite (decision_same_view df1 df2 e V). reflexivity.
Qed.

Lemma handled_targets_same_view (df1 df2 : DataFrame) (inbox : list Fetch) :
  same_view df1 df2 ->
  handled_targets regex_ci df1 inbox = handled_targets regex_ci df2 inbox.
Proof.
  intro V. induction inbox as [|f rest IH]; simpl; [reflexivity|].
  destruct f as [| lost rec | | now e]; try exact IH.
  - destruct (lost && rec); [exact IH | reflexivity].
  - rewrite (target_same_view df1 df2 e V), IH. reflexivity.
Qed.

Lemma handled_targets_same_mail (df : DataFrame) (m1 m2 : list Fetch) :
  Forall2 same_fetch m1 m2 ->
  handled_targets regex_ci df m1 = handled_targets regex_ci df m2.
Proof.
  intro H. induction H as [|f1 f2 r1 r2 Hf _ IH]; [reflexivity|].
  destruct f1 as [| l1 c1 | | n1 e1]; destruct f2 as [| l2 c2 | | n2 e2];
    simpl in Hf; try discriminate; try contradiction; simpl.
  - exact IH.
  - inversion Hf; subst. rewrite IH. reflexivity.
  - exact IH.
  - subst e2. rewrite IH. reflexivity.
Qed.

(** *** The loop body in terms of the decision *)

Lemma process_undecided (now : string) (df : DataFrame) (c : Counters) (e : Email) :
  decision regex_ci df e = None ->
  exists c' out,
    process_message regex_ci fmt2 now df c e = (df, c', out)
    /\ account_updates c' = account_updates c.
Proof.
  unfold decision, process_message, reconcile.
  destruct (ai_analyze_job_email _ _ _ _) as [j|]; [|intros _; eauto].
  destruct (is_job_related j) eqn:R; simpl; [|intros _; eauto].
  destruct (contains _ (lower (reasoning j))); simpl; [intros _; eauto|].
  destruct (resolve_company df j) as [cm|]; [|intros _; eauto].
  destruct (status j) as [ns|]; [|intros _; eauto].
  destruct (gate _ _ _); [|intros _; eauto].
  destruct (find_applications regex_ci df cm) as [matching|]; [|intros _; eauto].
  destruct (negb (Nat.eqb (List.length matching) 0)); [discriminate|].
  intros _. eauto.
Qed.

Lemma process_decided (now : string) (df : DataFrame) (c : Counters) (e : Email)
      (j : Judgement) (cm ns : string) (idxs : list nat) :
  decision regex_ci df e = Some (j, cm, ns, idxs) ->
  process_message regex_ci fmt2 now df c e
  = let '(df', n) := apply_all fmt2 now (subject e) cm ns (confidence j)
                               (interview_date j) (List.length idxs) df idxs in
    (df', add_updates n (counted_job_related c), Handled idxs n).
Proof.
  unfold decision, process_message, reconcile.
  destruct (ai_analyze_job_email _ _ _ _) as [j0|]; [|discriminate].
  destruct (is_job_related j0) eqn:R; simpl; [|discriminate].
  destruct (contains _ (lower (reasoning j0))); simpl; [discriminate|].
  destruct (resolve_company df j0) as [cm0|]; [|discriminate].
  destruct (status j0) as [ns0|]; [|discriminate].
  destruct (gate _ _ _); [|discriminate].
  destruct (find_applications regex_ci df cm0) as [matching|]; [|discriminate].
  destruct (negb (Nat.eqb (List.length matching) 0)); [|discriminate].
  intro H. inversion H; subst.
  destruct (apply_all _ _ _ _ _ _ _ _ _ _) as [df' n]. reflexivity.
Qed.

(** One message, seen from its target: the frame keeps its view, the
    target of the message is settled, and targets that agree with it stay
    settled. *)
Lemma process_message_settles (now : string) (df : DataFrame) (c : Counters) (e : Email) :
  let df' := fst (fst (process_message regex_ci fmt2 now df c e)) in
  same_view df' df
  /\ (forall t, target regex_ci df e = Some t -> settled df' t)
  /\ (forall t', settled df t' ->
                 (forall t, target regex_ci df e = Some t -> agree t' t) ->
                 settled df' t').
Proof.
  unfold target.
  destruct (decision regex_ci df e) as [[[[j cm] ns] idxs]|] eqn:D.
  - rewrite (process_decided now df c e j cm ns idxs D).
    pose proof (apply_all_view now (subject e) cm ns (confidence j) (interview_date j)
                               (List.length idxs) idxs df) as V.
    pose proof (apply_all_settles now (subject e) cm ns (confidence j) (interview_date j)
                                  (List.length idxs) df idxs) as S1.
    pose proof (fun t' => apply_all_keeps_settled now (subject e) cm ns (confidence j)
                            (interview_date j) (List.length idxs) df idxs t') as S2.
    destruct (apply_all _ _ _ _ _ _ _ _ _ _) as [df' n]. simpl in *.
    split; [exact V|]. split.
    + intros t E. inversion E. subst. exact S1.
    + intros t' St Ag. apply S2; [exact St|]. apply Ag. reflexivity.
  - destruct (process_undecided now df c e D) as [c' [out [P _]]].
    rewrite P. simpl. split; [reflexivity|]. split; [discriminate|].
    intros t' St _. exact St.
Qed.

(** One message whose target is settled changes nothing. *)
Lemma process_message_quiet (now : string) (df : DataFrame) (c : Counters) (e : Email) :
  (forall t, target regex_ci df e = Some t -> settled df t) ->
  exists c' out,
    process_message regex_ci fmt2 now df c e = (df, c', out)
    /\ account_updates c' = account_updates c.
Proof.
  unfold target. intro H.
  destruct (decision regex_ci df e) as [[[[j cm] ns] idxs]|] eqn:D.
  - rewrite (process_decided now df c e j cm ns idxs D).
    rewrite apply_all_settled by (apply H; reflexivity).
    eexists. eexists. split; reflexivity.
  - apply process_undecided. exact D.
Qed.

(** *** The message loop of one account *)

Lemma scan_messages_step (now : string) (df : DataFrame) (c : Counters) (e : Email)
      (rest : list Fetch) :
  exists c1,
    scan_messages regex_ci fmt2 df c (Fetched now e :: rest)
    = scan_messages regex_ci fmt2 (fst (fst (process_message regex_ci fmt2 now df c e)))
                    c1 rest
    /\ account_updates c1
       = account_updates (snd (fst (process_message regex_ci fmt2 now df c e))).
Proof.
  simpl. destruct (process_message regex_ci fmt2 now df c e) as [[df' c'] out]. simpl.
  destruct out; eexists; split; reflexivity.
Qed.

(** First pass: every target the loop gets to ends up settled, provided
    the targets do not contradict one another. *)
Lemma first_pass (df0 : DataFrame) (inbox : list Fetch) :
  forall (df : DataFrame) (c : Counters) (done : list Target),
    same_view df df0 ->
    Forall (settled df) done ->
    consistent (done ++ handled_targets regex_ci df0 inbox) ->
    let df' := fst (scan_messages regex_ci fmt2 df c inbox) in
    same_view df' df0
    /\ Forall (settled df') (done ++ handled_targets regex_ci df0 inbox).
Proof.
  induction inbox as [|f rest IH]; intros df c done V St Co.
  - simpl. rewrite app_nil_r. auto.
  - destruct f as [| lost rec | | now e].
    + simpl. apply IH; assumption.
    + simpl in *. destruct (lost && rec).
      * apply IH; assumption.
      * simpl. rewrite app_nil_r. auto.
    + simpl. apply IH; assumption.
    + destruct (scan_messages_step now df c e rest) as [c1 [E _]].
      unfold fst at 1. rewrite E. clear E.
      destruct (process_message_settles now df c e) as [V1 [S1 S2]].
      set (df1 := fst (fst (process_message regex_ci fmt2 now df c e))) in *.
      assert (V1' : same_view df1 df0) by (unfold same_view in *; congruence).
      simpl handled_targets in *.
      rewrite <- (target_same_view df df0 e V) in *.
      destruct (target regex_ci df e) as [t|] eqn:T.
      * assert (St1 : Forall (settled df1) (done ++ [t])).
        { apply Forall_app. split.
          - apply Forall_forall. intros t' Ht'. apply S2.
            + apply (proj1 (Forall_forall _ _) St t' Ht').
            + intros t0 E0. inversion E0; subst t0.
              apply Co; apply in_or_app; [left; exact Ht' | right; left; reflexivity].
          - constructor; [apply S1; reflexivity | constructor]. }
        replace (done ++ t :: handled_targets regex_ci df0 rest)
          with ((done ++ [t]) ++ handled_targets regex_ci df0 rest) in *
          by (rewrite <- app_assoc; reflexivity).
        apply IH; assumption.
      * apply IH; [exact V1' | | exact Co].
        apply Forall_forall. intros t' Ht'. apply S2.
        { apply (proj1 (Forall_forall _ _) St t' Ht'). }
        { intros t0 E0. discriminate. }
Qed.

(** Second pass: when every target the loop gets to is settled, the loop
    returns the frame it was given and counts no update. *)
Lemma second_pass (inbox : list Fetch) :
  forall (df : DataFrame) (c : Counters),
    Forall (settled df) (handled_targets regex_ci df inbox) ->
    exists c',
      scan_messages regex_ci fmt2 df c inbox = (df, c')
      /\ account_updates c' = account_updates c.
Proof.
  induction inbox as [|f rest IH]; intros df c St.
  - simpl. eauto.
  - destruct f as [| lost rec | | now e].
    + simpl in *. destruct (IH df (incr_processed c) St) as [c' [E A]]. eauto.
    + simpl in *. destruct (lost && rec).
      * destruct (IH df (incr_processed c) St) as [c' [E A]]. eauto.
      * eauto.
    + simpl in *. destruct (IH df (incr_processed c) St) as [c' [E A]]. eauto.
    + destruct (scan_messages_step now df c e rest) as [c1 [E A1]].
      rewrite E. clear E.
      destruct (process_message_quiet now df c e) as [c2 [out [P A2]]].
      { intros t T. simpl in St. rewrite T in St. inversion St. assumption. }
      rewrite P in *. simpl in *.
      destruct (IH df c1) as [c' [E A]].
      { destruct (target regex_ci df e); [inversion St; assumption | exact St]. }
      exists c'. split; [exact E | congruence].
Qed.

(** The update counter never goes down, and the frame changes only when
    it goes up. *)
Lemma apply_all_count (now subject cm ns : string) (q : Q) (interview : option string)
      (selected : nat) (idxs : list nat) :
  forall df,
    snd (apply_all fmt2 now subject cm ns q interview selected df idxs) = 0 ->
    fst (apply_all fmt2 now subject cm ns q interview selected df idxs) = df.
Proof.
  induction idxs as [|i rest IH]; intro df; simpl; [reflexivity|].
  pose proof (TrackerFacts.apply_one_changed fmt2 now subject cm ns q interview selected
                                             df i) as H1.
  destruct (apply_one fmt2 now subject cm ns q interview selected df i) as [df1 ch].
  pose proof (IH df1) as H2.
  destruct (apply_all fmt2 now subject cm ns q interview selected df1 rest) as [df2 n].
  simpl in *. intro Z. destruct ch; [discriminate|].
  destruct (H1 df1 false eq_refl) as [A _].
  rewrite <- (A eq_refl). apply H2. exact Z.
Qed.

Lemma process_message_count (now : string) (df : DataFrame) (c : Counters) (e : Email) :
  let r := process_message regex_ci fmt2 now df c e in
  account_updates c <= account_updates (snd (fst r))
  /\ (account_updates (snd (fst r)) = account_updates c -> fst (fst r) = df).
Proof.
  destruct (decision regex_ci df e) as [[[[j cm] ns] idxs]|] eqn:D.
  - rewrite (process_decided now df c e j cm ns idxs D).
    pose proof (apply_all_count now (subject e) cm ns (confidence j) (interview_date j)
                                (List.length idxs) idxs df) as Z.
    destruct (apply_all _ _ _ _ _ _ _ _ _ _) as [df' n]. simpl in *.
    split; [lia|]. intro H. apply Z. lia.
  - destruct (process_undecided now df c e D) as [c' [out [P A]]].
    rewrite P. simpl. split; [lia | reflexivity].
Qed.

Lemma scan_messages_count (inbox : list Fetch) :
  forall (df : DataFrame) (c : Counters),
    let r := scan_messages regex_ci fmt2 df c inbox in
    account_updates c <= account_updates (snd r)
    /\ (account_updates (snd r) = account_updates c -> fst r = df).
Proof.
  induction inbox as [|f rest IH]; intros df c.
  - simpl. split; [lia | reflexivity].
  - destruct f as [| lost rec | | now e].
    + simpl. apply (IH df (incr_processed c)).
    + simpl. destruct (lost && rec).
      * apply (IH df (incr_processed c)).
      * simpl. split; [lia | reflexivity].
    + simpl. apply (IH df (incr_processed c)).
    + destruct (scan_messages_step now df c e rest) as [c1 [E A1]].
      intro r. subst r. rewrite E. clear E.
      destruct (process_message_count now df c e) as [M1 M2].
      destruct (IH (fst (fst (process_message regex_ci fmt2 now df c e))) c1) as [N1 N2].
      rewrite A1 in *. split; [lia|].
      intro H. rewrite N2 by lia. apply M2. lia.
Qed.

(** *** The loop over the accounts *)

Lemma first_run (df0 : DataFrame) (accounts : list Account) :
  forall (run : Run) (done : list Target),
    run_invariant df0 done run ->
    consistent (done ++ run_targets regex_ci df0 accounts) ->
    run_invariant df0 (done ++ run_targets regex_ci df0 accounts)
                  (fold_left (scan_account regex_ci fmt2) accounts run).
Proof.
  induction accounts as [|a rest IH]; intros run done Inv Co.
  - simpl. rewrite app_nil_r. exact Inv.
  - simpl fold_left. unfold run_targets in *. simpl flat_map in *.
    fold (run_targets regex_ci df0 rest) in *.
    rewrite app_assoc in *.
    apply IH; [|exact Co].
    destruct Inv as [V [C St]].
    destruct a as [| | messages]; simpl.
    + rewrite app_nil_r. repeat split; assumption.
    + rewrite app_nil_r. repeat split; assumption.
    + assert (Co' : consistent (done ++ handled_targets regex_ci df0 messages)).
      { intros t1 t2 H1 H2. apply Co; apply in_or_app; left; assumption. }
      destruct (first_pass df0 messages (applications_df run) zero_counters done V St Co')
        as [V' St'].
      destruct (scan_messages_count messages (applications_df run) zero_counters)
        as [_ Q].
      destruct (scan_messages regex_ci fmt2 (applications_df run) zero_counters messages)
        as [df c]. simpl in *.
      destruct (0 <? account_updates c) eqn:U; simpl.
      * repeat split; assumption.
      * apply Nat.ltb_ge in U.
        assert (E : df = applications_df run) by (apply Q; lia).
        subst df. repeat split; assumption.
Qed.

Lemma second_run (accounts : list Account) :
  forall (run : Run),
    Forall (settled (applications_df run))
           (run_targets regex_ci (applications_df run) accounts) ->
    let run' := fold_left (scan_account regex_ci fmt2) accounts run in
    applications_df run' = applications_df run
    /\ csv_file run' = csv_file run
    /\ total_updates run' = total_updates run.
Proof.
  induction accounts as [|a rest IH]; intros run St.
  - simpl. auto.
  - simpl fold_left. unfold run_targets in St. simpl flat_map in St.
    fold (run_targets regex_ci (applications_df run) rest) in St.
    apply Forall_app in St. destruct St as [St1 St2].
    assert (Step : applications_df (scan_account regex_ci fmt2 run a) = applications_df run
                   /\ csv_file (scan_account regex_ci fmt2 run a) = csv_file run
                   /\ total_updates (scan_account regex_ci fmt2 run a) = total_updates run).
    { destruct a as [| | messages]; simpl; auto.
      destruct (second_pass messages (applications_df run) zero_counters St1)
        as [c' [E A]].
      rewrite E. simpl in A. rewrite A. simpl. auto. }
    destruct Step as [E1 [E2 E3]].
    destruct (IH (scan_account regex_ci fmt2 run a)) as [F1 [F2 F3]].
    { rewrite E1. exact St2. }
    simpl. rewrite F1, F2, F3. auto.
Qed.

Lemma run_targets_same_view (df1 df2 : DataFrame) (accounts : list Account) :
  same_view df1 df2 ->
  run_targets regex_ci df1 accounts = run_targets regex_ci df2 accounts.
Proof.
  intro V. unfold run_targets. induction accounts as [|a rest IH]; simpl; [reflexivity|].
  rewrite IH. destruct a; try reflexivity.
  rewrite (handled_targets_same_view df1 df2 messages V). reflexivity.
Qed.

Lemma run_targets_same_mail (df : DataFrame) (a1 a2 : list Account) :
  Forall2 same_account a1 a2 ->
  run_targets regex_ci df a1 = run_targets regex_ci df a2.
Proof.
  intro H. unfold run_targets. induction H as [|x y r1 r2 Hxy _ IH]; [reflexivity|].
  simpl. rewrite IH.
  destruct x as [| | m1]; destruct y as [| | m2]; simpl in Hxy;
    try discriminate; try contradiction; try reflexivity.
  rewrite (handled_targets_same_mail df m1 m2 Hxy). reflexivity.
Qed.

Lemma status_at_same (df1 df2 : DataFrame) (k : nat) :
  map Status (rows df1) = map Status (rows df2) -> status_at df1 k = status_at df2 k.
Proof.
  intro H. rewrite !status_at_rows, <- !nth_error_map, H. reflexivity.
Qed.

Lemma settled_same (df1 df2 : DataFrame) (t : Target) :
  map Status (rows df1) = map Status (rows df2) -> settled df2 t -> settled df1 t.
Proof.
  intros H St i st Hi Hs. rewrite (status_at_same df1 df2 i H) in Hs.
  exact (St i st Hi Hs).
Qed.

(** C1, as the source has it: when no two messages the scan gets to give
    one record two different statuses, and the table the first run wrote
    is read back by the loader with the statuses and the cells the scan
    reads as they were written, a second run over the same mailboxes,
    started from the table loaded again, changes no record: it reports
    zero updates, leaves the frame as loaded and does not rewrite the
    file, every record selected for a message holding that message's
    status after the first run.  A record is changed only by a message
    whose status differs from the one the record holds. *)
Theorem rescan_without_conflicts_is_idempotent :
  forall (read_column : list string -> list (option string))
         (loaded : DataFrame) (accounts again : list Account),
    Forall2 same_account accounts again ->
    consistent (run_targets regex_ci loaded accounts) ->
    reads_back read_column
               (csv_file (scan_for_status_updates regex_ci fmt2 loaded accounts)) ->
    let first := scan_for_status_updates regex_ci fmt2 loaded accounts in
    let reloaded := load_applications read_column (csv_file first) in
    let second := scan_for_status_updates regex_ci fmt2 reloaded again in
    total_updates second = 0
    /\ applications_df second = reloaded
    /\ csv_file second = reloaded
    /\ csv_file first = applications_df first
    /\ Forall (settled (csv_file first)) (run_targets regex_ci loaded accounts)
    /\ Forall (settled reloaded) (run_targets regex_ci reloaded again)
    /\ (forall now subject cm ns q interview selected df idx df' changed,
           apply_one fmt2 now subject cm ns q interview selected df idx = (df', changed) ->
           df' <> df ->
           exists r, nth_error (rows df) idx = Some r /\ Status r <> ns).
Proof.
  intros read_column loaded accounts again Same Co Back first reloaded second.
  assert (Only : forall now subject cm ns q interview selected df idx df' changed,
             apply_one fmt2 now subject cm ns q interview selected df idx = (df', changed) ->
             df' <> df ->
             exists r, nth_error (rows df) idx = Some r /\ Status r <> ns).
  { intros now subject cm ns q interview selected df idx df' changed H N.
    destruct (TrackerFacts.apply_one_changed fmt2 now subject cm ns q interview selected
                                             df idx df' changed H) as [A B].
    destruct changed; [apply B; reflexivity|].
    exfalso. apply N. apply A. reflexivity. }
  fold first in Back. fold reloaded in Back. destruct Back as [View Statuses].
  unfold scan_for_status_updates in first.
  set (start := {| applications_df := loaded; csv_file := loaded;
                   total_updates := 0; accounts_scanned := 0 |}) in first.
  assert (Inv0 : run_invariant loaded [] start).
  { repeat split; simpl; constructor. }
  pose proof (first_run loaded accounts start [] Inv0 Co) as [V [C St]].
  fold first in V, C, St. simpl in St.
  assert (St2 : Forall (settled reloaded) (run_targets regex_ci reloaded again)).
  { rewrite <- (run_targets_same_mail reloaded accounts again Same).
    rewrite (run_targets_same_view reloaded (csv_file first) accounts View).
    rewrite C.
    rewrite (run_targets_same_view (applications_df first) loaded accounts V).
    apply Forall_forall. intros t Ht.
    apply (settled_same reloaded (csv_file first) t Statuses).
    rewrite C. exact (proj1 (Forall_forall _ _) St t Ht). }
  unfold second, scan_for_status_updates.
  set (start2 := {| applications_df := reloaded; csv_file := reloaded;
                    total_updates := 0; accounts_scanned := 0 |}).
  destruct (second_run again start2 St2) as [E1 [E2 E3]].
  simpl in *. rewrite E1, E2, E3, C. auto 10.
Qed.

End WithExternals.

Import Samples.

Lemma rescan_without_conflicts_is_idempotent_witness :
  let rejection := email "application update" "unfortunately we chose another candidate"
                         (answer true (Some "Acme") "Rejected" (Qmake 9 10)) in
  let failure := email "your application" "we regret to inform you" error_reply in
  let accounts := [Inbox [Fetched clock rejection; FetchNotOK; Fetched clock failure;
                          Fetched clock rejection]; SearchNotOK] in
  let again := [Inbox [Fetched later rejection; FetchNotOK; Fetched later failure;
                       Fetched later rejection]; SearchNotOK] in
  let first := scan_for_status_updates literal_ci two_decimals one_application accounts in
  let reloaded := load_applications read_text_column (csv_file first) in
  let second := scan_for_status_updates literal_ci two_decimals reloaded again in
  total_updates first = 1
  /\ map Status (rows (csv_file first)) = ["Rejected"]
  /\ map Status (rows reloaded) = ["Rejected"]
  /\ total_updates second = 0
  /\ applications_df second = reloaded
  /\ csv_file second = reloaded.
Proof.
  intros rejection failure accounts again first reloaded second.
  split; [vm_compute; reflexivity|]. split; [vm_compute; reflexivity|].
  split; [vm_compute; reflexivity|].
  destruct (rescan_without_conflicts_is_idempotent literal_ci two_decimals
              read_text_column one_application accounts again) as [A [B [C _]]].
  - repeat constructor.
  - intros t1 t2 H1 H2. vm_compute in H1, H2.
    destruct H1 as [<-|[<-|[]]]; destruct H2 as [<-|[<-|[]]]; intros i _ _; reflexivity.
  - split; vm_compute; reflexivity.
  - auto.
Defined.

(** Why the table has to be read back as written: a status that passes
    the gate and that [read_csv] takes for a missing value ("N/A") is
    written by the first run, loaded as the empty text, and written
    again by the second run, by a single message. *)
Example missing_value_status_is_applied_again :
  let accounts := [Inbox not_available] in
  let first := scan_for_status_updates literal_ci two_decimals one_application accounts in
  let reloaded := load_applications read_text_column (csv_file first) in
  let second := scan_for_status_updates literal_ci two_decimals reloaded accounts in
  total_updates first = 1
  /\ map Status (rows (csv_file first)) = ["N/A"]
  /\ map Status (rows reloaded) = [EmptyString]
  /\ total_updates second = 1.
Proof.
  repeat split; vm_compute; reflexivity.
Qed.

(** C1 as stated fails when the mailbox holds two messages that give the
    same record different statuses: the second run rewrites the record
    twice more. *)
Lemma conflicting_messages_are_applied_again :
  let accounts := [Inbox two_verdicts] in
  let first := scan_for_status_updates literal_ci two_decimals one_application accounts in
  let second := scan_for_status_updates literal_ci two_decimals (csv_file first) accounts in
  total_updates first = 2
  /\ map Status (rows (csv_file first)) = ["Interview Scheduled"]
  /\ total_updates second = 2
  /\ total_updates second <> 0
  /\ csv_file second <> csv_file first.
Proof.
  split; [vm_compute; reflexivity|]. split; [vm_compute; reflexivity|].
  split; [vm_compute; reflexivity|]. split; [vm_compute; discriminate|].
  vm_compute. discriminate.
Qed.

End RescanFacts.

(** ** The text normalizer *)

Module NormalizerFacts.
Import PyStr PyStrFacts Normalizer.

Lemma lower_char_not_upper (c : ascii) : is_upper (lower_char c) = false.
Proof. destruct c as [[] [] [] [] [] [] [] []]; reflexivity. Qed.

Lemma all_chars_weaken (p q : ascii -> bool) (s : string) :
  (forall c, p c = true -> q c = true) -> all_chars p s = true -> all_chars q s = true.
Proof.
  intro H. induction s as [|c r IH]; simpl; [reflexivity|].
  rewrite !andb_true_iff. intros [A B]. split; [apply H; exact A | apply IH; exact B].
Qed.

Lemma lower_no_upper (s : string) :
  all_chars (fun c => negb (is_upper c)) (lower s) = true.
Proof.
  induction s as [|c r IH]; simpl; [reflexivity|].
  rewrite lower_char_not_upper, IH. reflexivity.
Qed.

Lemma lstrip_all_chars (p : ascii -> bool) (s : string) :
  all_chars p s = true -> all_chars p (lstrip s) = true.
Proof.
  induction s as [|c r IH]; simpl; [reflexivity|].
  intro H. destruct (is_space c); [|exact H].
  apply andb_true_iff in H. apply IH. apply H.
Qed.

Lemma rstrip_all_chars (p : ascii -> bool) (s : string) :
  all_chars p s = true -> all_chars p (rstrip s) = true.
Proof.
  induction s as [|c r IH]; [reflexivity|].
  intro H. cbn [rstrip]. destruct (all_space (String c r)); [reflexivity|].
  simpl in *. apply andb_true_iff in H. destruct H as [A B].
  rewrite A, (IH B). reflexivity.
Qed.

Lemma collapse_clean (s : string) :
  forall in_run,
    all_chars (fun c => negb (is_upper c)) s = true ->
    all_chars clean_char (collapse in_run s) = true.
Proof.
  induction s as [|c r IH]; intros in_run H; simpl; [reflexivity|].
  simpl in H. apply andb_true_iff in H. destruct H as [A B].
  destruct (is_space c) eqn:S.
  - destruct in_run; simpl; [apply IH; exact B|].
    rewrite (IH true B). reflexivity.
  - simpl. unfold clean_char at 1. rewrite A, S. simpl. apply IH. exact B.
Qed.

Lemma remove_tags_clean (s : string) :
  forall inside,
    all_chars clean_char s = true ->
    all_chars clean_char (remove_tags inside s) = true.
Proof.
  induction s as [|c r IH]; intros inside H; [reflexivity|].
  simpl in H. apply andb_true_iff in H. destruct H as [A B].
  cbn [remove_tags]. destruct inside.
  - destruct (Ascii.eqb c ">"%char); apply IH; exact B.
  - destruct (Ascii.eqb c "<"%char).
    + destruct r as [|d r'].
      * simpl. rewrite A. reflexivity.
      * destruct (negb (Ascii.eqb d ">"%char) && has_gt r').
        { cbn [all_chars]. rewrite (IH true B). reflexivity. }
        { cbn [all_chars]. rewrite A, (IH false B). reflexivity. }
    + cbn [all_chars]. rewrite A, (IH false B). reflexivity.
Qed.

(** X1: whatever the text, [clean_text] returns no capital letter and no
    whitespace character other than the plain space (no tab, no line
    break). *)
Theorem clean_text_alphabet :
  forall text, all_chars clean_char (clean_text text) = true.
Proof.
  intro text. unfold clean_text.
  apply remove_tags_clean, collapse_clean.
  unfold strip. apply rstrip_all_chars, lstrip_all_chars, lower_no_upper.
Qed.

Lemma has_gt_remove_tags (text : string) :
  forall inside, has_gt (remove_tags inside text) = true -> has_gt text = true.
Proof.
  induction text as [|c r IH]; intros inside H; [destruct inside; exact H|].
  change (Ascii.eqb c ">"%char || has_gt r = true).
  destruct (Ascii.eqb c ">"%char) eqn:G; [reflexivity|].
  change (has_gt r = true).
  destruct inside.
  - cbn [remove_tags] in H. rewrite G in H. exact (IH true H).
  - cbn [remove_tags] in H.
    assert (K : has_gt (String c (remove_tags false r)) = true -> has_gt r = true).
    { intro H'. change (Ascii.eqb c ">"%char || has_gt (remove_tags false r) = true) in H'.
      rewrite G in H'. exact (IH false H'). }
    destruct (Ascii.eqb c "<"%char); [|exact (K H)].
    destruct r as [|d r'].
    + change (Ascii.eqb c ">"%char || false = true) in H. rewrite G in H. discriminate.
    + destruct (negb (Ascii.eqb d ">"%char) && has_gt r'); [|exact (K H)].
      change (false || has_gt (remove_tags true (String d r')) = true) in H.
      exact (IH true H).
Qed.

Lemma has_gt_tail (d : ascii) (r : string) :
  has_gt (String d r) = false -> Ascii.eqb d ">"%char = false /\ has_gt r = false.
Proof. simpl. intro H. apply orb_false_iff in H. exact H. Qed.

Lemma remove_tags_outside (c : ascii) (r : string) :
  remove_tags false (String c r)
  = if Ascii.eqb c "<"%char then
      match r with
      | String d r' =>
          if negb (Ascii.eqb d ">"%char) && has_gt r'
          then String " "%char (remove_tags true r)
          else String c (remove_tags false r)
      | EmptyString => String c EmptyString
      end
    else String c (remove_tags false r).
Proof. reflexivity. Qed.

Lemma remove_tags_keep (c : ascii) (r : string) :
  Ascii.eqb c "<"%char = false ->
  remove_tags false (String c r) = String c (remove_tags false r).
Proof. intro H. rewrite remove_tags_outside, H. reflexivity. Qed.

Lemma remove_tags_inside (c : ascii) (r : string) :
  remove_tags true (String c r)
  = if Ascii.eqb c ">"%char then remove_tags false r else remove_tags true r.
Proof. reflexivity. Qed.

Lemma remove_tags_twice (text : string) :
  remove_tags false (remove_tags false text) = remove_tags false text
  /\ remove_tags false (remove_tags true text) = remove_tags true text.
Proof.
  induction text as [|c r [IH1 IH2]]; [split; reflexivity|].
  split.
  - rewrite (remove_tags_outside c r).
    destruct (Ascii.eqb c "<"%char) eqn:L.
    + apply Ascii.eqb_eq in L. subst c.
      destruct r as [|d r']; [reflexivity|].
      destruct (negb (Ascii.eqb d ">"%char) && has_gt r') eqn:T.
      * rewrite remove_tags_keep by reflexivity. rewrite IH2. reflexivity.
      * destruct (remove_tags false (String d r')) as [|d2 x] eqn:X; [reflexivity|].
        rewrite (remove_tags_outside "<" (String d2 x)).
        change (Ascii.eqb "<" "<") with true. cbv iota.
        assert (K : negb (Ascii.eqb d2 ">"%char) && has_gt x = false).
        { destruct (Ascii.eqb d ">"%char) eqn:G.
          - apply Ascii.eqb_eq in G. subst d.
            rewrite remove_tags_keep in X by reflexivity.
            inversion X; subst. reflexivity.
          - simpl in T.
            destruct (has_gt (String d2 x)) eqn:H.
            + pose proof (has_gt_remove_tags (String d r') false) as Z.
              rewrite X in Z. specialize (Z H).
              change (Ascii.eqb d ">"%char || has_gt r' = true) in Z.
              rewrite G, T in Z. discriminate.
            + apply has_gt_tail in H. destruct H as [_ H]. rewrite H.
              apply andb_false_r. }
        rewrite K. f_equal. exact IH1.
    + rewrite remove_tags_keep by exact L. rewrite IH1. reflexivity.
  - rewrite remove_tags_inside. destruct (Ascii.eqb c ">"%char); assumption.
Qed.

(** X17: no tag is left in a cleaned text: taking the tags out of the
    result of [clean_text] again changes nothing. *)
Theorem clean_text_leaves_no_tag :
  forall text, remove_tags false (clean_text text) = clean_text text.
Proof.
  intro text. unfold clean_text. apply (proj1 (remove_tags_twice _)).
Qed.

End NormalizerFacts.

(** ** What the company matcher can return *)

Module MatcherSoundness.
Import PyStr PyStrFacts Matcher MatcherSpec ScanSpec.
Local Open Scope list_scope.

(** Either no element of the list passes the test, or there is a first one
    that does. *)
Lemma first_hit (h : string -> bool) (cs : list string) :
  (forall c, In c cs -> h c = false)
  \/ (exists l1 c l2, cs = l1 ++ c :: l2 /\ h c = true
                      /\ forall c', In c' l1 -> h c' = false).
Proof.
  induction cs as [|c0 cs IH].
  - left. intros c [].
  - destruct (h c0) eqn:H0.
    + right. exists [], c0, cs. split; [reflexivity|]. split; [exact H0|]. intros c' [].
    + destruct IH as [IH|[l1 [c [l2 [E [Hc Hl1]]]]]].
      * left. intros c [<-|Hin]; [exact H0 | apply IH; exact Hin].
      * right. exists (c0 :: l1), c, l2. split; [rewrite E; reflexivity|].
        split; [exact Hc|]. intros c' [<-|Hin]; [exact H0 | apply Hl1; exact Hin].
Qed.

Lemma score_at_most_one (a b : string) : (score a b <= 1)%Q.
Proof.
  unfold score, Qle. simpl. rewrite Z.mul_1_r.
  destruct (Nat.max (length a) (length b)) as [|m] eqn:M.
  - assert (Nat.min (length a) (length b) = 0) by lia. rewrite H. simpl. lia.
  - rewrite <- M. rewrite <- positive_nat_Z.
    rewrite Nat2Pos.id by lia. lia.
Qed.

Lemma acronym_match_sound (email_letters : string) (cs : list string) (c : string) :
  acronym_match email_letters cs = Some c ->
  In c cs /\ email_letters = letters c /\ 2 < length email_letters.
Proof.
  induction cs as [|c0 cs IH]; simpl; [discriminate|].
  destruct (String.eqb email_letters (letters c0) && (2 <? length email_letters)) eqn:H.
  - intro E. inversion E; subst c0.
    apply andb_true_iff in H. destruct H as [H1 H2].
    apply String.eqb_eq in H1. apply Nat.ltb_lt in H2. auto.
  - intro E. destruct (IH E) as [A B]. auto.
Qed.

Lemma letters_of_empty : letters EmptyString = EmptyString.
Proof. reflexivity. Qed.

(** X2: the matcher never invents a company and never returns a weak
    match.  A returned company is a non-empty member of the list it was
    given, and its score is justified by one of the three tiers: 1.0 with
    a common non-empty variant; or the length ratio of a pair of variants
    one inside the other, above 0.6 and at most 1; or 0.85 with equal
    letters and digits, more than two of them.  Without a company the
    score is 0.0. *)
Theorem match_is_justified :
  forall (email_company : string) (cs : list string) (s : Q),
    (forall c,
        fuzzy_company_match email_company cs = (Some c, s) ->
        In c cs /\ c <> EmptyString /\ justified email_company c s)
    /\ (fuzzy_company_match email_company cs = (None, s) -> s = zero_score).
Proof.
  intros email_company cs s. unfold fuzzy_company_match.
  destruct (nonempty email_company) eqn:Hne; simpl.
  2: { split; [intros c H; discriminate | intro H; inversion H; reflexivity]. }
  destruct (first_hit (fun c => existsb exact_pair
                                  (variant_pairs (normalize_company email_company) c)) cs)
    as [Hno | [l1 [c0 [l2 [E [Hc Hl1]]]]]].
  - destruct (MatcherFacts.check_companies_step (normalize_company email_company) cs
                [] None zero_score) as [bm [bs [R Inv]]].
    + simpl. split; [reflexivity|]. intros ? ? ? [].
    + exact Hno.
    + rewrite R. simpl in Inv. destruct bm as [c1|]; simpl in Inv.
      * destruct Inv as [ev [cv [Hin [L [Hbs [Hth _]]]]]].
        apply MatcherFacts.in_all_pairs in Hin. destruct Hin as [Hc1 [Hev Hcv]].
        assert (N1 : nonempty c1 = true).
        { destruct L as [_ [Hcvne _]].
          exact (MatcherFacts.variant_of_nonempty c1 cv Hcv Hcvne). }
        simpl. rewrite N1. simpl. split; [|discriminate].
        intros c H. inversion H; subst c s.
        split; [exact Hc1|]. split; [apply nonempty_true; exact N1|].
        right. left. exists ev, cv.
        split; [exact (conj Hev (conj Hcv L))|]. split; [exact Hbs|].
        split; [exact Hth|]. rewrite Hbs. apply score_at_most_one.
      * destruct Inv as [Hbs _]. simpl.
        destruct (acronym_match (letters email_company) cs) as [c1|] eqn:A.
        { split; [|discriminate]. intros c H. inversion H; subst c s.
          destruct (acronym_match_sound _ _ _ A) as [A1 [A2 A3]].
          split; [exact A1|]. split.
          - intro Z. subst c1. rewrite letters_of_empty in A2.
            rewrite A2 in A3. simpl in A3. lia.
          - right. right. split; [reflexivity|]. split; assumption. }
        { split; [intros c H; discriminate|]. intro H. inversion H. subst. reflexivity. }
  - rewrite E.
    rewrite (MatcherFacts.check_companies_found (normalize_company email_company)
               l1 c0 l2 None zero_score Hl1 Hc).
    split; [|discriminate]. intros c H. inversion H; subst c s.
    apply MatcherFacts.shares_variant_hit in Hc.
    split; [apply in_or_app; right; left; reflexivity|]. split.
    + destruct Hc as [v [Hv [_ Hin]]]. apply nonempty_true.
      exact (MatcherFacts.variant_of_nonempty c0 v Hin Hv).
    + left. split; [reflexivity | exact Hc].
Qed.

Lemma match_is_justified_witness :
  In "ATT" ["Globex"; "ATT"] /\ "ATT" <> EmptyString
  /\ justified "AT&T" "ATT" acronym_score.
Proof.
  apply (proj1 (match_is_justified "AT&T" ["Globex"; "ATT"] acronym_score) "ATT").
  reflexivity.
Defined.

Lemma lower_char_idempotent (c : ascii) : lower_char (lower_char c) = lower_char c.
Proof. destruct c as [[] [] [] [] [] [] [] []]; reflexivity. Qed.

Lemma lower_idempotent (s : string) : lower (lower s) = lower s.
Proof.
  induction s as [|c r IH]; simpl; [reflexivity|].
  rewrite lower_char_idempotent, IH. reflexivity.
Qed.

Lemma nonempty_lower (s : string) : nonempty (lower s) = nonempty s.
Proof. destruct s; reflexivity. Qed.

Lemma normalize_lower (s : string) : normalize_company (lower s) = normalize_company s.
Proof. unfold normalize_company. rewrite lower_idempotent. reflexivity. Qed.

Lemma letters_lower (s : string) : letters (lower s) = letters s.
Proof. unfold letters. rewrite lower_idempotent. reflexivity. Qed.

(** X3: the matcher ignores the letter case of the candidate: two
    candidate names that differ only in case get the same company and the
    same score. *)
Theorem match_ignores_candidate_case :
  forall (e1 e2 : string) (cs : list string),
    lower e1 = lower e2 ->
    fuzzy_company_match e1 cs = fuzzy_company_match e2 cs.
Proof.
  intros e1 e2 cs H. unfold fuzzy_company_match.
  rewrite <- (nonempty_lower e1), <- (nonempty_lower e2).
  rewrite <- (normalize_lower e1), <- (normalize_lower e2).
  rewrite <- (letters_lower e1), <- (letters_lower e2).
  rewrite H. reflexivity.
Qed.

Lemma match_ignores_candidate_case_witness :
  fuzzy_company_match "ACME inc." ["Acme"; "Other Co"]
  = fuzzy_company_match "acme INC." ["Acme"; "Other Co"].
Proof.
  apply (match_ignores_candidate_case "ACME inc." "acme INC." ["Acme"; "Other Co"]).
  reflexivity.
Defined.



End MatcherSoundness.

(** ** The consistency corrector beyond rejections *)

Module CorrectorFacts.
Import PyStr PyStrFacts Oracle OracleSpec.

Ltac split_conditions :=
  repeat match goal with
         | |- context [if ?b then _ else _] => destruct b eqn:?; simpl
         end.

Lemma Qlt_bool_le (x y : Q) : Qlt_bool x y = true -> (x <= y)%Q.
Proof. intro H. apply Qlt_le_weak, Qlt_bool_iff. exact H. Qed.

Lemma is_text_other (o : option string) : is_text o "Other" = true -> o = Some "Other".
Proof.
  destruct o as [x|]; simpl; [|discriminate].
  intro H. apply String.eqb_eq in H. subst. reflexivity.
Qed.

Lemma correct_company_match (subject content : string) (j : Judgement) :
  company_match (correct subject content j) = company_match j.
Proof.
  destruct j as [related ce cm st q rs idate].
  unfold correct, fix_rejection, fix_thank_you. simpl.
  split_conditions; reflexivity.
Qed.

(** A judgement that calls a rejection unrelated, "Other" and of
    confidence 0 comes out job-related, "Rejected" and of confidence 0.8. *)
Lemma correct_of_unrelated_rejection (subject content phrase : string) (j : Judgement) :
  In phrase strong_rejection_phrases ->
  contains phrase (lower content) = true ->
  is_job_related j = false -> status j = Some "Other" -> confidence j = Qmake 0 1 ->
  is_job_related (correct subject content j) = true
  /\ status (correct subject content j) = Some "Rejected"
  /\ confidence (correct subject content j) = Qmake 8 10.
Proof.
  intros Hin Hc R S C. unfold correct.
  rewrite (OracleFacts.rejection_detected phrase _ _ Hin (or_introl Hc)).
  rewrite OracleFacts.fix_thank_you_after_rejection
    by apply OracleFacts.fix_rejection_related.
  destruct j as [related ce cm st q rs idate]. simpl in *. subst.
  unfold fix_rejection. simpl. auto.
Qed.

(** X5: the corrector only ever strengthens a judgement: it never turns
    a job-related email into an unrelated one, never lowers the
    confidence, changes the status only from "Other" to "Rejected", and
    leaves the companies, the reasoning and the interview date alone. *)
Theorem corrector_only_strengthens :
  forall (subject content : string) (j : Judgement),
    let j' := correct subject content j in
    (is_job_related j = true -> is_job_related j' = true)
    /\ (confidence j <= confidence j')%Q
    /\ (status j' = status j
        \/ (status j = Some "Other" /\ status j' = Some "Rejected"))
    /\ company_extracted j' = company_extracted j
    /\ company_match j' = company_match j
    /\ reasoning j' = reasoning j
    /\ interview_date j' = interview_date j.
Proof.
  intros subject content j.
  destruct j as [related ce cm st q rs idate].
  unfold correct, fix_rejection, fix_thank_you, at_least_07. simpl.
  destruct (is_rejection (lower rs) (lower content));
    destruct related; simpl;
    destruct (is_text st "Other") eqn:T; simpl;
    destruct (Qlt_bool q (Qmake 7 10)) eqn:C; simpl;
    split_conditions;
    repeat split; try discriminate; try reflexivity; try apply Qle_refl;
    try (left; reflexivity);
    try (right; split; [apply is_text_other; exact T | reflexivity]);
    try (apply Qle_trans with (Qmake 7 10);
         [apply Qlt_bool_le; exact C | unfold Qle; simpl; lia]);
    try (apply Qlt_bool_le; exact C).
Qed.

(** X6: correcting a corrected judgement changes nothing more. *)
Theorem corrector_is_idempotent :
  forall (subject content : string) (j : Judgement),
    correct subject content (correct subject content j) = correct subject content j.
Proof.
  intros subject content j.
  destruct j as [related ce cm st q rs idate].
  unfold correct, fix_rejection, fix_thank_you, at_least_07. simpl.
  destruct (is_rejection (lower rs) (lower content)) eqn:R;
    destruct related; simpl;
    destruct (is_text st "Other") eqn:T; simpl;
    destruct (Qlt_bool q (Qmake 7 10)) eqn:C; simpl;
    destruct (contains "thank you for your interest" (lower content)
              || contains "thank you for your interest" (lower subject)) eqn:Y; simpl;
    rewrite ?R, ?T, ?C, ?Y; simpl; rewrite ?R, ?T, ?C, ?Y; simpl; reflexivity.
Qed.

(** X7: an email that says "thank you for your interest" in its body or
    subject is always taken for job-related; if the Oracle had said
    unrelated, the confidence is at least 0.7 afterwards. *)
Theorem thank_you_is_job_related :
  forall (subject content : string) (j : Judgement),
    contains "thank you for your interest" (lower content) = true
    \/ contains "thank you for your interest" (lower subject) = true ->
    let j' := correct subject content j in
    is_job_related j' = true
    /\ (is_job_related j = false -> (Qmake 7 10 <= confidence j')%Q).
Proof.
  intros subject content j H.
  assert (Y : contains "thank you for your interest" (lower content)
              || contains "thank you for your interest" (lower subject) = true)
    by (apply orb_true_iff; exact H).
  destruct j as [related ce cm st q rs idate].
  unfold correct, fix_rejection, fix_thank_you, at_least_07. simpl.
  rewrite Y.
  destruct (is_rejection (lower rs) (lower content));
    destruct related; simpl;
    destruct (is_text st "Other") eqn:T; simpl;
    destruct (Qlt_bool q (Qmake 7 10)) eqn:C; simpl;
    split; try reflexivity; try discriminate; intros _;
    try (unfold Qle; simpl; lia);
    try (apply Qlt_bool_false; exact C).
Qed.

Lemma thank_you_is_job_related_witness :
  Oracle.is_job_related
    (correct "Thank you for your interest in Acme" "we received your documents"
             Samples.newsletter) = true.
Proof.
  apply (thank_you_is_job_related "Thank you for your interest in Acme"
           "we received your documents" Samples.newsletter).
  right. vm_compute. reflexivity.
Defined.

End CorrectorFacts.

(** ** Free-mode outages seen from the scanner *)

Module TransportFacts.
Import PyStr PyStrFacts Oracle OracleSpec Tracker TrackerSpec Transport.

(** The judgement read from a fallback dictionary, before correction. *)
Lemma validate_fallback (reason : string) :
  reason <> "JSON parsing failed" ->
  validate (fallback reason)
  = Some {| is_job_related := false; company_extracted := None; company_match := None;
            status := Some "Other"; confidence := Qmake 0 1; reasoning := reason;
            interview_date := None |}.
Proof.
  intro H. unfold validate, fallback. simpl.
  apply String.eqb_neq in H. rewrite H. reflexivity.
Qed.

Lemma outage_reason (timed_out : bool) (a : Attempts) :
  timed_out = true \/ a = AllFailed ->
  exists reason,
    ai_completion_free timed_out a = ResultChoices (ContentStr (ParsesToDict (fallback reason)))
    /\ reason <> "JSON parsing failed"
    /\ is_rejection (lower reason) EmptyString = false.
Proof.
  intros [->| ->].
  - exists "Request timed out". split; [reflexivity|]. split; [discriminate | reflexivity].
  - destruct timed_out.
    + exists "Request timed out". split; [reflexivity|]. split; [discriminate | reflexivity].
    + exists "All AI services unavailable or timed out".
      split; [reflexivity|]. split; [discriminate | reflexivity].
Qed.

Section WithExternals.

Variable regex_ci : string -> option (string -> bool).
Variable fmt2 : Q -> string.

(** X8: in free mode an outage of the Oracle is not seen as a failure.
    When the call times out or every model fails, the transport hands the
    scanner a made-up answer; the scanner takes it for a judgement, counts
    an AI success and no AI failure, and, if the body of the email holds a
    strong rejection phrase, ends with a job-related "Rejected" judgement
    of confidence 0.8.  Only the made-up answer for unparsable model text
    is recognized and counted as a failure. *)
Theorem outage_is_taken_for_an_answer :
  (forall (now : string) (df : DataFrame) (c : Counters) (e : Email)
          (timed_out : bool) (a : Attempts),
      oracle e = Returned (ai_completion_free timed_out a) ->
      timed_out = true \/ a = AllFailed ->
      exists j,
        ai_analyze_job_email (subject e) (content e) (sender_name e) (oracle e) = Some j
        /\ company_match j = None
        /\ ai_failures (snd (fst (process_message regex_ci fmt2 now df c e)))
           = ai_failures c
        /\ ai_successes (snd (fst (process_message regex_ci fmt2 now df c e)))
           = S (ai_successes c)
        /\ (forall phrase, In phrase strong_rejection_phrases ->
                           contains phrase (lower (content e)) = true ->
                           is_job_related j = true /\ status j = Some "Rejected"
                           /\ confidence j = Qmake 8 10))
  /\ (forall (now : string) (df : DataFrame) (c : Counters) (e : Email),
         oracle e = Returned (ai_completion_free false (Answered NotJson)) ->
         process_message regex_ci fmt2 now df c e
         = (df, incr_failures (incr_processed c), AiNoResult)).
Proof.
  split.
  - intros now df c e timed_out a Ho Hout.
    destruct (outage_reason timed_out a Hout) as [reason [E [N _]]].
    rewrite E in Ho.
    set (base := {| is_job_related := false; company_extracted := None;
                    company_match := None; status := Some "Other";
                    confidence := Qmake 0 1; reasoning := reason;
                    interview_date := None |}).
    assert (A : ai_analyze_job_email (subject e) (content e) (sender_name e) (oracle e)
                = Some (correct (subject e) (content e)
                          (recover_company (subject e) (sender_name e) base))).
    { rewrite Ho. simpl. rewrite (validate_fallback reason N). reflexivity. }
    exists (correct (subject e) (content e)
              (recover_company (subject e) (sender_name e) base)).
    split; [exact A|].
    set (j0 := recover_company (subject e) (sender_name e) base).
    assert (R0 : is_job_related j0 = false /\ company_match j0 = None
                 /\ status j0 = Some "Other" /\ confidence j0 = Qmake 0 1
                 /\ reasoning j0 = reason).
    { unfold j0, recover_company, base. simpl.
      repeat match goal with
             | |- context [if ?b then _ else _] => destruct b; simpl
             end; repeat split; reflexivity. }
    destruct R0 as [R1 [R2 [R3 [R4 R5]]]].
    split; [rewrite CorrectorFacts.correct_company_match; exact R2|].
    unfold process_message. rewrite A.
    split; [destruct (negb _); [reflexivity|];
            destruct (_ && _); [reflexivity|];
            destruct (reconcile _ _ _ _ _ _) as [[? ?] ?]; reflexivity|].
    split; [destruct (negb _); [reflexivity|];
            destruct (_ && _); [reflexivity|];
            destruct (reconcile _ _ _ _ _ _) as [[? ?] ?]; reflexivity|].
    intros phrase Hin Hc.
    exact (CorrectorFacts.correct_of_unrelated_rejection (subject e) (content e) phrase j0
             Hin Hc R1 R3 R4).
  - intros now df c e Ho. unfold process_message. rewrite Ho. reflexivity.
Qed.

End WithExternals.

Import Samples.

Lemma outage_is_taken_for_an_answer_witness :
  let e := email "your application - acme" "we regret to inform you"
                 (Returned (ai_completion_free false AllFailed)) in
  exists j,
    ai_analyze_job_email (subject e) (content e) (sender_name e) (oracle e) = Some j
    /\ company_match j = None
    /\ ai_failures (snd (fst (process_message literal_ci two_decimals clock
                                              one_application zero_counters e))) = 0
    /\ ai_successes (snd (fst (process_message literal_ci two_decimals clock
                                               one_application zero_counters e))) = 1
    /\ (forall phrase, In phrase strong_rejection_phrases ->
                       contains phrase (lower (content e)) = true ->
                       is_job_related j = true /\ status j = Some "Rejected"
                       /\ confidence j = Qmake 8 10).
Proof.
  apply (proj1 (outage_is_taken_for_an_answer literal_ci two_decimals) clock
               one_application zero_counters
               (email "your application - acme" "we regret to inform you"
                      (Returned (ai_completion_free false AllFailed)))
               false AllFailed).
  - reflexivity.
  - right. reflexivity.
Defined.

(** The outage carried through: the company is recovered from the
    subject, the gate opens and the record is marked "Rejected", on no
    answer of the Oracle at all. *)
Example outage_updates_a_record :
  let e := email "your application - acme" "we regret to inform you"
                 (Returned (ai_completion_free false AllFailed)) in
  exists df' c',
    process_message literal_ci two_decimals clock one_application zero_counters e
    = (df', c', Handled [0] 1)
    /\ map Status (rows df') = ["Rejected"].
Proof.
  eexists. eexists. split; [vm_compute; reflexivity | reflexivity].
Qed.

(** C2 at a failing input: the Oracle fails in free mode, the shipped
    default: every model fails, or the request times out, while the table
    holds one application to Acme with status "Applied".  The transport
    answers with a made-up judgement, and the scanner takes it for the
    Oracle's where no judgement is to be produced: it counts an AI
    success and no AI failure, recovers the company from the subject,
    and rewrites the record to "Rejected". *)
Lemma oracle_outage_rewrites_a_record :
  let all_failed := email "your application - acme" "we regret to inform you"
                          (Returned (ai_completion_free false AllFailed)) in
  let timeout := email "your application - acme" "we regret to inform you"
                       (Returned (ai_completion_free true AllFailed)) in
  map Status (rows one_application) = ["Applied"]
  /\ (forall e, e = all_failed \/ e = timeout ->
         ai_analyze_job_email (subject e) (content e) (sender_name e) (oracle e) <> None
         /\ exists df' c',
              process_message literal_ci two_decimals clock one_application
                              zero_counters e
              = (df', c', Handled [0] 1)
              /\ map Status (rows df') = ["Rejected"]
              /\ ai_failures c' = 0
              /\ ai_successes c' = 1
              /\ account_updates c' = 1).
Proof.
  intros all_failed timeout. split; [reflexivity|].
  intros e [E|E]; subst e.
  - split; [vm_compute; discriminate|].
    eexists. eexists. split; [vm_compute; reflexivity|]. repeat split; reflexivity.
  - split; [vm_compute; discriminate|].
    eexists. eexists. split; [vm_compute; reflexivity|]. repeat split; reflexivity.
Qed.

End TransportFacts.

(** ** What a scan does to the table and to its counters *)

Module ScanFacts.
Import PyStr PyStrFacts Oracle Tracker TrackerSpec ScanSpec.
Local Open Scope list_scope.

Lemma where_from_slice (p : Application -> bool) (rs : list Application) :
  forall n i r, In (i, r) (where_from p rs n) ->
                n <= i /\ nth_error rs (i - n) = Some r.
Proof.
  induction rs as [|r0 rest IH]; intros n i r H; simpl in H; [destruct H|].
  assert (Tail : In (i, r) (where_from p rest (S n)) ->
                 n <= i /\ nth_error (r0 :: rest) (i - n) = Some r).
  { intro H'. destruct (IH (S n) i r H') as [A B]. split; [lia|].
    replace (i - n) with (S (i - S n)) by lia. exact B. }
  destruct (p r0); [|exact (Tail H)].
  destruct H as [E|H]; [|exact (Tail H)].
  inversion E; subst. split; [lia|]. rewrite Nat.sub_diag. reflexivity.
Qed.

Lemma select_where_slice (p : Application -> bool) (df : DataFrame) :
  slice_of df (select_where p df).
Proof.
  intros i r H. destruct (where_from_slice p (rows df) 0 i r H) as [_ B].
  rewrite Nat.sub_0_r in B. exact B.
Qed.

Lemma specific_match_in (df : DataFrame) (text : string) (m : Slice) (idx : nat) :
  specific_match df m text = Some idx -> exists r, In (idx, r) m.
Proof.
  induction m as [|[i r] rest IH]; simpl; [discriminate|].
  destruct (title_mentioned _ _).
  - intro E. inversion E; subst. exists r. left. reflexivity.
  - destruct (location_mentioned _ _).
    + intro E. inversion E; subst. exists r. left. reflexivity.
    + intro E. destruct (IH E) as [r' H]. exists r'. right. exact H.
Qed.

Lemma idxmax_in (m : Slice) :
  forall best idx,
    idxmax m best = Some idx ->
    (exists r, In (idx, r) m) \/ (exists d, best = Some (idx, d)).
Proof.
  induction m as [|[i r] rest IH]; intros best idx; simpl.
  - destruct best as [[i0 d]|]; [|discriminate].
    intro E. inversion E; subst. right. exists d. reflexivity.
  - assert (Next : forall b, idxmax rest b = Some idx ->
                             (b = best \/ exists d, b = Some (i, d)) ->
                             (exists r0, In (idx, r0) ((i, r) :: rest))
                             \/ (exists d, best = Some (idx, d))).
    { intros b E Hb. destruct (IH b idx E) as [[r0 H]|[d H]].
      - left. exists r0. right. exact H.
      - destruct Hb as [->|[d' ->]]; [right; exists d; exact H|].
        inversion H; subst. left. exists r. left. reflexivity. }
    destruct (Date_Applied r) as [d|].
    + destruct best as [[i0 b]|].
      * destruct (Z.ltb b d); intro E; eapply Next; eauto.
      * intro E; eapply Next; eauto.
    + intro E; eapply Next; eauto.
Qed.

(** The selector returns records of the candidates, and at least one. *)
Lemma select_records_sound (df : DataFrame) (m : Slice) (subject content : string) :
  slice_of df m -> m <> [] ->
  select_records df m subject content <> []
  /\ incl (select_records df m subject content) m.
Proof.
  intros Hs Hne. unfold select_records.
  assert (L : forall idx, (exists r, In (idx, r) m) ->
                          loc df idx <> [] /\ incl (loc df idx) m).
  { intros idx [r H]. unfold loc. rewrite (Hs idx r H).
    split; [discriminate|]. intros x [<-|[]]. exact H. }
  destruct (1 <? List.length m); [|split; [exact Hne | apply incl_refl]].
  destruct (specific_match df m _) as [idx|] eqn:S.
  - apply L. eapply specific_match_in. exact S.
  - destruct (existsb _ bulk_rejection_phrases); [split; [exact Hne | apply incl_refl]|].
    destruct (idxmax m None) as [idx|] eqn:I.
    + apply L. destruct (idxmax_in m None idx I) as [H|[d H]]; [exact H | discriminate].
    + destruct m as [|[first r] rest]; [exfalso; apply Hne; reflexivity|].
      apply L. exists r. left. reflexivity.
Qed.

Lemma prefix_empty (s : string) : prefix EmptyString s = true.
Proof. destruct s; reflexivity. Qed.

Lemma prefix_refl (s : string) : prefix s s = true.
Proof.
  induction s as [|c r IH]; simpl; [reflexivity|].
  destruct (ascii_dec c c) as [_|N]; [exact IH | congruence].
Qed.

Lemma append_assoc (a b c : string) : ((a ++ b) ++ c = a ++ (b ++ c))%string.
Proof. induction a as [|x a IH]; simpl; [reflexivity | rewrite IH; reflexivity]. Qed.

Lemma prefix_trans (a b c : string) :
  prefix a b = true -> prefix b c = true -> prefix a c = true.
Proof.
  intros H1 H2.
  destruct (prefix_split a b H1) as [p1 ->].
  destruct (prefix_split _ c H2) as [p2 ->].
  rewrite append_assoc. apply prefix_app.
Qed.

Lemma map_update_at_same {A : Type} (f : Application -> A) (g : Application -> Application)
      (idx : nat) (rs : list Application) :
  (forall r, f (g r) = f r) -> map f (update_at idx g rs) = map f rs.
Proof.
  intro H. revert idx. induction rs as [|r rest IH]; intro idx.
  - destruct idx; reflexivity.
  - destruct idx as [|k]; simpl; [rewrite H | rewrite IH]; reflexivity.
Qed.

Lemma notes_grow_refl (df : DataFrame) : notes_grow df df.
Proof. intros k r H. exists r. split; [exact H | apply prefix_refl]. Qed.

Lemma notes_grow_trans (a b c : DataFrame) :
  notes_grow a b -> notes_grow b c -> notes_grow a c.
Proof.
  intros H1 H2 k r Hr.
  destruct (H1 k r Hr) as [r1 [E1 P1]].
  destruct (H2 k r1 E1) as [r2 [E2 P2]].
  exists r2. split; [exact E2 | exact (prefix_trans _ _ _ P1 P2)].
Qed.

Lemma kept_refl (df : DataFrame) : statuses_kept_or_written df df.
Proof. intros k s H. exists s. auto. Qed.

Lemma kept_trans (a b c : DataFrame) :
  statuses_kept_or_written a b -> statuses_kept_or_written b c ->
  statuses_kept_or_written a c.
Proof.
  intros H1 H2 k s Hs.
  destruct (H1 k s Hs) as [s1 [E1 P1]].
  destruct (H2 k s1 E1) as [s2 [E2 P2]].
  exists s2. split; [exact E2|].
  destruct P2 as [->|W]; [exact P1 | right; exact W].
Qed.

Lemma unique_from_incl (l : list string) :
  forall seen x, In x (unique_from seen l) -> In x l.
Proof.
  induction l as [|y rest IH]; intros seen x H; simpl in *; [exact H|].
  destruct (existsb (String.eqb y) seen).
  - right. exact (IH _ _ H).
  - destruct H as [<-|H]; [left; reflexivity | right; exact (IH _ _ H)].
Qed.

Lemma check_pairs_member (c0 : string) (pairs : list (string * string)) :
  forall bm bs,
    match Matcher.check_pairs c0 pairs bm bs with
    | Matcher.Found c => c = c0
    | Matcher.Running bm' _ => bm' = bm \/ bm' = Some c0
    end.
Proof.
  induction pairs as [|[ev cv] rest IH]; intros bm bs; simpl; [left; reflexivity|].
  unfold Matcher.check_pair.
  destruct (nonempty ev && nonempty cv).
  - destruct (String.eqb ev cv); [reflexivity|].
    destruct (contains ev cv || contains cv ev).
    + destruct (Qlt_bool bs (Matcher.score ev cv)
                && Qlt_bool Matcher.threshold (Matcher.score ev cv)).
      * pose proof (IH (Some c0) (Matcher.score ev cv)) as H.
        destruct (Matcher.check_pairs c0 rest _ _); [exact H|].
        right. destruct H as [->| ->]; reflexivity.
      * apply IH.
    + apply IH.
  - apply IH.
Qed.

Lemma check_companies_member (evs : list string) (cs : list string) :
  forall bm bs,
    match Matcher.check_companies evs cs bm bs with
    | Matcher.Found c => In c cs
    | Matcher.Running bm' _ => bm' = bm \/ exists c, bm' = Some c /\ In c cs
    end.
Proof.
  induction cs as [|c0 rest IH]; intros bm bs; simpl; [left; reflexivity|].
  pose proof (check_pairs_member c0 (Matcher.variant_pairs evs c0) bm bs) as H.
  destruct (Matcher.check_pairs c0 _ bm bs) as [c|bm1 bs1].
  - left. symmetry. exact H.
  - pose proof (IH bm1 bs1) as H2.
    destruct (Matcher.check_companies evs rest bm1 bs1) as [c|bm2 bs2].
    + right. exact H2.
    + destruct H2 as [->|[c [-> Hc]]].
      * destruct H as [->| ->]; [left; reflexivity|].
        right. exists c0. split; [reflexivity | left; reflexivity].
      * right. exists c. split; [reflexivity | right; exact Hc].
Qed.

(** A company returned by the matcher is one of those it was given. *)
Lemma fuzzy_member (email_company : string) (cs : list string) (c : string) (s : Q) :
  Matcher.fuzzy_company_match email_company cs = (Some c, s) -> In c cs.
Proof.
  unfold Matcher.fuzzy_company_match.
  destruct (negb (nonempty email_company)); [discriminate|].
  pose proof (check_companies_member (Matcher.normalize_company email_company) cs
                                     None Matcher.zero_score) as H.
  destruct (Matcher.check_companies _ cs None Matcher.zero_score) as [c1|bm bs].
  - intro E. inversion E; subst. exact H.
  - destruct (negb (truthy bm)).
    + destruct (Matcher.acronym_match _ cs) as [c1|] eqn:A.
      * intro E. inversion E; subst.
        exact (proj1 (MatcherSoundness.acronym_match_sound _ _ _ A)).
      * intro E. inversion E; subst bm.
        destruct H as [H|[c1 [H Hc]]]; [discriminate|]. inversion H; subst. exact Hc.
    + intro E. inversion E; subst bm.
      destruct H as [H|[c1 [H Hc]]]; [discriminate|]. inversion H; subst. exact Hc.
Qed.

(** X11: the company the gate sees is the Oracle's own match or the name
    of a company in the table; the fallback matching never makes up a
    name.  A present match of the Oracle is kept as it is. *)
Theorem resolved_company_is_known :
  forall (df : DataFrame) (j : Judgement),
    (resolve_company df j = company_match j
     \/ exists c, resolve_company df j = Some c /\ In c (map Company (rows df)))
    /\ (truthy (company_match j) = true -> resolve_company df j = company_match j).
Proof.
  intros df j. unfold resolve_company.
  destruct (company_extracted j) as [ex|]; [|split; [left|]; reflexivity].
  destruct (truthy (company_match j)) eqn:T; simpl; [split; [left|]; reflexivity|].
  split; [|discriminate].
  destruct (nonempty ex); [|left; reflexivity].
  destruct (find _ (companies df)) as [c|] eqn:F.
  - apply find_some in F. destruct F as [Hin _].
    assert (K : In c (map Company (rows df))) by (exact (unique_from_incl _ _ _ Hin)).
    destruct (negb (truthy (Some c))); [|right; exists c; auto].
    destruct (Matcher.fuzzy_company_match ex (companies df)) as [fm fs] eqn:Z.
    destruct fm as [c2|]; [|simpl; right; exists c; auto].
    destruct (truthy (Some c2) && Qlt_bool Matcher.threshold fs); [|right; exists c; auto].
    right. exists c2. split; [reflexivity|].
    exact (unique_from_incl _ _ _ (fuzzy_member _ _ _ _ Z)).
  - rewrite T. simpl.
    destruct (Matcher.fuzzy_company_match ex (companies df)) as [fm fs] eqn:Z.
    destruct fm as [c2|]; [|simpl; left; reflexivity].
    destruct (truthy (Some c2) && Qlt_bool Matcher.threshold fs); [|left; reflexivity].
    right. exists c2. split; [reflexivity|].
    exact (unique_from_incl _ _ _ (fuzzy_member _ _ _ _ Z)).
Qed.

Section WithExternals.

Variable regex_ci : string -> option (string -> bool).
Variable fmt2 : Q -> string.

Lemma find_applications_slice (df : DataFrame) (cm : string) (m : Slice) :
  find_applications regex_ci df cm = Some m -> slice_of df m.
Proof.
  unfold find_applications.
  destruct (negb (Nat.eqb (List.length (select_where _ df)) 0)).
  { intro E. inversion E. apply select_where_slice. }
  destruct (negb (Nat.eqb (List.length (select_where _ df)) 0)).
  { intro E. inversion E. apply select_where_slice. }
  destruct (regex_ci _) as [found|]; [|discriminate].
  destruct (negb (Nat.eqb (List.length (select_where _ df)) 0)).
  - destruct (find _ _); intro E; inversion E; apply select_where_slice.
  - intro E. inversion E. apply select_where_slice.
Qed.

(** What a decision to update rests on. *)
Lemma decision_sound (df : DataFrame) (e : Email) (j : Judgement) (cm ns : string)
      (idxs : list nat) :
  decision regex_ci df e = Some (j, cm, ns, idxs) ->
  ai_analyze_job_email (subject e) (content e) (sender_name e) (oracle e) = Some j
  /\ resolve_company df j = Some cm /\ status j = Some ns
  /\ cm <> EmptyString /\ writable ns /\ (Matcher.threshold <= confidence j)%Q
  /\ idxs <> [] /\ (forall i, In i idxs -> i < List.length (rows df)).
Proof.
  unfold decision.
  destruct (ai_analyze_job_email _ _ _ _) as [j0|]; [|discriminate].
  destruct (is_job_related j0 && _); [|discriminate].
  destruct (resolve_company df j0) as [cm0|] eqn:RC; [|discriminate].
  destruct (status j0) as [ns0|] eqn:ST; [|discriminate].
  destruct (gate _ _ _) eqn:G; [|discriminate].
  destruct (find_applications regex_ci df cm0) as [m|] eqn:F; [|discriminate].
  destruct (negb (Nat.eqb (List.length m) 0)) eqn:N; [|discriminate].
  intro E. inversion E; subst j0 cm0 ns0 idxs. clear E.
  apply (TrackerFacts.gate_true regex_ci fmt2) in G. destruct G as [G1 [G2 G3]].
  destruct G1 as [x [Ex Hx]]. inversion Ex; subst x.
  destruct G2 as [y [Ey [Hy1 Hy2]]]. inversion Ey; subst y.
  assert (Hm : m <> []).
  { intro Z. subst m. simpl in N. discriminate. }
  pose proof (find_applications_slice df cm m F) as Sl.
  destruct (select_records_sound df m (subject e) (content e) Sl Hm) as [S1 S2].
  split; [reflexivity|]. split; [exact RC|]. split; [exact ST|].
  split; [exact Hx|]. split; [split; assumption|]. split; [exact G3|].
  split.
  - intro Z. apply S1. apply map_eq_nil in Z. exact Z.
  - intros i Hi. apply in_map_iff in Hi. destruct Hi as [[i0 r] [Ei Hin]].
    simpl in Ei. subst i0.
    apply nth_error_Some. rewrite (Sl i r (S2 _ Hin)). discriminate.
Qed.

Lemma apply_all_at_most (now subject cm ns : string) (q : Q) (interview : option string)
      (selected : nat) (idxs : list nat) :
  forall df,
    snd (apply_all fmt2 now subject cm ns q interview selected df idxs)
    <= List.length idxs.
Proof.
  induction idxs as [|i rest IH]; intro df; simpl; [lia|].
  destruct (apply_one fmt2 now subject cm ns q interview selected df i) as [df1 ch].
  pose proof (IH df1) as H.
  destruct (apply_all fmt2 now subject cm ns q interview selected df1 rest) as [df2 n].
  simpl in *. destruct ch; lia.
Qed.

(** Without a decision the outcome is not [Handled]. *)
Lemma undecided_outcome (now : string) (df : DataFrame) (c : Counters) (e : Email) :
  decision regex_ci df e = None ->
  forall idxs n,
    snd (process_message regex_ci fmt2 now df c e) <> Handled idxs n.
Proof.
  unfold decision, process_message, reconcile.
  destruct (ai_analyze_job_email _ _ _ _) as [j|]; [|intros _ ? ?; simpl; discriminate].
  destruct (is_job_related j) eqn:R; simpl; [|intros _ ? ?; simpl; discriminate].
  destruct (contains _ (lower (reasoning j))); simpl;
    [intros _ ? ?; simpl; discriminate|].
  destruct (resolve_company df j) as [cm|]; [|intros _ ? ?; simpl; discriminate].
  destruct (status j) as [ns|]; [|intros _ ? ?; simpl; discriminate].
  destruct (gate _ _ _); [|intros _ ? ?; simpl; discriminate].
  destruct (find_applications regex_ci df cm) as [m|]; [|intros _ ? ?; simpl; discriminate].
  destruct (negb (Nat.eqb (List.length m) 0)); [discriminate|].
  intros _ idxs n. simpl. unfold no_applications.
  destruct (split cm); [discriminate|]. destruct (regex_ci _); discriminate.
Qed.

(** X9: the bookkeeping of one message.  If the outcome is "handled", the
    scanner had a judgement with a present company, a non-empty status
    other than "Other" and a confidence of at least 0.6, it selected at
    least one record, every selected label is a record of the table, and
    the update counter went up by the number reported, which is at most
    the number of selected records.  With any other outcome the table and
    the update counter are as before. *)
Theorem handled_means_selected_and_counted :
  forall (now : string) (df : DataFrame) (c : Counters) (e : Email)
         (df' : DataFrame) (c' : Counters) (out : Outcome),
    process_message regex_ci fmt2 now df c e = (df', c', out) ->
    (forall idxs n,
        out = Handled idxs n ->
        idxs <> []
        /\ (forall i, In i idxs -> i < List.length (rows df))
        /\ n <= List.length idxs
        /\ account_updates c' = n + account_updates c
        /\ exists j cm ns,
             ai_analyze_job_email (subject e) (content e) (sender_name e) (oracle e)
             = Some j
             /\ resolve_company df j = Some cm /\ cm <> EmptyString
             /\ status j = Some ns /\ writable ns
             /\ (Matcher.threshold <= confidence j)%Q)
    /\ ((forall idxs n, out <> Handled idxs n) ->
        df' = df /\ account_updates c' = account_updates c).
Proof.
  intros now df c e df' c' out P.
  destruct (decision regex_ci df e) as [[[[j cm] ns] idxs0]|] eqn:D.
  - pose proof (RescanFacts.process_decided regex_ci fmt2 now df c e j cm ns idxs0 D) as P'.
    rewrite P in P'.
    pose proof (apply_all_at_most now (subject e) cm ns (confidence j) (interview_date j)
                                  (List.length idxs0) idxs0 df) as Le.
    destruct (apply_all _ _ _ _ _ _ _ _ _ _) as [df1 n1]. simpl in Le.
    inversion P'; subst df' c' out. clear P'.
    destruct (decision_sound df e j cm ns idxs0 D) as [A [B [C [E1 [E2 [E3 [E4 E5]]]]]]].
    split.
    + intros idxs n H. inversion H; subst idxs n.
      split; [exact E4|]. split; [exact E5|]. split; [exact Le|].
      split; [reflexivity|]. exists j, cm, ns. auto 10.
    + intro H. exfalso. apply (H idxs0 n1). reflexivity.
  - destruct (RescanFacts.process_undecided regex_ci fmt2 now df c e D)
      as [c1 [out1 [P1 A1]]].
    pose proof (undecided_outcome now df c e D) as U.
    rewrite P in P1, U. inversion P1; subst c1 out1. simpl in U.
    split.
    + intros idxs n H. exfalso. apply (U idxs n). exact H.
    + intros _. split; [congruence | exact A1].
Qed.

(** *** The summary counters *)

Lemma process_message_counters (now : string) (df : DataFrame) (c : Counters) (e : Email) :
  let c' := snd (fst (process_message regex_ci fmt2 now df c e)) in
  processed c' = S (processed c)
  /\ ai_successes c' + ai_failures c' = S (ai_successes c + ai_failures c)
  /\ ai_failures c <= ai_failures c'
  /\ job_related_count c <= job_related_count c'
  /\ job_related_count c' + ai_successes c <= job_related_count c + ai_successes c'.
Proof.
  unfold process_message.
  destruct (ai_analyze_job_email _ _ _ _) as [j|]; [|simpl; lia].
  destruct (negb (is_job_related j)); [simpl; lia|].
  destruct (_ && _); [simpl; lia|].
  destruct (reconcile _ _ _ _ _ _) as [[df1 n] out]. simpl. lia.
Qed.

Lemma scan_messages_counters (inbox : list Fetch) :
  forall (df : DataFrame) (c : Counters),
    let c' := snd (scan_messages regex_ci fmt2 df c inbox) in
    processed c <= processed c'
    /\ processed c' <= processed c + 2 * List.length inbox
    /\ ai_successes c' + ai_failures c' <= ai_successes c + ai_failures c + fetched inbox
    /\ ai_successes c <= ai_successes c'
    /\ ai_failures c <= ai_failures c'
    /\ job_related_count c' + ai_successes c <= job_related_count c + ai_successes c'
    /\ ai_successes c' + ai_failures c' + processed c
       <= ai_successes c + ai_failures c + processed c'.
Proof.
  induction inbox as [|f rest IH]; intros df c.
  - simpl. lia.
  - destruct f as [| lost rec | | now e].
    + pose proof (IH df (incr_processed c)) as H. simpl in *. unfold fetched in *.
      simpl. lia.
    + simpl. destruct (lost && rec).
      * pose proof (IH df (incr_processed c)) as H. simpl in *. unfold fetched in *.
        simpl. lia.
      * simpl. lia.
    + pose proof (IH df (incr_processed c)) as H. simpl in *. unfold fetched in *.
      simpl. lia.
    + pose proof (process_message_counters now df c e) as M.
      cbn [scan_messages].
      destruct (process_message regex_ci fmt2 now df c e) as [[df1 c1] out].
      simpl in M. unfold fetched in *. cbn [filter List.length].
      pose proof (IH df1 (incr_processed c1)) as H1.
      pose proof (IH df1 c1) as H2.
      destruct out; simpl in *; lia.
Qed.

(** X10: the counters of an account summary fit together, whatever the
    inbox: the job-related count is at most the number of AI successes;
    successes and failures together are at most the number of messages
    fetched, hence at most the processed count; and the processed count
    is at most twice the number of fetch attempts (a message whose
    handling raises is counted twice). *)
Theorem summary_counters_fit :
  forall (df : DataFrame) (inbox : list Fetch),
    let c := snd (scan_messages regex_ci fmt2 df zero_counters inbox) in
    job_related_count c <= ai_successes c
    /\ ai_successes c + ai_failures c <= fetched inbox
    /\ ai_successes c + ai_failures c <= processed c
    /\ processed c <= 2 * List.length inbox.
Proof.
  intros df inbox.
  pose proof (scan_messages_counters inbox df zero_counters) as H.
  simpl in *. lia.
Qed.

(** *** Relations between frames that the whole scan keeps *)

Lemma apply_all_lifts (R : DataFrame -> DataFrame -> Prop)
      (now subject cm ns : string) (q : Q) (interview : option string) (selected : nat) :
  (forall df, R df df) ->
  (forall a b c, R a b -> R b c -> R a c) ->
  (forall df idx,
      R df (fst (apply_one fmt2 now subject cm ns q interview selected df idx))) ->
  forall idxs df,
    R df (fst (apply_all fmt2 now subject cm ns q interview selected df idxs)).
Proof.
  intros Rr Rt Rs. induction idxs as [|i rest IH]; intro df; simpl; [apply Rr|].
  pose proof (Rs df i) as H1.
  destruct (apply_one fmt2 now subject cm ns q interview selected df i) as [df1 ch].
  pose proof (IH df1) as H2.
  destruct (apply_all fmt2 now subject cm ns q interview selected df1 rest) as [df2 n].
  simpl in *. exact (Rt _ _ _ H1 H2).
Qed.

Lemma process_message_lifts (R : DataFrame -> DataFrame -> Prop) :
  (forall df, R df df) ->
  (forall a b c, R a b -> R b c -> R a c) ->
  (forall now subject cm ns q interview selected df idx,
      writable ns ->
      R df (fst (apply_one fmt2 now subject cm ns q interview selected df idx))) ->
  forall now df c e,
    R df (fst (fst (process_message regex_ci fmt2 now df c e))).
Proof.
  intros Rr Rt Rs now df c e.
  destruct (decision regex_ci df e) as [[[[j cm] ns] idxs]|] eqn:D.
  - rewrite (RescanFacts.process_decided regex_ci fmt2 now df c e j cm ns idxs D).
    destruct (decision_sound df e j cm ns idxs D) as [_ [_ [_ [_ [W _]]]]].
    pose proof (apply_all_lifts R now (subject e) cm ns (confidence j) (interview_date j)
                                (List.length idxs) Rr Rt
                                (fun df0 idx => Rs now (subject e) cm ns (confidence j)
                                                   (interview_date j) (List.length idxs)
                                                   df0 idx W)
                                idxs df) as H.
    destruct (apply_all fmt2 now (subject e) cm ns (confidence j) (interview_date j)
                        (List.length idxs) df idxs) as [df1 n].
    exact H.
  - destruct (RescanFacts.process_undecided regex_ci fmt2 now df c e D) as [c' [out [E _]]].
    rewrite E. apply Rr.
Qed.

Lemma scan_messages_lifts (R : DataFrame -> DataFrame -> Prop) :
  (forall df, R df df) ->
  (forall a b c, R a b -> R b c -> R a c) ->
  (forall now df c e, R df (fst (fst (process_message regex_ci fmt2 now df c e)))) ->
  forall inbox df c, R df (fst (scan_messages regex_ci fmt2 df c inbox)).
Proof.
  intros Rr Rt Rs. induction inbox as [|f rest IH]; intros df c; simpl; [apply Rr|].
  destruct f as [|cl rc| |now e].
  - apply IH.
  - destruct (cl && rc); [apply IH | apply Rr].
  - apply IH.
  - pose proof (Rs now df c e) as H.
    destruct (process_message regex_ci fmt2 now df c e) as [[df1 c1] out]. simpl in H.
    destruct out; (eapply Rt; [exact H | apply IH]).
Qed.

Lemma scan_lifts (R : DataFrame -> DataFrame -> Prop) :
  (forall df, R df df) ->
  (forall a b c, R a b -> R b c -> R a c) ->
  (forall now subject cm ns q interview selected df idx,
      writable ns ->
      R df (fst (apply_one fmt2 now subject cm ns q interview selected df idx))) ->
  forall loaded accounts,
    R loaded (applications_df (scan_for_status_updates regex_ci fmt2 loaded accounts)).
Proof.
  intros Rr Rt Rs loaded accounts. unfold scan_for_status_updates.
  set (run0 := {| applications_df := loaded; csv_file := loaded;
                  total_updates := 0; accounts_scanned := 0 |}).
  change loaded with (applications_df run0) at 1.
  generalize run0. clear run0.
  induction accounts as [|a rest IH]; intro run; simpl; [apply Rr|].
  eapply Rt; [|apply IH].
  destruct a as [| |messages]; simpl; try apply Rr.
  pose proof (scan_messages_lifts R Rr Rt (process_message_lifts R Rr Rt Rs)
                                  messages (applications_df run) zero_counters) as H.
  destruct (scan_messages regex_ci fmt2 (applications_df run) zero_counters messages)
    as [df c].
  simpl in H. destruct (0 <? account_updates c); exact H.
Qed.

Lemma apply_one_notes (now subject cm ns : string) (q : Q) (interview : option string)
      (selected : nat) (df : DataFrame) (idx : nat) :
  notes_grow df (fst (apply_one fmt2 now subject cm ns q interview selected df idx)).
Proof.
  unfold apply_one.
  destruct (nth_error (rows df) idx) as [r0|] eqn:E; [|apply notes_grow_refl].
  destruct (negb (String.eqb ns (Status r0))); [|apply notes_grow_refl].
  intros k r Hr. unfold notes_text. simpl.
  assert (K : forall rs,
             nth_error (if truthy interview
                        then update_at idx (set_Interview_Date interview) rs else rs) k
             = option_map (fun a => if Nat.eqb k idx && truthy interview
                                    then set_Interview_Date interview a else a)
                          (nth_error rs k)).
  { intro rs. destruct (truthy interview).
    - rewrite TrackerFacts.nth_error_update_at.
      destruct (Nat.eqb k idx); simpl; [reflexivity|].
      destruct (nth_error rs k); reflexivity.
    - rewrite andb_false_r. destruct (nth_error rs k); reflexivity. }
  rewrite K. rewrite TrackerFacts.nth_error_update_at.
  destruct (Nat.eqb k idx) eqn:Q.
  - apply Nat.eqb_eq in Q. subst k. rewrite E in Hr. inversion Hr; subst r0.
    destruct (has_Notes df).
    + rewrite TrackerFacts.nth_error_update_at, Nat.eqb_refl, E. simpl.
      eexists. split; [reflexivity|].
      destruct (truthy interview); simpl;
        (destruct (Notes r) as [[|ch old]|]; try reflexivity; apply prefix_app).
    + rewrite nth_error_map, TrackerFacts.nth_error_update_at, Nat.eqb_refl, E. simpl.
      eexists. split; [reflexivity|]. apply prefix_empty.
  - simpl. destruct (has_Notes df).
    + rewrite TrackerFacts.nth_error_update_at, Q, Hr. simpl.
      eexists. split; [reflexivity|]. apply prefix_refl.
    + rewrite nth_error_map, TrackerFacts.nth_error_update_at, Q, Hr. simpl.
      eexists. split; [reflexivity|]. apply prefix_empty.
Qed.

Lemma apply_one_kept (now subject cm ns : string) (q : Q) (interview : option string)
      (selected : nat) (df : DataFrame) (idx : nat) :
  writable ns ->
  statuses_kept_or_written
    df (fst (apply_one fmt2 now subject cm ns q interview selected df idx)).
Proof.
  intros W k s Hs.
  rewrite (RescanFacts.apply_one_status fmt2 now subject cm ns q interview selected df idx k).
  rewrite Hs. destruct (Nat.eqb k idx).
  - exists ns. split; [reflexivity | right; exact W].
  - exists s. split; [reflexivity | left; reflexivity].
Qed.

Lemma erase_same_identity (r r' : Application) :
  erase r' = erase r -> same_identity r r'.
Proof.
  intro H. unfold same_identity.
  repeat split.
  - exact (f_equal Job_ID H).
  - exact (f_equal Title H).
  - exact (f_equal Company H).
  - exact (f_equal Work_Location H).
  - exact (f_equal Location H).
  - exact (f_equal Date_Applied H).
Qed.

(** X12: the scan neither adds, drops nor moves a record, and leaves
    every cell other than status, notes and interview date as it was
    loaded: each row keeps its job id, title, company, locations and
    application date, and the optional columns 'Title' and 'Location'
    stay present or absent. *)
Theorem scan_rewrites_only_three_columns :
  forall (loaded : DataFrame) (accounts : list Account),
    let df' := applications_df (scan_for_status_updates regex_ci fmt2 loaded accounts) in
    has_Title df' = has_Title loaded
    /\ has_Location df' = has_Location loaded
    /\ List.length (rows df') = List.length (rows loaded)
    /\ forall k r, nth_error (rows loaded) k = Some r ->
                   exists r', nth_error (rows df') k = Some r' /\ same_identity r r'.
Proof.
  intros loaded accounts df'.
  assert (V : erase_df df' = erase_df loaded).
  { unfold df'.
    apply (scan_lifts (fun a b => erase_df b = erase_df a)).
    - reflexivity.
    - intros a b c H1 H2. rewrite H2. exact H1.
    - intros. apply (RescanFacts.apply_one_view fmt2). }
  unfold erase_df in V. injection V as HT HL HR.
  split; [exact HT|]. split; [exact HL|]. split.
  - rewrite <- (length_map erase (rows df')), HR. apply length_map.
  - intros k r Hr.
    pose proof (f_equal (fun l => nth_error l k) HR) as N. simpl in N.
    rewrite !nth_error_map, Hr in N. simpl in N.
    destruct (nth_error (rows df') k) as [r'|]; [|discriminate].
    exists r'. split; [reflexivity|].
    apply erase_same_identity. simpl in N. congruence.
Qed.

(** X13: the notes of a record are only ever appended to: after a scan
    of any accounts, the notes a record had when the table was loaded
    are a prefix of its notes. *)
Theorem scan_only_appends_notes :
  forall (loaded : DataFrame) (accounts : list Account),
    notes_grow loaded
               (applications_df (scan_for_status_updates regex_ci fmt2 loaded accounts)).
Proof.
  intros loaded accounts.
  apply (scan_lifts notes_grow notes_grow_refl notes_grow_trans).
  intros. apply apply_one_notes.
Qed.

(** X14: after a scan every record has the status it was loaded with or
    one that passed the gate: never an empty status, never "Other",
    unless the record had it before. *)
Theorem scan_writes_only_gated_statuses :
  forall (loaded : DataFrame) (accounts : list Account),
    statuses_kept_or_written
      loaded (applications_df (scan_for_status_updates regex_ci fmt2 loaded accounts)).
Proof.
  intros loaded accounts.
  apply (scan_lifts statuses_kept_or_written kept_refl kept_trans).
  intros. apply apply_one_kept. assumption.
Qed.

Lemma scan_account_saved (run : Run) (a : Account) :
  csv_file run = applications_df run ->
  let run' := scan_account regex_ci fmt2 run a in
  csv_file run' = applications_df run'
  /\ total_updates run <= total_updates run'
  /\ (total_updates run' = total_updates run -> applications_df run' = applications_df run)
  /\ accounts_scanned run' <= S (accounts_scanned run).
Proof.
  intro H. destruct a as [| |messages]; simpl.
  - repeat split; auto.
  - repeat split; auto.
  - pose proof (RescanFacts.scan_messages_count regex_ci fmt2 messages
                                               (applications_df run) zero_counters) as K.
    destruct (scan_messages regex_ci fmt2 (applications_df run) zero_counters messages)
      as [df c].
    simpl in K. destruct K as [_ K].
    destruct (0 <? account_updates c) eqn:Z; simpl.
    + apply Nat.ltb_lt in Z. repeat split; try lia.
    + apply Nat.ltb_ge in Z.
      assert (E : df = applications_df run) by (apply K; lia).
      subst df. repeat split; auto.
Qed.

Lemma fold_scan_account_saved (accounts : list Account) :
  forall run,
    csv_file run = applications_df run ->
    let run' := fold_left (scan_account regex_ci fmt2) accounts run in
    csv_file run' = applications_df run'
    /\ total_updates run <= total_updates run'
    /\ (total_updates run' = total_updates run -> applications_df run' = applications_df run)
    /\ accounts_scanned run' <= List.length accounts + accounts_scanned run.
Proof.
  induction accounts as [|a rest IH]; intros run H; simpl.
  - repeat split; auto.
  - destruct (scan_account_saved run a H) as [H1 [H2 [H3 H4]]].
    destruct (IH _ H1) as [K1 [K2 [K3 K4]]].
    split; [exact K1|]. split; [lia|]. split; [|lia].
    intro E. rewrite K3 by lia. apply H3. lia.
Qed.

(** X15: at the end of a scan the file on disk holds the frame in
    memory, whatever accounts failed or had nothing to update; a scan
    that reports no update has changed no cell; and no more accounts are
    counted as scanned than were configured. *)
Theorem saved_file_holds_the_frame :
  forall (loaded : DataFrame) (accounts : list Account),
    let run := scan_for_status_updates regex_ci fmt2 loaded accounts in
    csv_file run = applications_df run
    /\ (total_updates run = 0 -> applications_df run = loaded)
    /\ accounts_scanned run <= List.length accounts.
Proof.
  intros loaded accounts run. unfold run, scan_for_status_updates.
  destruct (fold_scan_account_saved
              accounts
              {| applications_df := loaded; csv_file := loaded;
                 total_updates := 0; accounts_scanned := 0 |} eq_refl)
    as [H1 [_ [H3 H4]]].
  simpl in *. split; [exact H1|]. split; [exact H3 | lia].
Qed.

Lemma apply_one_interview (now subject cm ns : string) (q : Q) (interview : option string)
      (selected : nat) (df : DataFrame) (idx : nat) :
  truthy interview = false ->
  map Interview_Date
      (rows (fst (apply_one fmt2 now subject cm ns q interview selected df idx)))
  = map Interview_Date (rows df).
Proof.
  intro T. unfold apply_one.
  destruct (nth_error (rows df) idx) as [r0|]; [|reflexivity].
  destruct (negb (String.eqb ns (Status r0))); [|reflexivity].
  simpl. rewrite T.
  rewrite map_update_at_same by reflexivity.
  destruct (has_Notes df).
  - apply map_update_at_same. reflexivity.
  - rewrite map_map. simpl. apply map_update_at_same. reflexivity.
Qed.

(** X16: a message whose judgement carries no interview date (none, or
    an empty one) leaves the column 'Interview Date' of every record as
    it was, also when it changes the status of records. *)
Theorem message_without_date_keeps_interview_dates :
  forall (now : string) (df : DataFrame) (c : Counters) (e : Email),
    (forall j, ai_analyze_job_email (subject e) (content e) (sender_name e) (oracle e)
               = Some j -> truthy (interview_date j) = false) ->
    map Interview_Date (rows (fst (fst (process_message regex_ci fmt2 now df c e))))
    = map Interview_Date (rows df).
Proof.
  intros now df c e H.
  destruct (decision regex_ci df e) as [[[[j cm] ns] idxs]|] eqn:D.
  - rewrite (RescanFacts.process_decided regex_ci fmt2 now df c e j cm ns idxs D).
    destruct (decision_sound df e j cm ns idxs D) as [A _].
    pose proof (apply_all_lifts
                  (fun a b => map Interview_Date (rows b) = map Interview_Date (rows a))
                  now (subject e) cm ns (confidence j) (interview_date j)
                  (List.length idxs)
                  (fun _ => eq_refl)
                  (fun a b c0 H1 H2 => eq_trans H2 H1)
                  (fun df0 idx => apply_one_interview now (subject e) cm ns (confidence j)
                                                      (interview_date j) (List.length idxs)
                                                      df0 idx (H j A))
                  idxs df) as K.
    destruct (apply_all fmt2 now (subject e) cm ns (confidence j) (interview_date j)
                        (List.length idxs) df idxs) as [df1 n].
    exact K.
  - destruct (RescanFacts.process_undecided regex_ci fmt2 now df c e D) as [c' [out [E _]]].
    rewrite E. reflexivity.
Qed.

End WithExternals.

Lemma handled_means_selected_and_counted_witness :
  let e := Samples.email "application update" "unfortunately we chose another candidate"
                         (Samples.answer true (Some "Acme") "Rejected" (Qmake 9 10)) in
  let r := process_message Samples.literal_ci Samples.two_decimals Samples.clock
                           Samples.one_application zero_counters e in
  snd r = Handled [0] 1
  /\ (forall idxs n,
         snd r = Handled idxs n ->
         idxs <> []
         /\ (forall i, In i idxs -> i < List.length (rows Samples.one_application))
         /\ n <= List.length idxs
         /\ account_updates (snd (fst r)) = n + account_updates zero_counters
         /\ exists j cm ns,
              ai_analyze_job_email (subject e) (content e) (sender_name e) (oracle e)
              = Some j
              /\ resolve_company Samples.one_application j = Some cm
              /\ cm <> EmptyString
              /\ status j = Some ns /\ writable ns
              /\ (Matcher.threshold <= confidence j)%Q).
Proof.
  intros e r. split; [vm_compute; reflexivity|].
  apply (proj1 (handled_means_selected_and_counted
                  Samples.literal_ci Samples.two_decimals Samples.clock
                  Samples.one_application zero_counters e
                  (fst (fst r)) (snd (fst r)) (snd r) eq_refl)).
Defined.

Lemma message_without_date_keeps_interview_dates_witness :
  let e := Samples.email "application update" "unfortunately we chose another candidate"
                         (Samples.answer true (Some "Acme") "Rejected" (Qmake 9 10)) in
  let r := process_message Samples.literal_ci Samples.two_decimals Samples.clock
                           Samples.one_application zero_counters e in
  snd r = Handled [0] 1
  /\ map Interview_Date (rows (fst (fst r)))
     = map Interview_Date (rows Samples.one_application).
Proof.
  intros e r. split; [vm_compute; reflexivity|].
  apply (message_without_date_keeps_interview_dates
           Samples.literal_ci Samples.two_decimals Samples.clock
           Samples.one_application zero_counters e).
  intros j H. vm_compute in H. inversion H. reflexivity.
Defined.

End ScanFacts.

(** ** The status manager: direct update, query and statistics *)

Module ManagerFacts.
Import PyStr Tracker TrackerSpec StatusManager Statistics.
Local Open Scope list_scope.

Lemma where_from_first (p : Application -> bool) (rs : list Application) :
  forall n,
    match where_from p rs n with
    | [] => forall r, In r rs -> p r = false
    | (k, r) :: _ =>
        n <= k /\ nth_error rs (k - n) = Some r /\ p r = true
        /\ forall i r0, i < k - n -> nth_error rs i = Some r0 -> p r0 = false
    end.
Proof.
  induction rs as [|r0 rest IH]; intro n; simpl; [intros r []|].
  destruct (p r0) eqn:P.
  - split; [lia|]. rewrite Nat.sub_diag. split; [reflexivity|]. split; [exact P|].
    intros i r1 Hi. lia.
  - pose proof (IH (S n)) as H.
    destruct (where_from p rest (S n)) as [|[k r] tl].
    + intros r [<-|Hr]; [exact P | exact (H r Hr)].
    + destruct H as [H1 [H2 [H3 H4]]].
      split; [lia|].
      replace (k - n) with (S (k - S n)) by lia.
      split; [exact H2|]. split; [exact H3|].
      intros [|i] r1 Hi Hr1; simpl in Hr1.
      * inversion Hr1; subst. exact P.
      * apply (H4 i r1); [lia | exact Hr1].
Qed.

Lemma where_from_complete (p : Application -> bool) (rs : list Application) :
  forall n k r, nth_error rs k = Some r -> p r = true ->
                In (n + k, r) (where_from p rs n).
Proof.
  induction rs as [|r0 rest IH]; intros n k r H P; [destruct k; discriminate|].
  simpl. destruct k as [|k]; simpl in H.
  - inversion H; subst. rewrite P, Nat.add_0_r. left. reflexivity.
  - replace (n + S k) with (S n + k) by lia.
    destruct (p r0); [right|]; apply IH; assumption.
Qed.

Lemma where_from_holds (p : Application -> bool) (rs : list Application) :
  forall n i r, In (i, r) (where_from p rs n) -> p r = true.
Proof.
  induction rs as [|r0 rest IH]; intros n i r H; simpl in H; [destruct H|].
  destruct (p r0) eqn:Q; [|exact (IH _ _ _ H)].
  destruct H as [H|H]; [inversion H; subst; exact Q | exact (IH _ _ _ H)].
Qed.

Lemma where_from_length (p : Application -> bool) (rs : list Application) :
  forall n, List.length (where_from p rs n) = List.length (filter p rs).
Proof.
  induction rs as [|r0 rest IH]; intro n; simpl; [reflexivity|].
  destruct (p r0); simpl; rewrite IH; reflexivity.
Qed.

Lemma length_update_at (f : Application -> Application) (rs : list Application) :
  forall idx, List.length (update_at idx f rs) = List.length rs.
Proof.
  induction rs as [|r rest IH]; intros [|k]; simpl; try reflexivity.
  rewrite IH. reflexivity.
Qed.

Lemma update_at_twice (f g : Application -> Application) (rs : list Application) :
  forall idx, update_at idx g (update_at idx f rs) = update_at idx (fun r => g (f r)) rs.
Proof.
  induction rs as [|r rest IH]; intros [|k]; simpl; try reflexivity.
  rewrite IH. reflexivity.
Qed.

Lemma filter_update_at (p : Application -> bool) (f : Application -> Application)
      (rs : list Application) :
  forall idx a, nth_error rs idx = Some a ->
                List.length (filter p (update_at idx f rs)) + b2n (p a)
                = List.length (filter p rs) + b2n (p (f a)).
Proof.
  induction rs as [|r rest IH]; intros [|k] a H; simpl in H; try discriminate.
  - inversion H; subst. simpl. unfold b2n.
    destruct (p a), (p (f a)); simpl; lia.
  - simpl. pose proof (IH k a H) as K.
    destruct (p r); simpl; lia.
Qed.

(** The shape of a successful direct update: one transformer applied to
    the first record with the job id, which sets the status and leaves
    every other cell but the notes. *)
Lemma update_rows_shape (now : string) (df : DataFrame) (job_id new_status : string)
      (notes : option string) (k : nat) (a : Application) (rest : Slice) :
  valid_status new_status = true ->
  select_where (fun r => String.eqb (Job_ID r) job_id) df = (k, a) :: rest ->
  exists h,
    (forall x, Status (h x) = new_status)
    /\ (forall x, Job_ID (h x) = Job_ID x)
    /\ update_application_status now df job_id new_status notes
       = (with_rows df (update_at k h (rows df)), true).
Proof.
  intros V S. unfold update_application_status. rewrite V, S. simpl.
  destruct (truthy notes && has_Notes df).
  - destruct (Notes a) as [cur|].
    + eexists (fun x => set_Notes _ (set_Status new_status x)).
      split; [reflexivity|]. split; [reflexivity|].
      rewrite update_at_twice. reflexivity.
    + eexists (fun x => set_Notes _ (set_Status new_status x)).
      split; [reflexivity|]. split; [reflexivity|].
      rewrite update_at_twice. reflexivity.
  - exists (set_Status new_status).
    split; [reflexivity|]. split; reflexivity.
Qed.

Lemma eqb_sum (x : string) (ss : list string) :
  NoDup ss ->
  list_sum (map (fun s => b2n (String.eqb x s)) ss) = b2n (existsb (String.eqb x) ss).
Proof.
  induction ss as [|s rest IH]; intro N; [reflexivity|].
  inversion N as [|s' rest' Hn N']; subst. simpl.
  rewrite (IH N'). destruct (String.eqb x s) eqn:E; [|reflexivity].
  apply String.eqb_eq in E. subst s.
  destruct (existsb (String.eqb x) rest) eqn:X; [|reflexivity].
  exfalso. apply Hn. apply existsb_exists in X. destruct X as [y [Hy Ey]].
  apply String.eqb_eq in Ey. subst y. exact Hy.
Qed.

Lemma list_sum_add (f g : string -> nat) (ss : list string) :
  list_sum (map (fun s => f s + g s) ss) = list_sum (map f ss) + list_sum (map g ss).
Proof. induction ss as [|s rest IH]; simpl; [reflexivity | rewrite IH; lia]. Qed.

Lemma counts_sum (ss : list string) (rs : list Application) :
  NoDup ss ->
  list_sum (map (fun s => List.length (filter (fun r => String.eqb (Status r) s) rs)) ss)
  = List.length (filter (fun r => existsb (String.eqb (Status r)) ss) rs).
Proof.
  intro N. induction rs as [|r rest IH]; simpl.
  - induction ss as [|s tl IHs]; [reflexivity|].
    inversion N; subst. simpl. apply IHs. assumption.
  - transitivity
      (list_sum (map (fun s => b2n (String.eqb (Status r) s)
                               + List.length (filter (fun r0 => String.eqb (Status r0) s)
                                                     rest)) ss)).
    + f_equal. apply map_ext. intro s.
      destruct (String.eqb (Status r) s); reflexivity.
    + rewrite list_sum_add, IH, (eqb_sum _ _ N).
      destruct (existsb (String.eqb (Status r)) ss); reflexivity.
Qed.

Lemma filter_all (p : Application -> bool) (rs : list Application) :
  List.length (filter p rs) = List.length rs <-> Forall (fun r => p r = true) rs.
Proof.
  induction rs as [|r rest IH]; simpl; [split; [constructor | reflexivity]|].
  pose proof (filter_length_le p rest) as L.
  destruct (p r) eqn:P; simpl.
  - split.
    + intro H. constructor; [exact P | apply IH; lia].
    + intro H. inversion H; subst. f_equal. apply IH. assumption.
  - split; [lia|]. intro H. inversion H; subst. congruence.
Qed.

Lemma statuses_distinct : NoDup APPLICATION_STATUSES.
Proof.
  unfold APPLICATION_STATUSES.
  repeat constructor; simpl; intuition discriminate.
Qed.

Lemma interviews_at_most (df : DataFrame) : interviews df <= List.length (rows df).
Proof.
  assert (N : NoDup ["Interview Scheduled"; "Interviewed"; "Offered"; "Accepted";
                     "Declined"]%string).
  { repeat constructor; simpl; intuition discriminate. }
  pose proof (counts_sum _ (rows df) N) as H.
  pose proof (filter_length_le
                (fun r => existsb (String.eqb (Status r))
                                  ["Interview Scheduled"; "Interviewed"; "Offered";
                                   "Accepted"; "Declined"]%string) (rows df)) as L.
  unfold interviews, status_count. simpl list_sum in H. lia.
Qed.

(** The update where the job id and the cells of the column are of one
    kind, compared as text. *)
Lemma update_by_text_outcome :
  forall (now : string) (df : DataFrame) (job_id new_status : string)
         (notes : option string),
    let r := update_application_status now df job_id new_status notes in
    (snd r = true <->
     valid_status new_status = true
     /\ exists a, In a (rows df) /\ Job_ID a = job_id)
    /\ (snd r = false -> fst r = df)
    /\ (snd r = true ->
        exists k a,
          nth_error (rows df) k = Some a /\ Job_ID a = job_id
          /\ (forall i a0, i < k -> nth_error (rows df) i = Some a0 ->
                           Job_ID a0 <> job_id)
          /\ status_at (fst r) k = Some new_status
          /\ List.length (rows (fst r)) = List.length (rows df)
          /\ forall i, i <> k -> nth_error (rows (fst r)) i = nth_error (rows df) i).
Proof.
  intros now df job_id new_status notes r. unfold r. clear r.
  destruct (valid_status new_status) eqn:V.
  - pose proof (where_from_first (fun r => String.eqb (Job_ID r) job_id) (rows df) 0) as F.
    destruct (select_where (fun r => String.eqb (Job_ID r) job_id) df)
      as [|[k a] rest] eqn:S; unfold select_where in S; rewrite S in F.
    + assert (E : update_application_status now df job_id new_status notes = (df, false)).
      { unfold update_application_status, select_where. rewrite V, S. reflexivity. }
      rewrite E. simpl. split; [|split; [reflexivity | discriminate]].
      split; [discriminate|]. intros [_ [a [Ha Ja]]].
      apply F in Ha. apply String.eqb_neq in Ha. contradiction.
    + destruct F as [_ [F2 [F3 F4]]]. rewrite Nat.sub_0_r in F2, F4.
      apply String.eqb_eq in F3.
      destruct (update_rows_shape now df job_id new_status notes k a rest V S)
        as [h [Hs [_ E]]].
      rewrite E. simpl. split; [|split; [discriminate|]].
      * split; [|reflexivity]. intros _. split; [reflexivity|].
        exists a. split; [eapply nth_error_In; exact F2 | exact F3].
      * intros _. exists k, a.
        split; [exact F2|]. split; [exact F3|]. split.
        { intros i a0 Hi Ha0 J. pose proof (F4 i a0 Hi Ha0) as N.
          apply String.eqb_neq in N. contradiction. }
        split.
        { unfold status_at. simpl. rewrite TrackerFacts.nth_error_update_at.
          rewrite Nat.eqb_refl, F2. simpl. rewrite Hs. reflexivity. }
        split; [apply length_update_at|].
        intros i Hi. rewrite TrackerFacts.nth_error_update_at.
        apply Nat.eqb_neq in Hi. rewrite Hi. reflexivity.
  - assert (E : update_application_status now df job_id new_status notes = (df, false)).
    { unfold update_application_status. rewrite V. reflexivity. }
    rewrite E. simpl. split; [|split; [reflexivity | discriminate]].
    split; [discriminate|]. intros [H _]. discriminate.
Qed.

(** X18: the direct update succeeds exactly when the new status is one
    of the nine and the job id compares equal to the id of some record,
    as pandas compares them: text with the cells of a text column, an
    integer with the cells of an integer column.  A refused update
    leaves the table as it was; a successful one sets the status of the
    first record whose id compares equal and changes no other record.
    The command line passes the id as text, so on a table whose ids are
    all integers it is refused whatever the id, also for a record that
    exists. *)
Theorem direct_update_outcome :
  forall (now : string) (dt : Dtype) (df : DataFrame) (job_id : JobId)
         (new_status : string) (notes : option string),
    let r := update_application_status_typed now dt df job_id new_status notes in
    (snd r = true <->
     valid_status new_status = true
     /\ exists a, In a (rows df) /\ job_id_equals dt (Job_ID a) job_id = true)
    /\ (snd r = false -> fst r = df)
    /\ (snd r = true ->
        exists k a,
          nth_error (rows df) k = Some a
          /\ job_id_equals dt (Job_ID a) job_id = true
          /\ (forall i a0, i < k -> nth_error (rows df) i = Some a0 ->
                           job_id_equals dt (Job_ID a0) job_id = false)
          /\ status_at (fst r) k = Some new_status
          /\ List.length (rows (fst r)) = List.length (rows df)
          /\ forall i, i <> k -> nth_error (rows (fst r)) i = nth_error (rows df) i)
    /\ (forall text status,
          update_application now Int64 df text status notes = (df, false)).
Proof.
  intros now dt df job_id new_status notes r.
  assert (Text : forall s,
             (forall a, job_id_equals dt (Job_ID a) job_id = String.eqb (Job_ID a) s) ->
             r = update_application_status now df s new_status notes ->
             (snd r = true <->
              valid_status new_status = true
              /\ exists a, In a (rows df) /\ job_id_equals dt (Job_ID a) job_id = true)
             /\ (snd r = false -> fst r = df)
             /\ (snd r = true ->
                 exists k a,
                   nth_error (rows df) k = Some a
                   /\ job_id_equals dt (Job_ID a) job_id = true
                   /\ (forall i a0, i < k -> nth_error (rows df) i = Some a0 ->
                                    job_id_equals dt (Job_ID a0) job_id = false)
                   /\ status_at (fst r) k = Some new_status
                   /\ List.length (rows (fst r)) = List.length (rows df)
                   /\ forall i, i <> k ->
                                nth_error (rows (fst r)) i = nth_error (rows df) i)).
  { intros s Eq ->.
    destruct (update_by_text_outcome now df s new_status notes) as [A [B C]].
    split; [|split; [exact B|]].
    - rewrite A. split; intros [V [a [Ha Ja]]]; (split; [exact V|]); exists a;
        (split; [exact Ha|]).
      + rewrite Eq. apply String.eqb_eq. exact Ja.
      + rewrite Eq in Ja. apply String.eqb_eq. exact Ja.
    - intro S. destruct (C S) as [k [a [H1 [H2 [H3 [H4 [H5 H6]]]]]]].
      exists k, a. split; [exact H1|]. split.
      + rewrite Eq. apply String.eqb_eq. exact H2.
      + split; [|auto].
        intros i a0 Hi Ha0. rewrite Eq. apply String.eqb_neq. exact (H3 i a0 Hi Ha0). }
  assert (Never : (forall a, job_id_equals dt (Job_ID a) job_id = false) ->
                  r = (df, false) ->
                  (snd r = true <->
                   valid_status new_status = true
                   /\ exists a, In a (rows df) /\ job_id_equals dt (Job_ID a) job_id = true)
                  /\ (snd r = false -> fst r = df)
                  /\ (snd r = true ->
                      exists k a,
                        nth_error (rows df) k = Some a
                        /\ job_id_equals dt (Job_ID a) job_id = true
                        /\ (forall i a0, i < k -> nth_error (rows df) i = Some a0 ->
                                         job_id_equals dt (Job_ID a0) job_id = false)
                        /\ status_at (fst r) k = Some new_status
                        /\ List.length (rows (fst r)) = List.length (rows df)
                        /\ forall i, i <> k ->
                                     nth_error (rows (fst r)) i = nth_error (rows df) i)).
  { intros No ->. simpl. split; [|split; [reflexivity | discriminate]].
    split; [discriminate|]. intros [_ [a [_ Ja]]]. rewrite No in Ja. discriminate. }
  split; [|split; [|split]]; try (intros text status; reflexivity);
    destruct dt, job_id as [s|n];
    try (apply (Text (int_text n)); reflexivity);
    try (apply (Text s); reflexivity);
    try (apply Never; reflexivity).
Qed.

(** X19: a successful direct update moves one record from the count of
    its old status to the count of the new one: for every status the
    statistics counts change by exactly that, and the total stays. *)
Theorem direct_update_moves_one_count :
  forall (now : string) (df : DataFrame) (job_id new_status : string)
         (notes : option string),
    snd (update_application_status now df job_id new_status notes) = true ->
    let df' := fst (update_application_status now df job_id new_status notes) in
    List.length (rows df') = List.length (rows df)
    /\ exists a,
         In a (rows df) /\ Job_ID a = job_id
         /\ forall s, status_count df' s + b2n (String.eqb (Status a) s)
                      = status_count df s + b2n (String.eqb new_status s).
Proof.
  intros now df job_id new_status notes H df'. unfold df'. clear df'.
  destruct (valid_status new_status) eqn:V;
    [|unfold update_application_status in H; rewrite V in H; discriminate].
  pose proof (where_from_first (fun r => String.eqb (Job_ID r) job_id) (rows df) 0) as F.
  destruct (select_where (fun r => String.eqb (Job_ID r) job_id) df)
    as [|[k a] rest] eqn:S; unfold select_where in S; rewrite S in F.
  - unfold update_application_status, select_where in H. rewrite V, S in H. discriminate.
  - destruct F as [_ [F2 [F3 _]]]. rewrite Nat.sub_0_r in F2.
    apply String.eqb_eq in F3.
    destruct (update_rows_shape now df job_id new_status notes k a rest V S)
      as [h [Hs [_ E]]].
    rewrite E. simpl. split; [apply length_update_at|].
    exists a. split; [eapply nth_error_In; exact F2|]. split; [exact F3|].
    intro s. unfold status_count. simpl.
    pose proof (filter_update_at (fun r => String.eqb (Status r) s) h (rows df) k a F2)
      as K.
    simpl in K. rewrite Hs in K. exact K.
Qed.

(** X20: the response rate is a percentage: between 0 and 100 for every
    table, the empty one included. *)
Theorem response_rate_is_a_percentage :
  forall df : DataFrame,
    (0 <= response_rate df)%Q /\ (response_rate df <= 100)%Q.
Proof.
  intro df. unfold response_rate.
  pose proof (interviews_at_most df) as L.
  destruct (0 <? List.length (rows df)) eqn:Z.
  - apply Nat.ltb_lt in Z.
    assert (P : Z.pos (Pos.of_nat (List.length (rows df)))
                = Z.of_nat (List.length (rows df))).
    { rewrite <- positive_nat_Z, Nat2Pos.id by lia. reflexivity. }
    unfold Qle, Qmult. simpl Qnum. simpl Qden.
    rewrite !Pos2Z.inj_mul, P. split; lia.
  - split; unfold Qle; simpl; lia.
Qed.

(** X21: the per-status counts of the statistics never exceed the total,
    and add up to it exactly when every record has one of the nine
    statuses. *)
Theorem status_counts_partition :
  forall df : DataFrame,
    list_sum (map (status_count df) APPLICATION_STATUSES) <= List.length (rows df)
    /\ (list_sum (map (status_count df) APPLICATION_STATUSES) = List.length (rows df)
        <-> all_valid df).
Proof.
  intro df.
  assert (E : list_sum (map (status_count df) APPLICATION_STATUSES)
              = List.length (filter (fun r => valid_status (Status r)) (rows df))).
  { unfold status_count, valid_status. apply counts_sum. exact statuses_distinct. }
  rewrite E. split; [apply filter_length_le|].
  unfold all_valid. apply filter_all.
Qed.

(** X22: the query by status returns the records with that status, each
    under its own label, and as many of them as the statistics count;
    for a status outside the nine it returns nothing. *)
Theorem query_agrees_with_count :
  forall (df : DataFrame) (status : string),
    (forall i r, In (i, r) (get_applications_by_status df status)
                 <-> valid_status status = true
                     /\ nth_error (rows df) i = Some r /\ Status r = status)
    /\ List.length (get_applications_by_status df status)
       = if valid_status status then status_count df status else 0.
Proof.
  intros df status. unfold get_applications_by_status.
  destruct (valid_status status); simpl.
  - split.
    + intros i r. split.
      * intro H. split; [reflexivity|].
        pose proof (ScanFacts.where_from_slice _ _ _ _ _ H) as [_ N].
        rewrite Nat.sub_0_r in N. split; [exact N|].
        apply String.eqb_eq.
        exact (where_from_holds (fun a => String.eqb (Status a) status) _ _ _ _ H).
      * intros [_ [N Q]]. apply String.eqb_eq in Q.
        exact (where_from_complete _ _ 0 i r N Q).
    + apply where_from_length.
  - split; [|reflexivity]. intros i r. split; [intros [] | intros [H _]; discriminate].
Qed.

Lemma direct_update_moves_one_count_witness :
  let df' := fst (update_application_status Samples.clock Samples.two_applications
                                            "101" "Rejected" (Some "phone call")) in
  List.length (rows df') = 2
  /\ status_at df' 1 = Some "Rejected"
  /\ exists a,
       In a (rows Samples.two_applications) /\ Job_ID a = "101"
       /\ forall s, status_count df' s + b2n (String.eqb (Status a) s)
                    = status_count Samples.two_applications s
                      + b2n (String.eqb "Rejected" s).
Proof.
  intro df'. split; [reflexivity|]. split; [reflexivity|].
  apply (proj2 (direct_update_moves_one_count
                  Samples.clock Samples.two_applications "101" "Rejected"
                  (Some "phone call") eq_refl)).
Defined.

End ManagerFacts.

(** ** The set-up run at import *)

Module SetupFacts.
Import PyStr Setup.
Local Open Scope list_scope.

(** X23: the set-up of the status manager fails only when the file is
    missing, which it leaves missing.  Otherwise the file gets a status
    column in which every record has a status: a status that was there
    is kept, a missing one becomes "Applied"; the number of records, the
    other cells and the presence of the 'Applied' column stay; every
    cell of an 'Applied' column becomes the check mark or stays the
    empty string; and running the set-up again changes nothing. *)
Theorem ensure_status_column_settles :
  forall file : option RawTable,
    let r := ensure_status_column file in
    (snd r = false <-> file = None)
    /\ (file = None -> fst r = None)
    /\ (forall df, file = Some df ->
          exists df',
            fst r = Some df'
            /\ has_Status df' = true /\ has_Applied df' = has_Applied df
            /\ List.length (raw_rows df') = List.length (raw_rows df)
            /\ (forall k x, nth_error (raw_rows df) k = Some x ->
                  exists x',
                    nth_error (raw_rows df') k = Some x'
                    /\ raw_other x' = raw_other x
                    /\ (exists s, raw_status x' = Some s
                                  /\ (has_Status df = true ->
                                      forall s0, raw_status x = Some s0 -> s = s0)
                                  /\ (has_Status df = false \/ raw_status x = None ->
                                      s = "Applied"))
                    /\ (has_Applied df = true ->
                        raw_applied x' = Some check_mark
                        \/ raw_applied x' = Some EmptyString)
                    /\ (has_Applied df = false -> raw_applied x' = raw_applied x)))
    /\ ensure_status_column (fst r) = r.
Proof.
  intros [df|]; simpl.
  - split; [split; discriminate|]. split; [discriminate|]. split.
    + intros df0 E. inversion E; subst df0. eexists. split; [reflexivity|]. simpl.
      split; [reflexivity|]. split; [reflexivity|]. split; [apply length_map|].
      intros k x Hx. rewrite nth_error_map, Hx. simpl.
      eexists. split; [reflexivity|]. simpl. split; [reflexivity|]. split.
      * unfold fill_status. destruct (has_Status df).
        -- destruct (raw_status x) as [s0|].
           ++ exists s0. split; [reflexivity|]. split.
              ** intros _ s1 E1. inversion E1. reflexivity.
              ** intros [H|H]; discriminate.
           ++ exists "Applied". split; [reflexivity|]. split.
              ** intros _ s1 E1. discriminate.
              ** intros _. reflexivity.
        -- exists "Applied". split; [reflexivity|]. split.
           ++ discriminate.
           ++ intros _. reflexivity.
      * unfold fill_applied. destruct (has_Applied df).
        -- split; [|discriminate]. intros _.
           destruct (raw_applied x) as [[|c a]|]; simpl; auto.
        -- split; [discriminate | reflexivity].
    + f_equal. f_equal. f_equal. rewrite map_map. apply map_ext. intro x.
      unfold fill_status, fill_applied. simpl.
      destruct (has_Status df), (has_Applied df), (raw_status x),
               (raw_applied x) as [[|c a]|]; reflexivity.
  - split; [split; reflexivity|]. split; [reflexivity|]. split; [discriminate | reflexivity].
Qed.

End SetupFacts.
